(** * LifeOS Core: the event store and the plugin scheduler

    A shallow embedding of [src/lib/eventManager.js] (class [EventManager]),
    of [src/server/routes/plugins.js] (the plugin registry routes and the
    scheduler helpers) and of [src/server/routes/events.js] (the routes in
    front of the store), with the properties the specification states about
    them and further properties of the code.

    Layout: the platform the code runs on comes first (JSON values with
    [JSON.stringify] / [JSON.parse], the SQLite operators the queries use),
    then the event store, the plugin registry and scheduler and the event
    routes, and last the lemmas and theorems. *)

From Stdlib Require Import ZArith Ascii String List Bool Lia.
From Stdlib Require Import DecimalPos DecimalN.
From Stdlib Require OrderedTypeEx.
From Stdlib Require Import Sorted.
From stdpp Require Import base option gmap strings list.

Local Open Scope string_scope.
Local Open Scope Z_scope.
Local Open Scope list_scope.

#[local] Arguments String.append !_ _ : simpl nomatch.

(* ===================================================================== *)
(** * JavaScript values and JSON text *)
(* ===================================================================== *)

Module Json.

(** A JSON-compatible JavaScript value.  Numbers are the integer-valued
    ones (a [Z]); the keys of an object are kept in enumeration order,
    which for keys that are not array indices is insertion order.  A
    property that is absent ([undefined]) is a key that is not there. *)
#[local] Unset Elimination Schemes.
Inductive value : Type :=
| Null
| Bool (b : bool)
| Num (n : Z)
| Str (s : string)
| Arr (l : list value)
| Obj (o : list (string * value)).
#[local] Set Elimination Schemes.

(** Induction over a value, with the elements of an array and the members
    of an object as induction hypotheses. *)
Definition value_induction (P : value -> Prop)
  (HNull : P Null) (HBool : forall b, P (Bool b)) (HNum : forall n, P (Num n))
  (HStr : forall s, P (Str s))
  (HArr : forall l, Forall P l -> P (Arr l))
  (HObj : forall o, Forall (fun kv => P (snd kv)) o -> P (Obj o))
  : forall v, P v :=
  fix go (v : value) : P v :=
    match v with
    | Null => HNull
    | Bool b => HBool b
    | Num n => HNum n
    | Str s => HStr s
    | Arr l =>
        HArr l ((fix all (l : list value) : Forall P l :=
                   match l with
                   | [] => @List.Forall_nil _ P
                   | x :: l' => @List.Forall_cons _ P x l' (go x) (all l')
                   end) l)
    | Obj o =>
        HObj o ((fix all (o : list (string * value))
                   : Forall (fun kv => P (snd kv)) o :=
                   match o with
                   | [] => @List.Forall_nil _ _
                   | kv :: o' => @List.Forall_cons _ _ kv o' (go (snd kv)) (all o')
                   end) o)
    end.

Definition obj : Type := list (string * value).

(** [o.k]: [None] stands for [undefined]. *)
Fixpoint get (k : string) (o : obj) : option value :=
  match o with
  | [] => None
  | (k', v) :: o' => if String.eqb k k' then Some v else get k o'
  end.

(** [o.k = v]: an existing key keeps its place, a new key goes last. *)
Fixpoint set (k : string) (v : value) (o : obj) : obj :=
  match o with
  | [] => [(k, v)]
  | (k', v') :: o' =>
      if String.eqb k k' then (k', v) :: o' else (k', v') :: set k v o'
  end.

(** [Object.assign(target, src)], and with it the spread [{...a, ...b}]
    as [assign a b] (every object here is in the canonical form [assign]
    and [set] produce: no key twice).  Every key of [src] is written as an
    own property.  That is what the spread does for every key and what
    [Object.assign] does for every key but [__proto__], which it hands to
    the setter of the prototype; a statement about [Object.assign] is for a
    source without that key. *)
Definition assign (target src : obj) : obj :=
  fold_left (fun acc kv => set (fst kv) (snd kv) acc) src target.

Definition spread (o : obj) : obj := assign [] o.

(** JavaScript truthiness of a value; [undefined] is falsy. *)
Definition truthy (v : value) : bool :=
  match v with
  | Null => false
  | Bool b => b
  | Num n => negb (n =? 0)
  | Str s => negb (String.eqb s "")
  | Arr _ | Obj _ => true
  end.

Definition truthy_opt (ov : option value) : bool :=
  match ov with Some v => truthy v | None => false end.

(** [a || d] on a possibly absent property. *)
Definition or_else (ov : option value) (d : value) : value :=
  match ov with
  | Some v => if truthy v then v else d
  | None => d
  end.

(** ** [JSON.stringify] *)

Definition dquote : ascii := "034"%char.
Definition backslash : ascii := "092"%char.

Definition hex_digit (n : N) : ascii :=
  ascii_of_N (if (n <? 10)%N then 48 + n else 87 + n).

(** One character inside a string literal (QuoteJSONString). *)
Definition escape_char (c : ascii) : string :=
  if Ascii.eqb c dquote then String backslash (String dquote "")
  else if Ascii.eqb c backslash then String backslash (String backslash "")
  else if Ascii.eqb c "008" then String backslash "b"
  else if Ascii.eqb c "009" then String backslash "t"
  else if Ascii.eqb c "010" then String backslash "n"
  else if Ascii.eqb c "012" then String backslash "f"
  else if Ascii.eqb c "013" then String backslash "r"
  else if (N_of_ascii c <? 32)%N then
    String backslash
      (String "u" (String "0" (String "0"
         (String (hex_digit (N_of_ascii c / 16))
            (String (hex_digit (N_of_ascii c mod 16)) "")))))
  else String c "".

Fixpoint escape (s : string) : string :=
  match s with
  | EmptyString => ""
  | String c s' => escape_char c +:+ escape s'
  end.

Definition quote (s : string) : string :=
  String dquote (escape s +:+ String dquote "").

Fixpoint digits_of_uint (u : Decimal.uint) : string :=
  match u with
  | Decimal.Nil => ""
  | Decimal.D0 u' => String "0" (digits_of_uint u')
  | Decimal.D1 u' => String "1" (digits_of_uint u')
  | Decimal.D2 u' => String "2" (digits_of_uint u')
  | Decimal.D3 u' => String "3" (digits_of_uint u')
  | Decimal.D4 u' => String "4" (digits_of_uint u')
  | Decimal.D5 u' => String "5" (digits_of_uint u')
  | Decimal.D6 u' => String "6" (digits_of_uint u')
  | Decimal.D7 u' => String "7" (digits_of_uint u')
  | Decimal.D8 u' => String "8" (digits_of_uint u')
  | Decimal.D9 u' => String "9" (digits_of_uint u')
  end.

Definition string_of_Z (n : Z) : string :=
  match n with
  | Z0 => "0"
  | Zpos p => digits_of_uint (Pos.to_uint p)
  | Zneg p => String "-" (digits_of_uint (Pos.to_uint p))
  end.

(** The elements after the first, each behind its comma. *)
Definition join_tail {A : Type} (f : A -> string) : list A -> string :=
  fix go (l : list A) : string :=
    match l with
    | [] => ""
    | y :: l' => String "," (f y +:+ go l')
    end.

Fixpoint stringify (v : value) : string :=
  match v with
  | Null => "null"
  | Bool true => "true"
  | Bool false => "false"
  | Num n => string_of_Z n
  | Str s => quote s
  | Arr l =>
      String "["
        (match l with
         | [] => ""
         | x :: l' => stringify x +:+ join_tail stringify l'
         end +:+ "]")
  | Obj o =>
      String "{"
        (match o with
         | [] => ""
         | kv :: o' =>
             (quote (fst kv) +:+ String ":" (stringify (snd kv))) +:+
             join_tail
               (fun kv' => quote (fst kv') +:+ String ":" (stringify (snd kv')))
               o'
         end +:+ "}")
  end.

Definition member_text (kv : string * value) : string :=
  quote (fst kv) +:+ String ":" (stringify (snd kv)).

(** [String(v)], the conversion a template literal and [JSON.parse] apply
    to their argument: an array joins its elements with commas, [null]
    elements as the empty string. *)
Fixpoint to_string (v : value) : string :=
  match v with
  | Null => "null"
  | Bool true => "true"
  | Bool false => "false"
  | Num n => string_of_Z n
  | Str s => s
  | Arr l =>
      let elem := fun x => match x with Null => "" | _ => to_string x end in
      match l with
      | [] => ""
      | x :: l' => elem x +:+ join_tail elem l'
      end
  | Obj _ => "[object Object]"
  end.

(** ** [JSON.parse] *)

Definition is_ws (c : ascii) : bool :=
  Ascii.eqb c " " || Ascii.eqb c "009" || Ascii.eqb c "010" || Ascii.eqb c "013".

Fixpoint skip_ws (s : string) : string :=
  match s with
  | String c r => if is_ws c then skip_ws r else s
  | EmptyString => ""
  end.

Definition digit_of (c : ascii) : option (Decimal.uint -> Decimal.uint) :=
  if Ascii.eqb c "0" then Some Decimal.D0
  else if Ascii.eqb c "1" then Some Decimal.D1
  else if Ascii.eqb c "2" then Some Decimal.D2
  else if Ascii.eqb c "3" then Some Decimal.D3
  else if Ascii.eqb c "4" then Some Decimal.D4
  else if Ascii.eqb c "5" then Some Decimal.D5
  else if Ascii.eqb c "6" then Some Decimal.D6
  else if Ascii.eqb c "7" then Some Decimal.D7
  else if Ascii.eqb c "8" then Some Decimal.D8
  else if Ascii.eqb c "9" then Some Decimal.D9
  else None.

Fixpoint read_digits (s : string) : Decimal.uint * string :=
  match s with
  | String c r =>
      match digit_of c with
      | Some d => let '(u, r') := read_digits r in (d u, r')
      | None => (Decimal.Nil, s)
      end
  | EmptyString => (Decimal.Nil, "")
  end.

(** What may follow an integer literal: anything but one more digit, a
    fraction or an exponent (a literal with a fraction or an exponent is not
    an integer of this model, and is refused). *)
Definition num_follow (s : string) : bool :=
  match s with
  | String c _ =>
      negb (match digit_of c with Some _ => true | None => false end
            || Ascii.eqb c "." || Ascii.eqb c "e" || Ascii.eqb c "E")
  | EmptyString => true
  end.

Definition leading_zero (u : Decimal.uint) : bool :=
  match u with
  | Decimal.D0 Decimal.Nil => false
  | Decimal.D0 _ => true
  | _ => false
  end.

Definition parse_number (s : string) : option (value * string) :=
  let '(neg, s1) :=
    match s with
    | String c r => if Ascii.eqb c "-" then (true, r) else (false, s)
    | EmptyString => (false, s)
    end in
  let '(u, r) := read_digits s1 in
  match u with
  | Decimal.Nil => None
  | _ =>
      if leading_zero u || negb (num_follow r) then None
      else
        let n := Z.of_N (N.of_uint u) in
        Some (Num (if neg then - n else n), r)
  end.

Definition hex_val (c : ascii) : option N :=
  let n := N_of_ascii c in
  if ((48 <=? n) && (n <=? 57))%N then Some (n - 48)%N
  else if ((97 <=? n) && (n <=? 102))%N then Some (n - 87)%N
  else if ((65 <=? n) && (n <=? 70))%N then Some (n - 55)%N
  else None.

Definition unescape (e : ascii) : option ascii :=
  if Ascii.eqb e dquote then Some dquote
  else if Ascii.eqb e backslash then Some backslash
  else if Ascii.eqb e "/" then Some "/"%char
  else if Ascii.eqb e "b" then Some "008"%char
  else if Ascii.eqb e "t" then Some "009"%char
  else if Ascii.eqb e "n" then Some "010"%char
  else if Ascii.eqb e "f" then Some "012"%char
  else if Ascii.eqb e "r" then Some "013"%char
  else None.

(** The body of a string literal, after its opening quote.  A [\uXXXX]
    escape is read when it names an ASCII character (the only ones
    [stringify] writes); raw control characters are refused. *)
Fixpoint parse_string (s : string) : option (string * string) :=
  match s with
  | EmptyString => None
  | String c r =>
      if Ascii.eqb c dquote then Some ("", r)
      else if Ascii.eqb c backslash then
        match r with
        | String e r' =>
            if Ascii.eqb e "u" then
              match r' with
              | String h1 (String h2 (String h3 (String h4 r''))) =>
                  match hex_val h1, hex_val h2, hex_val h3, hex_val h4 with
                  | Some 0%N, Some 0%N, Some a, Some b =>
                      if (a <? 8)%N then
                        match parse_string r'' with
                        | Some (str, rest) =>
                            Some (String (ascii_of_N (16 * a + b)) str, rest)
                        | None => None
                        end
                      else None
                  | _, _, _, _ => None
                  end
              | _ => None
              end
            else
              match unescape e with
              | Some ch =>
                  match parse_string r' with
                  | Some (str, rest) => Some (String ch str, rest)
                  | None => None
                  end
              | None => None
              end
        | EmptyString => None
        end
      else if (N_of_ascii c <? 32)%N then None
      else
        match parse_string r with
        | Some (str, rest) => Some (String c str, rest)
        | None => None
        end
  end.

Fixpoint strip_prefix (p s : string) : option string :=
  match p with
  | EmptyString => Some s
  | String c p' =>
      match s with
      | String d s' => if Ascii.eqb c d then strip_prefix p' s' else None
      | EmptyString => None
      end
  end.

(** The object a list of parsed members denotes: a repeated key keeps the
    place of its first occurrence and the value of its last. *)
Definition of_members (ms : list (string * value)) : obj := assign [] ms.

Fixpoint parse_value (fuel : nat) (s : string) : option (value * string) :=
  match fuel with
  | O => None
  | S f =>
      match skip_ws s with
      | EmptyString => None
      | String c r =>
          if Ascii.eqb c "n" then
            match strip_prefix "ull" r with
            | Some r' => Some (Null, r') | None => None end
          else if Ascii.eqb c "t" then
            match strip_prefix "rue" r with
            | Some r' => Some (Bool true, r') | None => None end
          else if Ascii.eqb c "f" then
            match strip_prefix "alse" r with
            | Some r' => Some (Bool false, r') | None => None end
          else if Ascii.eqb c dquote then
            match parse_string r with
            | Some (str, r') => Some (Str str, r') | None => None end
          else if Ascii.eqb c "[" then
            match skip_ws r with
            | String c' r' =>
                if Ascii.eqb c' "]" then Some (Arr [], r')
                else
                  match parse_value f r with
                  | Some (v, r1) =>
                      match parse_elems f r1 with
                      | Some (vs, r2) => Some (Arr (v :: vs), r2)
                      | None => None
                      end
                  | None => None
                  end
            | EmptyString => None
            end
          else if Ascii.eqb c "{" then
            match skip_ws r with
            | String c' r' =>
                if Ascii.eqb c' "}" then Some (Obj [], r')
                else
                  match parse_member f r with
                  | Some (kv, r1) =>
                      match parse_members f r1 with
                      | Some (ms, r2) => Some (Obj (of_members (kv :: ms)), r2)
                      | None => None
                      end
                  | None => None
                  end
            | EmptyString => None
            end
          else parse_number (String c r)
      end
  end
with parse_elems (fuel : nat) (s : string) : option (list value * string) :=
  match fuel with
  | O => None
  | S f =>
      match skip_ws s with
      | String c r =>
          if Ascii.eqb c "," then
            match parse_value f r with
            | Some (v, r1) =>
                match parse_elems f r1 with
                | Some (vs, r2) => Some (v :: vs, r2)
                | None => None
                end
            | None => None
            end
          else if Ascii.eqb c "]" then Some ([], r)
          else None
      | EmptyString => None
      end
  end
with parse_member (fuel : nat) (s : string) : option ((string * value) * string) :=
  match fuel with
  | O => None
  | S f =>
      match skip_ws s with
      | String c r =>
          if Ascii.eqb c dquote then
            match parse_string r with
            | Some (k, r1) =>
                match skip_ws r1 with
                | String c' r2 =>
                    if Ascii.eqb c' ":" then
                      match parse_value f r2 with
                      | Some (v, r3) => Some ((k, v), r3)
                      | None => None
                      end
                    else None
                | EmptyString => None
                end
            | None => None
            end
          else None
      | EmptyString => None
      end
  end
with parse_members (fuel : nat) (s : string)
  : option (list (string * value) * string) :=
  match fuel with
  | O => None
  | S f =>
      match skip_ws s with
      | String c r =>
          if Ascii.eqb c "," then
            match parse_member f r with
            | Some (kv, r1) =>
                match parse_members f r1 with
                | Some (ms, r2) => Some (kv :: ms, r2)
                | None => None
                end
            | None => None
            end
          else if Ascii.eqb c "}" then Some ([], r)
          else None
      | EmptyString => None
      end
  end.

(** [JSON.parse]: [None] is the [SyntaxError].  Every call of the parser
    consumes a character, so the length of the text is fuel enough.  The
    parser reads the JSON texts whose numbers are integer literals and
    whose [\u] escapes name ASCII characters, which are the texts
    [stringify] writes for the values of this model; a text with a
    fraction, an exponent or an escape beyond ASCII, which [JSON.parse]
    reads as well, is refused here. *)
Definition parse (s : string) : option value :=
  match parse_value (S (String.length s)) s with
  | Some (v, r) =>
      match skip_ws r with
      | EmptyString => Some v
      | String _ _ => None
      end
  | None => None
  end.

(** The values [JSON.parse] can return: no key twice in an object. *)
Fixpoint keys_distinct (ks : list string) : bool :=
  match ks with
  | [] => true
  | k :: ks' => negb (existsb (String.eqb k) ks') && keys_distinct ks'
  end.

Fixpoint wf (v : value) : bool :=
  match v with
  | Arr l => forallb wf l
  | Obj o => keys_distinct (map fst o) && forallb (fun kv => wf (snd kv)) o
  | _ => true
  end.

(** ** The shape of the text [stringify] writes *)

(** The first character of an integer literal. *)
Definition num_start (c : ascii) : bool :=
  Ascii.eqb c "-" || match digit_of c with Some _ => true | None => false end.

(** The first character of a value: no white space, and not the bracket
    that closes an array or an object. *)
Definition starts_value (s : string) : bool :=
  match s with
  | String c _ => negb (is_ws c) && negb (Ascii.eqb c "]") && negb (Ascii.eqb c "}")
  | EmptyString => false
  end.

(** What the round trip says of one value, with text left after it. *)
Definition roundtrips (v : value) : Prop :=
  wf v = true ->
  forall (fuel : nat) (rest : string),
    (String.length (stringify v) <= fuel)%nat ->
    num_follow rest = true ->
    parse_value fuel (stringify v +:+ rest) = Some (v, rest).

End Json.

(* ===================================================================== *)
(** * The event schema *)
(* ===================================================================== *)

Module Schema.
Import Json.

Definition is_string (ov : option value) : bool :=
  match ov with Some (Str _) => true | _ => false end.

Definition optional (ok : value -> bool) (ov : option value) : bool :=
  match ov with Some v => ok v | None => true end.

Definition is_number (v : value) : bool :=
  match v with Num _ => true | _ => false end.

Definition is_object (v : value) : bool :=
  match v with Obj _ => true | _ => false end.

Definition is_array (v : value) : bool :=
  match v with Arr _ => true | _ => false end.

Definition strings (v : value) : bool :=
  match v with
  | Arr l => forallb (fun x => match x with Str _ => true | _ => false end) l
  | _ => false
  end.

(** Modelled from the spec: [lifeevent.schema.json] of the protocol
    package, which [EventManager] compiles into [this.validate], is not
    among the sources.  The specification (4.1) has it require
    [timestamp] (a date-time), [source], [type] and [title], and check the
    type of [mood] (numeric), [tags] and [linked_uris] (sequences of
    strings) and [metadata] (an object) when they are there.  The
    [date-time] format is the one the constructor registers,
    [!isNaN(Date.parse(s))], taken here as [date_time]. *)
Definition validate (date_time : string -> bool) (e : obj) : bool :=
  match get "timestamp" e with Some (Str s) => date_time s | _ => false end
  && is_string (get "source" e)
  && is_string (get "type" e)
  && is_string (get "title" e)
  && optional is_number (get "mood" e)
  && optional strings (get "tags" e)
  && optional strings (get "linked_uris" e)
  && optional is_object (get "metadata" e).

(** Modelled from the spec: the text of the validation errors
    ([this.ajv.errorsText]) comes from the same package; the specification
    (4.1) has it list every field that is refused, not only the first. *)
Definition errorsText (date_time : string -> bool) (e : obj) : string :=
  (if match get "timestamp" e with Some (Str s) => date_time s | _ => false end
   then "" else "timestamp ")
  +:+ (if is_string (get "source" e) then "" else "source ")
  +:+ (if is_string (get "type" e) then "" else "type ")
  +:+ (if is_string (get "title" e) then "" else "title ")
  +:+ (if optional is_number (get "mood" e) then "" else "mood ")
  +:+ (if optional strings (get "tags" e) then "" else "tags ")
  +:+ (if optional strings (get "linked_uris" e) then "" else "linked_uris ")
  +:+ (if optional is_object (get "metadata" e) then "" else "metadata ").

(** A recogniser of the shape [Date.prototype.toISOString] writes,
    [YYYY-MM-DDTHH:MM:SSZ] with an optional [.sss], for the examples. *)
Fixpoint shaped (pattern s : string) : bool :=
  match pattern, s with
  | EmptyString, EmptyString => true
  | String p pattern', String c s' =>
      (if Ascii.eqb p "d"
       then match digit_of c with Some _ => true | None => false end
       else Ascii.eqb p c)
      && shaped pattern' s'
  | _, _ => false
  end.

Definition iso_date_time (s : string) : bool :=
  shaped "dddd-dd-ddTdd:dd:ddZ" s || shaped "dddd-dd-ddTdd:dd:dd.dddZ" s.

End Schema.

(* ===================================================================== *)
(** * The SQLite store, as the queries of [EventManager] use it *)
(* ===================================================================== *)

Module Sqlite.
Import Json.

(** A stored value: NULL, an integer or text.  The columns of the table
    are taken to keep what is bound to them, which is what the engine does
    for a value of the column's declared type (text in a TEXT column, an
    integer in an INTEGER column) and for NULL.  The conversion the engine
    applies to a value of another type (numeric text bound to [mood] or
    [duration] is stored as the number, a number bound to a TEXT column as
    its text) is outside this model. *)
Inductive sqlval : Type :=
| SNull
| SInt (n : Z)
| SText (s : string).

Definition is_null (x : sqlval) : bool :=
  match x with SNull => true | _ => false end.

Definition sqlval_eqb (a b : sqlval) : bool :=
  match a, b with
  | SInt n, SInt m => n =? m
  | SText s, SText t => String.eqb s t
  | _, _ => false
  end.

(** How the driver binds a JavaScript value to a [?]: an [undefined] leaves
    the parameter unbound, which is NULL; a boolean is bound as 0 or 1, and
    an array or an object as the text of [Object.prototype.toString]. *)
Definition bind (ov : option value) : sqlval :=
  match ov with
  | None | Some Null => SNull
  | Some (Bool b) => SInt (if b then 1 else 0)
  | Some (Num n) => SInt n
  | Some (Str s) => SText s
  | Some (Arr _) | Some (Obj _) => SText "[object Object]"
  end.

(** A column of a result row, as the driver hands it to JavaScript. *)
Definition to_js (x : sqlval) : value :=
  match x with
  | SNull => Null
  | SInt n => Num n
  | SText s => Str s
  end.

(** The order of values: NULL, then numbers, then text byte by byte. *)
Definition sql_compare (a b : sqlval) : comparison :=
  match a, b with
  | SNull, SNull => Eq
  | SNull, _ => Lt
  | _, SNull => Gt
  | SInt n, SInt m => Z.compare n m
  | SInt _, SText _ => Lt
  | SText _, SInt _ => Gt
  | SText s, SText t => String.compare s t
  end.

(** [a = b], [a >= b] and [a <= b] in a WHERE clause: a comparison with
    NULL is not true. *)
Definition sql_eq (a b : sqlval) : bool := sqlval_eqb a b.

Definition sql_ge (a b : sqlval) : bool :=
  match a, b with
  | SNull, _ | _, SNull => false
  | _, _ => match sql_compare a b with Lt => false | _ => true end
  end.

Definition sql_le (a b : sqlval) : bool :=
  match a, b with
  | SNull, _ | _, SNull => false
  | _, _ => match sql_compare a b with Gt => false | _ => true end
  end.

(** ** LIKE *)

Definition lower (c : ascii) : ascii :=
  let n := N_of_ascii c in
  if ((65 <=? n) && (n <=? 90))%N then ascii_of_N (n + 32) else c.

Definition is_continuation (c : ascii) : bool :=
  let n := N_of_ascii c in ((128 <=? n) && (n <? 192))%N.

Fixpoint skip_continuation (s : string) : string :=
  match s with
  | String c r => if is_continuation c then skip_continuation r else s
  | EmptyString => ""
  end.

(** [star m s]: some suffix of [s] satisfies [m]. *)
Definition star (m : string -> bool) : string -> bool :=
  fix go (s : string) : bool :=
    m s || match s with
           | EmptyString => false
           | String _ s' => go s'
           end.

(** [s LIKE p] with the default settings: [%] is any run of characters,
    [_] is one (UTF-8) character, and ASCII letters match without regard to
    case.  The texts are taken to hold no NUL character, at which the
    engine ends a text. *)
Fixpoint like (p s : string) {struct p} : bool :=
  match p with
  | EmptyString =>
      match s with EmptyString => true | String _ _ => false end
  | String pc p' =>
      if Ascii.eqb pc "%" then star (like p') s
      else if Ascii.eqb pc "_" then
        match s with
        | EmptyString => false
        | String c s' =>
            like p' (if (192 <=? N_of_ascii c)%N then skip_continuation s' else s')
        end
      else
        match s with
        | EmptyString => false
        | String c s' => Ascii.eqb (lower pc) (lower c) && like p' s'
        end
  end.

(** [x LIKE p] on a stored value: a number is matched as its text, and NULL
    matches nothing. *)
Definition sql_like (x : sqlval) (p : string) : bool :=
  match x with
  | SNull => false
  | SInt n => like p (string_of_Z n)
  | SText s => like p s
  end.

End Sqlite.

(* ===================================================================== *)
(** * [EventManager] *)
(* ===================================================================== *)

Module EventManager.
Import Json Sqlite.

(** What a call can fail with: the [Error]s the class throws itself, the
    driver's error when a statement breaks a constraint of the table, and
    the [SyntaxError] of [JSON.parse]. *)
Inductive exn : Type :=
| Error (message : string)
| SqliteConstraint (what : string)
| SyntaxError.

Inductive result (A : Type) : Type :=
| Ok (a : A)
| Err (e : exn).
Arguments Ok {A} a.
Arguments Err {A} e.

(** The columns of the table [events], in the order of CREATE TABLE. *)
Inductive column : Type :=
| Cid | Ctimestamp | Csource | Ctype | Ctitle | Cmetadata | Clinked_uris
| Ctags | Cmood | Clocation | Cduration | Ccreated_at | Cupdated_at.

Definition column_name (c : column) : string :=
  match c with
  | Cid => "id" | Ctimestamp => "timestamp" | Csource => "source"
  | Ctype => "type" | Ctitle => "title" | Cmetadata => "metadata"
  | Clinked_uris => "linked_uris" | Ctags => "tags" | Cmood => "mood"
  | Clocation => "location" | Cduration => "duration"
  | Ccreated_at => "created_at" | Cupdated_at => "updated_at"
  end.

Definition columns : list column :=
  [Cid; Ctimestamp; Csource; Ctype; Ctitle; Cmetadata; Clinked_uris;
   Ctags; Cmood; Clocation; Cduration; Ccreated_at; Cupdated_at].

Record row : Type := {
  c_id : sqlval;
  c_timestamp : sqlval;
  c_source : sqlval;
  c_type : sqlval;
  c_title : sqlval;
  c_metadata : sqlval;
  c_linked_uris : sqlval;
  c_tags : sqlval;
  c_mood : sqlval;
  c_location : sqlval;
  c_duration : sqlval;
  c_created_at : sqlval;
  c_updated_at : sqlval
}.

Definition col (c : column) (r : row) : sqlval :=
  match c with
  | Cid => c_id r | Ctimestamp => c_timestamp r | Csource => c_source r
  | Ctype => c_type r | Ctitle => c_title r | Cmetadata => c_metadata r
  | Clinked_uris => c_linked_uris r | Ctags => c_tags r | Cmood => c_mood r
  | Clocation => c_location r | Cduration => c_duration r
  | Ccreated_at => c_created_at r | Cupdated_at => c_updated_at r
  end.

(** The table: its rows, oldest first. *)
Definition table : Type := list row.

(** The row object the driver builds for [SELECT *]. *)
Definition row_object (r : row) : obj :=
  map (fun c => (column_name c, to_js (col c r))) columns.

(** The columns declared NOT NULL. *)
Definition not_null_ok (r : row) : bool :=
  forallb (fun c => negb (is_null (col c r)))
    [Ctimestamp; Csource; Ctype; Ctitle; Ccreated_at; Cupdated_at].

Definition has_id (id : sqlval) (r : row) : bool := sql_eq (c_id r) id.

(** [INSERT INTO events (...) VALUES (?, ...)]: the statement fails, and
    writes nothing, when a NOT NULL column would be NULL or the primary key
    is taken. *)
Definition insert (r : row) (t : table) : result table :=
  if negb (not_null_ok r) then
    Err (SqliteConstraint "NOT NULL constraint failed")
  else if existsb (has_id (c_id r)) t then
    Err (SqliteConstraint "UNIQUE constraint failed: events.id")
  else Ok (t ++ [r]).

(** The row [createEvent] binds, column by column, from the serialized
    event. *)
Definition row_of (s : obj) : row :=
  {| c_id := bind (get "id" s);
     c_timestamp := bind (get "timestamp" s);
     c_source := bind (get "source" s);
     c_type := bind (get "type" s);
     c_title := bind (get "title" s);
     c_metadata := bind (get "metadata" s);
     c_linked_uris := bind (get "linked_uris" s);
     c_tags := bind (get "tags" s);
     c_mood := bind (get "mood" s);
     c_location := bind (get "location" s);
     c_duration := bind (get "duration" s);
     c_created_at := bind (get "created_at" s);
     c_updated_at := bind (get "updated_at" s) |}.

(** [UPDATE events SET timestamp = ?, ..., updated_at = ? WHERE id = ?]:
    neither [id] nor [created_at] is among the columns it sets. *)
Definition set_columns (s : obj) (r : row) : row :=
  {| c_id := c_id r;
     c_timestamp := bind (get "timestamp" s);
     c_source := bind (get "source" s);
     c_type := bind (get "type" s);
     c_title := bind (get "title" s);
     c_metadata := bind (get "metadata" s);
     c_linked_uris := bind (get "linked_uris" s);
     c_tags := bind (get "tags" s);
     c_mood := bind (get "mood" s);
     c_location := bind (get "location" s);
     c_duration := bind (get "duration" s);
     c_created_at := c_created_at r;
     c_updated_at := bind (get "updated_at" s) |}.

Definition update (id : string) (s : obj) (t : table) : result table :=
  if forallb (fun r => implb (has_id (SText id) r) (not_null_ok (set_columns s r))) t
  then Ok (map (fun r => if has_id (SText id) r then set_columns s r else r) t)
  else Err (SqliteConstraint "NOT NULL constraint failed").

(** [JSON.parse(x)]: the argument is converted to a string first. *)
Definition JSON_parse (x : value) : result value :=
  match parse (to_string x) with
  | Some v => Ok v
  | None => Err SyntaxError
  end.

(** [JSON.parse(o.k)]: the text of [undefined] is no JSON. *)
Definition JSON_parse_field (k : string) (o : obj) : result value :=
  match get k o with
  | Some x => JSON_parse x
  | None => Err SyntaxError
  end.

(** The compound fields of an event, written as JSON text:
    [{...event, metadata: JSON.stringify(event.metadata || {}), ...}]. *)
Definition serialize (event : obj) : obj :=
  set "location"
    (match get "location" event with
     | Some l => if truthy l then Str (stringify l) else Null
     | None => Null
     end)
    (set "tags" (Str (stringify (or_else (get "tags" event) (Arr []))))
       (set "linked_uris"
          (Str (stringify (or_else (get "linked_uris" event) (Arr []))))
          (set "metadata"
             (Str (stringify (or_else (get "metadata" event) (Obj []))))
             (spread event)))).

(** The read paths' [{...row, metadata: JSON.parse(row.metadata || '{}'),
    ...}]. *)
Definition parse_fields (r : obj) : result obj :=
  match JSON_parse (or_else (get "metadata" r) (Str "{}")) with
  | Err e => Err e
  | Ok m =>
  match JSON_parse (or_else (get "linked_uris" r) (Str "[]")) with
  | Err e => Err e
  | Ok u =>
  match JSON_parse (or_else (get "tags" r) (Str "[]")) with
  | Err e => Err e
  | Ok t =>
  match (if truthy_opt (get "location" r)
         then JSON_parse_field "location" r else Ok Null) with
  | Err e => Err e
  | Ok l =>
      Ok (set "location" l
            (set "tags" t (set "linked_uris" u (set "metadata" m (spread r)))))
  end end end end.

Fixpoint parse_rows (rs : list row) : result (list obj) :=
  match rs with
  | [] => Ok []
  | r :: rs' =>
      match parse_fields (row_object r) with
      | Err e => Err e
      | Ok o =>
          match parse_rows rs' with
          | Err e => Err e
          | Ok os => Ok (o :: os)
          end
      end
  end.

(** The filter of [getEvents].  [orderBy], which the method splices into
    the SQL text, is taken as the column and direction it names ([true] is
    DESC); the default is [timestamp DESC]. *)
Record options : Type := {
  o_source : option string;
  o_type : option string;
  o_startDate : option string;
  o_endDate : option string;
  o_tags : option (list string);
  o_limit : option Z;
  o_offset : option Z;
  o_orderBy : option (column * bool)
}.

(** [if (x)] on an optional string: absent and empty are both skipped. *)
Definition given (x : option string) : option string :=
  match x with
  | Some s => if String.eqb s "" then None else Some s
  | None => None
  end.

Definition when_given (x : option string) (test : string -> bool) : bool :=
  match given x with
  | Some s => test s
  | None => true
  end.

(** The condition for the [tags] option: [(tags LIKE ? OR tags LIKE ? ...)]
    with the patterns ['%' + tag + '%'], when the list is not empty. *)
Definition tags_clause (o : options) (r : row) : bool :=
  match o_tags o with
  | Some (t :: ts) =>
      existsb (fun tag => sql_like (c_tags r) ("%" +:+ tag +:+ "%")) (t :: ts)
  | Some [] | None => true
  end.

(** The WHERE clause the method builds: [1=1] and one [AND] per option
    given. *)
Definition where_clause (o : options) (r : row) : bool :=
  when_given (o_source o) (fun s => sql_eq (c_source r) (SText s))
  && when_given (o_type o) (fun s => sql_eq (c_type r) (SText s))
  && when_given (o_startDate o) (fun s => sql_ge (c_timestamp r) (SText s))
  && when_given (o_endDate o) (fun s => sql_le (c_timestamp r) (SText s))
  && tags_clause o r.

(** [ORDER BY column ASC|DESC]: [precedes ord a b] when [a] sorts strictly
    before [b].  SQL leaves the order of rows that compare equal open; here
    they keep the order of the table. *)
Definition precedes (ord : column * bool) (a b : row) : bool :=
  match sql_compare (col (fst ord) a) (col (fst ord) b) with
  | Lt => negb (snd ord)
  | Gt => snd ord
  | Eq => false
  end.

Fixpoint insert_sorted (ord : column * bool) (r : row) (l : list row) : list row :=
  match l with
  | [] => [r]
  | x :: l' =>
      if precedes ord x r then x :: insert_sorted ord r l' else r :: l
  end.

Definition order_by (ord : column * bool) (l : list row) : list row :=
  fold_right (insert_sorted ord) [] l.

(** [LIMIT ? OFFSET ?]: a negative limit is no limit, a negative offset is
    none. *)
Definition limit_offset (limit offset : Z) (l : list row) : list row :=
  let l' := skipn (Z.to_nat offset) l in
  if limit <? 0 then l' else firstn (Z.to_nat limit) l'.

Definition select (o : options) (t : table) : list row :=
  limit_offset (default 100 (o_limit o)) (default 0 (o_offset o))
    (order_by (default (Ctimestamp, true) (o_orderBy o))
       (List.filter (where_clause o) t)).

(** [{...event, ...updates, updated_at: now}]: the record [updateEvent]
    validates and writes. *)
Definition merge (event updates : obj) (now : string) : obj :=
  set "updated_at" (Str now) (assign (spread event) updates).

Section Methods.

(** The compiled schema of the protocol package ([this.validate]) and the
    text of its errors ([this.ajv.errorsText]): the package is not part of
    this repository. *)
Variable validate : obj -> bool.
Variable errorsText : obj -> string.

(** [createEvent(eventData)], with the identifier [uuidv4()] would return
    and the two readings of the clock. *)
Definition createEvent (t : table) (uuid now1 now2 : string) (eventData : obj)
  : result obj * table :=
  if negb (validate eventData) then
    (Err (Error ("Invalid event: " +:+ errorsText eventData)), t)
  else
    let event :=
      set "updated_at" (Str now2)
        (set "created_at" (or_else (get "created_at" eventData) (Str now1))
           (set "id" (or_else (get "id" eventData) (Str uuid))
              (spread eventData))) in
    let serializedEvent := serialize event in
    match insert (row_of serializedEvent) t with
    | Err e => (Err e, t)
    | Ok t' =>
        (match JSON_parse_field "metadata" serializedEvent with
         | Err e => Err e
         | Ok m =>
         match JSON_parse_field "linked_uris" serializedEvent with
         | Err e => Err e
         | Ok u =>
         match JSON_parse_field "tags" serializedEvent with
         | Err e => Err e
         | Ok g =>
         match (if truthy_opt (get "location" serializedEvent)
                then JSON_parse_field "location" serializedEvent
                else Ok Null) with
         | Err e => Err e
         | Ok l =>
             Ok (set "location" l
                   (set "tags" g
                      (set "linked_uris" u (set "metadata" m (spread event)))))
         end end end end, t')
    end.

(** [getEvent(id)]: [Ok None] is the [null] of a missing event. *)
Definition getEvent (t : table) (id : string) : result (option obj) :=
  match List.find (has_id (SText id)) t with
  | None => Ok None
  | Some r =>
      match parse_fields (row_object r) with
      | Ok e => Ok (Some e)
      | Err e => Err e
      end
  end.

(** [getEvents(options)]. *)
Definition getEvents (t : table) (o : options) : result (list obj) :=
  parse_rows (select o t).

(** [updateEvent(id, updates)]. *)
Definition updateEvent (t : table) (now : string) (id : string) (updates : obj)
  : result obj * table :=
  match getEvent t id with
  | Err e => (Err e, t)
  | Ok None => (Err (Error ("Event not found: " +:+ id)), t)
  | Ok (Some event) =>
      let updatedEvent := merge event updates now in
      if negb (validate updatedEvent) then
        (Err (Error ("Invalid event: " +:+ errorsText updatedEvent)), t)
      else
        match update id (serialize updatedEvent) t with
        | Err e => (Err e, t)
        | Ok t' => (Ok updatedEvent, t')
        end
  end.

(** [deleteEvent(id)]: whether a row was removed. *)
Definition deleteEvent (t : table) (id : string) : bool * table :=
  let t' := List.filter (fun r => negb (has_id (SText id) r)) t in
  (Nat.ltb (length t') (length t), t').

(** [getStats().total]: [SELECT COUNT( * ) FROM events]. *)
Definition total (t : table) : nat := length t.

End Methods.

(** ** What the store keeps *)

(** A compound column as [createEvent] and [updateEvent] write it: the
    text [JSON.stringify] gives for a truthy value. *)
Definition json_text (x : sqlval) : bool :=
  match x with
  | SText s =>
      match parse s with
      | Some v => wf v && truthy v && String.eqb (stringify v) s
      | None => false
      end
  | SNull | SInt _ => false
  end.

(** A row as the two methods write it: [metadata], [linked_uris] and
    [tags] are such texts, and [location] is one or NULL. *)
Definition row_ok (r : row) : bool :=
  json_text (c_metadata r) && json_text (c_linked_uris r)
  && json_text (c_tags r)
  && (is_null (c_location r) || json_text (c_location r)).

(** The fields of an event that are its own, not the store's. *)
Definition data_columns : list column :=
  [Ctimestamp; Csource; Ctype; Ctitle; Cmetadata; Clinked_uris; Ctags;
   Cmood; Clocation; Cduration].

(** A payload whose fields have the types of the data model: the four
    required strings, and each optional field, when it is there, of its
    type. *)
Definition typed (e : obj) : bool :=
  Schema.is_string (get "timestamp" e)
  && Schema.is_string (get "source" e)
  && Schema.is_string (get "type" e)
  && Schema.is_string (get "title" e)
  && Schema.optional Schema.is_object (get "metadata" e)
  && Schema.optional Schema.is_array (get "linked_uris" e)
  && Schema.optional Schema.is_array (get "tags" e)
  && Schema.optional Schema.is_number (get "mood" e)
  && Schema.optional Schema.is_object (get "location" e)
  && Schema.optional Schema.is_number (get "duration" e).

(** A compound field in its structured form: an array or an object, not
    the text that serializes one. *)
Definition structured (v : value) : bool :=
  match v with
  | Arr _ | Obj _ => true
  | _ => false
  end.

(** The record the store holds for a payload: its fields, with the
    defaults of the data model for those it leaves out, under the id and
    timestamps it was given. *)
Definition stored_view (e : obj) (id created updated : value) : obj :=
  [("id", id);
   ("timestamp", default Null (get "timestamp" e));
   ("source", default Null (get "source" e));
   ("type", default Null (get "type" e));
   ("title", default Null (get "title" e));
   ("metadata", or_else (get "metadata" e) (Obj []));
   ("linked_uris", or_else (get "linked_uris" e) (Arr []));
   ("tags", or_else (get "tags" e) (Arr []));
   ("mood", default Null (get "mood" e));
   ("location", or_else (get "location" e) Null);
   ("duration", default Null (get "duration" e));
   ("created_at", created);
   ("updated_at", updated)].

(** The event the read paths build from a row. *)
Definition decoded (r : row) (m u g l : value) : obj :=
  set "location" l
    (set "tags" g (set "linked_uris" u (set "metadata" m (spread (row_object r))))).

(** The event [createEvent] builds before it serializes it. *)
Definition stamped (data : obj) (id created updated : value) : obj :=
  set "updated_at" updated (set "created_at" created (set "id" id (spread data))).

(** The text [serialize] writes for [location]. *)
Definition location_text (l : value) : sqlval :=
  if truthy l then SText (stringify l) else SNull.

(** Every property of an object holds a well-formed value. *)
Definition values_wf (o : obj) : bool := forallb (fun kv => wf (snd kv)) o.

(** The conditions of the WHERE clause, one by one. *)
Definition source_matches (o : options) (r : row) : Prop :=
  match given (o_source o) with
  | Some s => c_source r = SText s
  | None => True
  end.

Definition type_matches (o : options) (r : row) : Prop :=
  match given (o_type o) with
  | Some s => c_type r = SText s
  | None => True
  end.

Definition from_start (o : options) (r : row) : Prop :=
  match given (o_startDate o) with
  | Some s => sql_ge (c_timestamp r) (SText s) = true
  | None => True
  end.

Definition until_end (o : options) (r : row) : Prop :=
  match given (o_endDate o) with
  | Some s => sql_le (c_timestamp r) (SText s) = true
  | None => True
  end.

Definition some_tag_matches (o : options) (r : row) : Prop :=
  match o_tags o with
  | Some (t :: ts) =>
      exists tag, In tag (t :: ts)
                  /\ sql_like (c_tags r) ("%" +:+ tag +:+ "%") = true
  | Some [] | None => True
  end.

(** ** Searching, counting and resolving *)

(** The WHERE clause of [searchEvents]:
    [title LIKE ? OR metadata LIKE ? OR tags LIKE ?], each [?] bound to
    ['%' + query + '%']. *)
Definition search_clause (query : string) (r : row) : bool :=
  let searchTerm := "%" +:+ query +:+ "%" in
  sql_like (c_title r) searchTerm
  || sql_like (c_metadata r) searchTerm
  || sql_like (c_tags r) searchTerm.

(** [searchEvents(query, options)]: [ORDER BY timestamp DESC LIMIT ?], with
    the limit 50 unless the options give one; the rows are decoded as
    [getEvents] decodes them. *)
Definition searchEvents (t : table) (query : string) (limit : option Z)
  : result (list obj) :=
  parse_rows
    (limit_offset (default 50 limit) 0
       (order_by (Ctimestamp, true) (List.filter (search_clause query) t))).

(** [GROUP BY c] puts two rows in one group when their values compare
    equal; NULLs form one group. *)
Definition same_group (a b : sqlval) : bool :=
  match sql_compare a b with Eq => true | _ => false end.

(** One more row for the group of [k].  SQL leaves the order of the groups
    open; they are kept here in ascending order, as SQLite's sorter emits
    them. *)
Fixpoint bump (k : sqlval) (l : list (sqlval * nat)) : list (sqlval * nat) :=
  match l with
  | [] => [(k, 1%nat)]
  | (x, n) :: l' =>
      match sql_compare k x with
      | Lt => (k, 1%nat) :: l
      | Eq => (x, S n) :: l'
      | Gt => (x, n) :: bump k l'
      end
  end.

(** [SELECT c, COUNT( * ) as count FROM events GROUP BY c]. *)
Definition count_by (c : column) (t : table) : list (sqlval * nat) :=
  fold_left (fun acc r => bump (col c r) acc) t [].

Definition count_rows (c : column) (t : table) : list value :=
  map (fun kn => Obj [(column_name c, to_js (fst kn));
                      ("count", Num (Z.of_nat (snd kn)))])
      (count_by c t).

(** [getStats()]. *)
Definition getStats (t : table) : obj :=
  [("total", Num (Z.of_nat (total t)));
   ("bySource", Arr (count_rows Csource t));
   ("byType", Arr (count_rows Ctype t))].

(** The sum of the counts of a grouping. *)
Definition counted (l : list (sqlval * nat)) : nat :=
  fold_right (fun kn acc => (snd kn + acc)%nat) 0%nat l.

(** The count a grouping holds for a value, and groupings whose values
    ascend. *)
Definition count_of (k : sqlval) (l : list (sqlval * nat)) : nat :=
  match List.find (fun kn => same_group k (fst kn)) l with
  | Some kn => snd kn
  | None => 0%nat
  end.

Definition ascending (l : list (sqlval * nat)) : Prop :=
  StronglySorted (fun a b => sql_compare (fst a) (fst b) = Lt) l.

(** A text with its ASCII letters in lower case, as LIKE compares them. *)
Fixpoint lower_text (s : string) : string :=
  match s with
  | EmptyString => ""
  | String c s' => String (lower c) (lower_text s')
  end.

(** The options [resolveURI] falls back on: the source and type the URI
    names, and one row. *)
Definition local_lookup (parsed : option string * option string) : options :=
  {| o_source := fst parsed; o_type := snd parsed;
     o_startDate := None; o_endDate := None; o_tags := None;
     o_limit := Some 1; o_offset := None; o_orderBy := None |}.

Section Resolving.

(** The resolver of the protocol package, which is not part of this
    repository: [this.resolver.resolveURI(uri)] gives an event or throws,
    and [this.resolver.parseURI(uri)] gives the [source] and the [type] the
    URI names, or throws. *)
Variable resolver_resolveURI : value -> result obj.
Variable resolver_parseURI : value -> result (option string * option string).

(** [resolveURI(uri)]. *)
Definition resolveURI (t : table) (uri : value) : result obj :=
  match resolver_resolveURI uri with
  | Ok event => Ok event
  | Err error =>
      match resolver_parseURI uri with
      | Err e => Err e
      | Ok parsed =>
          match getEvents t (local_lookup parsed) with
          | Err e => Err e
          | Ok (event :: _) => Ok event
          | Ok [] => Err error
          end
      end
  end.

End Resolving.


(** A page of a query: the same filter with its own limit and offset. *)
Definition page (o : options) (limit offset : Z) : options :=
  {| o_source := o_source o; o_type := o_type o;
     o_startDate := o_startDate o; o_endDate := o_endDate o;
     o_tags := o_tags o; o_limit := Some limit; o_offset := Some offset;
     o_orderBy := o_orderBy o |}.

(** [a] does not sort after [b] under an ORDER BY. *)
Definition in_order (ord : column * bool) (a b : row) : Prop :=
  precedes ord b a = false.

(** The tables the class can have written: the empty one, and what
    [createEvent], [updateEvent] and [deleteEvent] make of such a table.
    The payloads are what [JSON.parse] gives a route: no key twice. *)
Inductive written (validate : obj -> bool) (errorsText : obj -> string)
  : table -> Prop :=
| written_empty : written validate errorsText []
| written_create (t : table) (uuid now1 now2 : string) (eventData : obj) :
    written validate errorsText t -> wf (Obj eventData) = true ->
    written validate errorsText
      (snd (createEvent validate errorsText t uuid now1 now2 eventData))
| written_update (t : table) (now id : string) (updates : obj) :
    written validate errorsText t -> wf (Obj updates) = true ->
    written validate errorsText
      (snd (updateEvent validate errorsText t now id updates))
| written_delete (t : table) (id : string) :
    written validate errorsText t ->
    written validate errorsText (snd (deleteEvent t id)).

End EventManager.

(* ===================================================================== *)
(** * The plugin registry and scheduler ([routes/plugins.js]) *)
(* ===================================================================== *)

Module Plugins.
Import Json.

(** A file of a plugin directory: its text, or, for a descriptor the server
    wrote with [JSON.stringify(config, null, 2)], the object that text
    denotes. *)
Inductive file : Type :=
| Text (s : string)
| JsonDoc (o : obj).

(** An entry of the plugin root: a plain file, or a directory with its
    files by name. *)
Inductive node : Type :=
| File
| Dir (files : gmap string file).

(** What a handler can catch: a failed file operation, a [SyntaxError] of
    [JSON.parse], a [TypeError], and the error of [cron.schedule] for an
    expression it refuses. *)
Inductive thrown : Type :=
| FsError
| JsonError
| TypeError
| CronError.

(** A task of the cron library that is running: the plugin it invokes and
    the descriptor its callback closed over. *)
Record task : Type := {
  task_plugin : string;
  task_schedule : string;
  task_config : obj
}.

(** The state of the module: the plugin root on disk, the map
    [activeJobs], the tasks the cron library runs (by handle), and what
    was written to the console. *)
Record state : Type := {
  fs : gmap string node;
  activeJobs : gmap string nat;
  cron_tasks : list (nat * task);
  next_handle : nat;
  console : list string
}.

Definition initial (root : gmap string node) : state :=
  {| fs := root; activeJobs := ∅; cron_tasks := []; next_handle := 0;
     console := [] |}.

Definition with_fs (st : state) (root : gmap string node) : state :=
  {| fs := root; activeJobs := activeJobs st; cron_tasks := cron_tasks st;
     next_handle := next_handle st; console := console st |}.

Definition log (st : state) (line : string) : state :=
  {| fs := fs st; activeJobs := activeJobs st; cron_tasks := cron_tasks st;
     next_handle := next_handle st; console := console st ++ [line] |}.

(** A response: [res.status(code).json(body)], or the 500 of a handler's
    [catch] with the error caught. *)
Inductive response : Type :=
| Res (status : nat) (body : value)
| Res500 (e : thrown).

(** [JSON.parse(await fs.readFile(path.join(PLUGIN_DIR, id, 'plugin.json')))].
    [inl FsError] is the failure of [fs.readFile]: the name is no directory
    of the plugin root, or the directory has no [plugin.json].  The text of
    a descriptor is read with [parse]; a text [parse] refuses, and a
    descriptor that is JSON but no object, are not covered: reading them is
    taken to fail. *)
Definition readConfig (root : gmap string node) (id : string) : thrown + obj :=
  match root !! id with
  | Some (Dir files) =>
      match files !! "plugin.json" with
      | Some (JsonDoc o) => inr o
      | Some (Text s) =>
          match parse s with
          | Some (Obj o) => inr o
          | Some _ => inl TypeError
          | None => inl JsonError
          end
      | None => inl FsError
      end
  | Some File | None => inl FsError
  end.

(** [fs.writeFile(path.join(PLUGIN_DIR, id, name), ...)]: the directory has
    to be there. *)
Definition writeFile (root : gmap string node) (id name : string) (f : file)
  : option (gmap string node) :=
  match root !! id with
  | Some (Dir files) => Some (<[id := Dir (<[name := f]> files)]> root)
  | Some File | None => None
  end.

Definition writeConfig (root : gmap string node) (id : string) (config : obj)
  : option (gmap string node) :=
  writeFile root id "plugin.json" (JsonDoc config).

(** Whether [plugin.json] is there to be read: the plugin's name is a
    directory of the root and the directory has the file. *)
Definition has_descriptor (root : gmap string node) (id : string) : bool :=
  match root !! id with
  | Some (Dir files) => bool_decide (is_Some (files !! "plugin.json"))
  | Some File | None => false
  end.

(** The triggers the cron library runs for a plugin. *)
Definition triggers (id : string) (st : state) : list (nat * task) :=
  List.filter (fun ht => String.eqb (task_plugin (snd ht)) id) (cron_tasks st).

(** [config.schedule && config.enabled]. *)
Definition scheduled (config : obj) : bool :=
  truthy_opt (get "schedule" config) && truthy_opt (get "enabled" config).

(** [config.enabled !== false]. *)
Definition not_false (ov : option value) : bool :=
  match ov with Some (Bool false) => false | _ => true end.

(** [stopScheduledJob(pluginId)]: [job.stop()] ends the task. *)
Definition stopScheduledJob (id : string) (st : state) : state :=
  match activeJobs st !! id with
  | Some h =>
      {| fs := fs st;
         activeJobs := delete id (activeJobs st);
         cron_tasks := List.filter (fun ht => negb (Nat.eqb (fst ht) h)) (cron_tasks st);
         next_handle := next_handle st;
         console := console st ++ ["Stopped scheduled job for plugin " +:+ id] |}
  | None => st
  end.

(** [activeJobs] and the tasks the cron library runs agree: each entry of
    the map is a running task of that plugin, each running task is the
    entry of its plugin, and no handle is used twice. *)
Record consistent (st : state) : Prop := {
  job_runs :
    forall id h, activeJobs st !! id = Some h ->
      exists tk, In (h, tk) (cron_tasks st) /\ task_plugin tk = id;
  task_registered :
    forall h tk, In (h, tk) (cron_tasks st) ->
      activeJobs st !! task_plugin tk = Some h;
  handles_distinct : List.NoDup (map fst (cron_tasks st));
  handles_fresh :
    forall h tk, In (h, tk) (cron_tasks st) -> (h < next_handle st)%nat
}.

(** The state after a registration: the task is running and is the
    plugin's entry of [activeJobs]. *)
Definition registered (id e : string) (config : obj) (st1 : state) : state :=
  {| fs := fs st1;
     activeJobs := <[id := next_handle st1]> (activeJobs st1);
     cron_tasks :=
       cron_tasks st1 ++
       [(next_handle st1,
         {| task_plugin := id; task_schedule := e; task_config := config |})];
     next_handle := S (next_handle st1);
     console := console st1 ++ ["Started scheduled job for plugin " +:+ id] |}.

Section Scheduler.

(** The cron library's check of an expression: [cron.schedule] throws for
    one it refuses. *)
Variable cron_validate : string -> bool.

(** A descriptor the scheduler registers: enabled, with a schedule the cron
    library accepts. *)
Definition registers (config : obj) : Prop :=
  scheduled config = true
  /\ exists e, get "schedule" config = Some (Str e) /\ cron_validate e = true.


(** [cron.schedule(expression, callback)]: a new running task. *)
Definition cron_schedule (id : string) (config : obj) (st : state)
  : thrown + (nat * state) :=
  match get "schedule" config with
  | Some (Str e) =>
      if cron_validate e then
        let h := next_handle st in
        inr (h,
             {| fs := fs st;
                activeJobs := activeJobs st;
                cron_tasks :=
                  cron_tasks st ++
                  [(h, {| task_plugin := id; task_schedule := e;
                          task_config := config |})];
                next_handle := S h;
                console := console st |})
      else inl CronError
  | _ => inl TypeError
  end.

(** [startScheduledJob(pluginId, config)]. *)
Definition startScheduledJob (id : string) (config : obj) (st : state)
  : option thrown * state :=
  let st1 := stopScheduledJob id st in
  if scheduled config then
    match cron_schedule id config st1 with
    | inr (h, st2) =>
        (None,
         {| fs := fs st2;
            activeJobs := <[id := h]> (activeJobs st2);
            cron_tasks := cron_tasks st2;
            next_handle := next_handle st2;
            console :=
              console st2 ++ ["Started scheduled job for plugin " +:+ id] |})
    | inl e => (Some e, st1)
    end
  else (None, st1).

(** POST [/:id/enable]. *)
Definition enable (id : string) (st : state) : response * state :=
  match readConfig (fs st) id with
  | inl e => (Res500 e, st)
  | inr config0 =>
      let config := set "enabled" (Bool true) config0 in
      match writeConfig (fs st) id config with
      | None => (Res500 FsError, st)
      | Some root =>
          let st1 := with_fs st root in
          let ok := Res 200 (Obj [("success", Bool true); ("plugin", Str id);
                                  ("enabled", Bool true)]) in
          if scheduled config then
            match startScheduledJob id config st1 with
            | (None, st2) => (ok, st2)
            | (Some e, st2) => (Res500 e, st2)
            end
          else (ok, st1)
      end
  end.

(** POST [/:id/disable]. *)
Definition disable (id : string) (st : state) : response * state :=
  match readConfig (fs st) id with
  | inl e => (Res500 e, st)
  | inr config0 =>
      let config := set "enabled" (Bool false) config0 in
      match writeConfig (fs st) id config with
      | None => (Res500 FsError, st)
      | Some root =>
          (Res 200 (Obj [("success", Bool true); ("plugin", Str id);
                         ("enabled", Bool false)]),
           stopScheduledJob id (with_fs st root))
      end
  end.

(** PUT [/:id/config], with the request body. *)
Definition updateConfig (id : string) (updates : obj) (st : state)
  : response * state :=
  match readConfig (fs st) id with
  | inl e => (Res500 e, st)
  | inr config0 =>
      let config := assign config0 updates in
      match writeConfig (fs st) id config with
      | None => (Res500 FsError, st)
      | Some root =>
          let st1 := with_fs st root in
          let ok := Res 200 (Obj [("success", Bool true); ("plugin", Str id);
                                  ("config", Obj config)]) in
          if scheduled config then
            match startScheduledJob id config (stopScheduledJob id st1) with
            | (None, st2) => (ok, st2)
            | (Some e, st2) => (Res500 e, st2)
            end
          else if negb (truthy_opt (get "enabled" config)) then
            (ok, stopScheduledJob id st1)
          else (ok, st1)
      end
  end.

(** [initializeScheduledJobs()]: one pass over the plugin root. *)
Definition initialize_one (st : state) (entry : string * node) : state :=
  match snd entry with
  | File => st
  | Dir _ =>
      match readConfig (fs st) (fst entry) with
      | inr config =>
          if truthy_opt (get "enabled" config)
             && truthy_opt (get "schedule" config) then
            match startScheduledJob (fst entry) config st with
            | (None, st') => st'
            | (Some _, st') =>
                log st' ("Error initializing plugin " +:+ fst entry +:+ ":")
            end
          else st
      | inl _ => log st ("Error initializing plugin " +:+ fst entry +:+ ":")
      end
  end.

Definition initializeScheduledJobs (st : state) : state :=
  fold_left initialize_one (map_to_list (fs st)) st.

End Scheduler.

(** ** Listing and reading descriptors *)

(** The entry of a plugin whose descriptor was read. *)
Definition describe (id : string) (config : obj) : obj :=
  [("id", Str id);
   ("name", or_else (get "name" config) (Str id));
   ("description", or_else (get "description" config) (Str ""));
   ("version", or_else (get "version" config) (Str "1.0.0"));
   ("author", or_else (get "author" config) (Str ""));
   ("source", or_else (get "source" config) (Str ""));
   ("type", or_else (get "type" config) (Str "manual"));
   ("schedule", or_else (get "schedule" config) Null);
   ("enabled", Bool (not_false (get "enabled" config)));
   ("lastRun", or_else (get "lastRun" config) Null);
   ("config", or_else (get "config" config) (Obj []))].

(** The entry of a plugin whose descriptor could not be read. *)
Definition degraded (id : string) : obj :=
  [("id", Str id);
   ("name", Str id);
   ("description", Str "Plugin configuration not found");
   ("version", Str "1.0.0");
   ("enabled", Bool false);
   ("error", Str "Invalid configuration")].

Definition list_entry (root : gmap string node) (entry : string * node)
  : option obj :=
  match snd entry with
  | File => None
  | Dir _ =>
      Some (match readConfig root (fst entry) with
            | inr config => describe (fst entry) config
            | inl _ => degraded (fst entry)
            end)
  end.

Definition list_error (root : gmap string node) (entry : string * node)
  : option string :=
  match snd entry with
  | File => None
  | Dir _ =>
      match readConfig root (fst entry) with
      | inr _ => None
      | inl _ => Some ("Error reading plugin config for " +:+ fst entry +:+ ":")
      end
  end.

(** GET [/]. *)
Definition listPlugins (st : state) : response * state :=
  (Res 200
     (Obj [("plugins",
            Arr (map Obj (omap (list_entry (fs st)) (map_to_list (fs st)))))]),
   {| fs := fs st; activeJobs := activeJobs st; cron_tasks := cron_tasks st;
      next_handle := next_handle st;
      console :=
        console st ++ omap (list_error (fs st)) (map_to_list (fs st)) |}).

(** GET [/:id]. *)
Definition getPlugin (id : string) (st : state) : response * state :=
  match fs st !! id with
  | Some (Dir files) =>
      match readConfig (fs st) id with
      | inl e => (Res500 e, st)
      | inr config =>
          match or_else (get "main" config) (Str "index.js") with
          | Str mainFile =>
              (Res 200
                 (Obj (describe id config ++
                       [("hasMainFile",
                         Bool (bool_decide (is_Some (files !! mainFile))));
                        ("mainFile", Str mainFile)])),
               st)
          | _ => (Res500 TypeError, st)
          end
      end
  | Some File | None =>
      (Res 404 (Obj [("error", Str "Plugin not found")]), st)
  end.

(** ** Installing *)

(** The [index.js] the install route writes. *)
Definition stub_index (name : string) : string :=
  "#!/usr/bin/env node

/**
 * " +:+ name +:+ " Plugin for LifeOS Core
 * 
 * This plugin was automatically generated.
 * Edit this file to implement your plugin logic.
 */

const EventManager = require('../../../lib/eventManager');

async function runPlugin(config) {
  console.log('Running " +:+ name +:+ " plugin...');
  
  // TODO: Implement your plugin logic here
  // Example:
  // const eventManager = new EventManager();
  // await eventManager.initialize();
  // 
  // const event = {
  //   timestamp: new Date().toISOString(),
  //   source: '" +:+ name +:+ "',
  //   type: 'plugin.event',
  //   title: 'Plugin Event',
  //   metadata: { plugin: '" +:+ name +:+ "' }
  // };
  // 
  // await eventManager.createEvent(event);
  
  console.log('" +:+ name +:+ " plugin completed');
}

// Run if called directly
if (require.main === module) {
  const config = require('./plugin.json');
  runPlugin(config).catch(console.error);
}

module.exports = { runPlugin };
".

(** The descriptor the install route writes. *)
Definition install_config (source : value) (name : string) : obj :=
  [("name", Str name);
   ("description", Str ("Plugin installed from " +:+ to_string source));
   ("version", Str "1.0.0");
   ("author", Str "LifeOS Core");
   ("source", source);
   ("type", Str "manual");
   ("enabled", Bool false);
   ("config", Obj [])].

(** [fs.mkdir(path, { recursive: true })]: a directory that is there
    already is left as it is, a plain file in its place is an error. *)
Definition mkdir (root : gmap string node) (name : string)
  : option (gmap string node) :=
  match root !! name with
  | Some (Dir _) => Some root
  | Some File => None
  | None => Some (<[name := Dir ∅]> root)
  end.

(** POST [/install], with the request body.  The name is a directory name
    under the plugin root (a single path segment). *)
Definition install (body : obj) (st : state) : response * state :=
  if negb (truthy_opt (get "source" body)) || negb (truthy_opt (get "name" body))
  then (Res 400 (Obj [("error", Str "Source and name are required")]), st)
  else
    match get "source" body, get "name" body with
    | Some source, Some (Str name) =>
        match mkdir (fs st) name with
        | None => (Res500 FsError, st)
        | Some root1 =>
            match writeConfig root1 name (install_config source name) with
            | None => (Res500 FsError, with_fs st root1)
            | Some root2 =>
                match writeFile root2 name "index.js" (Text (stub_index name)) with
                | None => (Res500 FsError, with_fs st root2)
                | Some root3 =>
                    (Res 201
                       (Obj [("success", Bool true); ("plugin", Str name);
                             ("message", Str "Plugin installed successfully")]),
                     with_fs st root3)
                end
            end
        end
    | _, _ => (Res500 TypeError, st)
    end.

(** ** Running a plugin *)

(** How the child process ended: the ['close'] event with its exit code
    ([None] is the [null] of a process a signal ended) and what it wrote,
    or the ['error'] event of a process that could not be spawned. *)
Inductive child : Type :=
| Closed (code : option Z) (stdout stderr : string)
| SpawnFailed.

Inductive run_result : Type :=
| Resolved (v : value)
| Rejected (message : string)
| RejectedSpawn.

(** [updatePluginLastRun(pluginId)], at the time [now]. *)
Definition updatePluginLastRun (id now : string) (st : state) : state :=
  match readConfig (fs st) id with
  | inr config =>
      match writeConfig (fs st) id (set "lastRun" (Str now) config) with
      | Some root => with_fs st root
      | None => log st "Error updating plugin last run time:"
      end
  | inl _ => log st "Error updating plugin last run time:"
  end.

Definition code_text (code : option Z) : string :=
  match code with
  | Some n => string_of_Z n
  | None => "null"
  end.

(** [runPlugin(pluginId, mainPath, config, args)], given how the child
    ends.  The update of [lastRun] is not awaited by the caller; it runs to
    its end here.  The child is taken not to touch the plugin root. *)
Definition runPlugin (id now : string) (c : child) (st : state)
  : run_result * state :=
  match c with
  | Closed code stdout stderr =>
      let st' := updatePluginLastRun id now st in
      match code with
      | Some 0 =>
          (Resolved (Obj [("success", Bool true); ("stdout", Str stdout);
                          ("stderr", Str stderr); ("exitCode", Num 0)]),
           st')
      | _ =>
          (Rejected ("Plugin failed with exit code " +:+ code_text code +:+
                     ": " +:+ stderr),
           st')
      end
  | SpawnFailed => (RejectedSpawn, st)
  end.

(** The callback of a scheduled task, when the task fires. *)
Definition fire (id now : string) (c : child) (st : state) : state :=
  match runPlugin id now c st with
  | (Resolved _, st') =>
      log st' ("Scheduled plugin " +:+ id +:+ " completed successfully")
  | (_, st') => log st' ("Scheduled plugin " +:+ id +:+ " failed:")
  end.

(** ** The server at work *)

(** One thing the module does: its pass at startup, a request served, a
    manual run, or a scheduled task firing. *)
Inductive step (cron_validate : string -> bool) : state -> state -> Prop :=
| step_initialize (st : state) :
    step cron_validate st (initializeScheduledJobs cron_validate st)
| step_list (st : state) : step cron_validate st (snd (listPlugins st))
| step_get (id : string) (st : state) :
    step cron_validate st (snd (getPlugin id st))
| step_enable (id : string) (st : state) :
    step cron_validate st (snd (enable cron_validate id st))
| step_disable (id : string) (st : state) :
    step cron_validate st (snd (disable id st))
| step_updateConfig (id : string) (updates : obj) (st : state) :
    step cron_validate st (snd (updateConfig cron_validate id updates st))
| step_install (body : obj) (st : state) :
    step cron_validate st (snd (install body st))
| step_run (id now : string) (c : child) (st : state) :
    step cron_validate st (snd (runPlugin id now c st))
| step_fire (id now : string) (c : child) (st : state) :
    step cron_validate st (fire id now c st).

(** The states the server can be in, started on a plugin root. *)
Inductive reachable (cron_validate : string -> bool) (root : gmap string node)
  : state -> Prop :=
| reachable_initial : reachable cron_validate root (initial root)
| reachable_step (st st' : state) :
    reachable cron_validate root st -> step cron_validate st st' ->
    reachable cron_validate root st'.

(** ** Running on request *)

(** POST [/:id/run], given how the child ends.  [fs.stat] accepts a plain
    file under the plugin's name as well as a directory; the main file is a
    name inside the plugin directory.  The error of a child that could not
    be spawned is the operating system's. *)
Definition run (id now : string) (c : child) (st : state) : response * state :=
  match fs st !! id with
  | None => (Res 404 (Obj [("error", Str "Plugin not found")]), st)
  | Some n =>
      match readConfig (fs st) id with
      | inl e => (Res500 e, st)
      | inr config =>
          match or_else (get "main" config) (Str "index.js") with
          | Str mainFile =>
              if match n with
                 | Dir files => bool_decide (is_Some (files !! mainFile))
                 | File => false
                 end
              then
                match runPlugin id now c st with
                | (Resolved result, st') =>
                    (Res 200 (Obj [("success", Bool true); ("plugin", Str id);
                                   ("result", result)]),
                     st')
                | (Rejected message, st') =>
                    (Res 500 (Obj [("error", Str message)]), st')
                | (RejectedSpawn, st') => (Res500 FsError, st')
                end
              else
                (Res 400 (Obj [("error", Str "Plugin main file not found")]), st)
          | _ => (Res500 TypeError, st)
          end
      end
  end.

(** ** The log of a plugin *)

(** The lines after the first of an indented array or object, each behind
    its comma and line break. *)
Definition join_lines {A : Type} (f : A -> string) (indent : string)
  : list A -> string :=
  fix go (l : list A) : string :=
    match l with
    | [] => ""
    | y :: l' => String "," (String "010" (indent +:+ f y +:+ go l'))
    end.

(** [JSON.stringify(v, null, 2)], at the indentation [indent]. *)
Fixpoint stringify_indented (indent : string) (v : value) : string :=
  match v with
  | Arr l =>
      match l with
      | [] => "[]"
      | x :: l' =>
          String "["
            (String "010"
               ((indent +:+ "  ") +:+
                stringify_indented (indent +:+ "  ") x +:+
                join_lines (stringify_indented (indent +:+ "  "))
                  (indent +:+ "  ") l' +:+
                String "010" (indent +:+ "]")))
      end
  | Obj o =>
      match o with
      | [] => "{}"
      | kv :: o' =>
          String "{"
            (String "010"
               ((indent +:+ "  ") +:+
                (quote (fst kv) +:+ ": " +:+
                 stringify_indented (indent +:+ "  ") (snd kv)) +:+
                join_lines
                  (fun kv' => quote (fst kv') +:+ ": " +:+
                              stringify_indented (indent +:+ "  ") (snd kv'))
                  (indent +:+ "  ") o' +:+
                String "010" (indent +:+ "}")))
      end
  | _ => stringify v
  end.

(** An indentation: spaces only. *)
Fixpoint indentation (s : string) : bool :=
  match s with
  | EmptyString => true
  | String c s' => Ascii.eqb c " " && indentation s'
  end.

(** What reading back says of one value written with indentation, with
    text left after it. *)
Definition reads_back (v : value) : Prop :=
  wf v = true ->
  forall (indent : string) (fuel : nat) (rest : string),
    indentation indent = true ->
    (String.length (stringify_indented indent v) <= fuel)%nat ->
    num_follow rest = true ->
    parse_value fuel (stringify_indented indent v +:+ rest) = Some (v, rest).

(** What [fs.readFile(path, 'utf8')] gives for a file (taken to hold valid
    UTF-8). *)
Definition file_text (f : file) : string :=
  match f with
  | Text s => s
  | JsonDoc o => stringify_indented "" (Obj o)
  end.

Definition readFile (root : gmap string node) (id name : string)
  : option string :=
  match root !! id with
  | Some (Dir files) => option_map file_text (files !! name)
  | Some File | None => None
  end.

(** [s.split('\n')]. *)
Fixpoint split_lines (s : string) : list string :=
  match s with
  | EmptyString => [""]
  | String c r =>
      if Ascii.eqb c "010" then "" :: split_lines r
      else
        match split_lines r with
        | line :: lines => String c line :: lines
        | [] => [String c ""]
        end
  end.

(** The white space of the language that takes three bytes of UTF-8:
    U+1680, U+2000 to U+200A, U+2028, U+2029, U+202F, U+205F, U+3000 and
    U+FEFF. *)
Definition wide_space (a b c : N) : bool :=
  ((a =? 225) && (b =? 154) && (c =? 128)
   || (a =? 226) && (b =? 128)
      && ((128 <=? c) && (c <=? 138) || (c =? 168) || (c =? 169) || (c =? 175))
   || (a =? 226) && (b =? 129) && (c =? 159)
   || (a =? 227) && (b =? 128) && (c =? 128)
   || (a =? 239) && (b =? 187) && (c =? 191))%N.

(** A line of white space only, for which [line.trim()] is the empty
    string: tab to carriage return, the space, U+00A0, and the wide ones. *)
Fixpoint blank (s : string) : bool :=
  match s with
  | EmptyString => true
  | String c r =>
      if ((9 <=? N_of_ascii c) && (N_of_ascii c <=? 13)
          || (N_of_ascii c =? 32))%N
      then blank r
      else
        match r with
        | String c1 r1 =>
            if ((N_of_ascii c =? 194) && (N_of_ascii c1 =? 160))%N then blank r1
            else
              match r1 with
              | String c2 r2 =>
                  if wide_space (N_of_ascii c) (N_of_ascii c1) (N_of_ascii c2)
                  then blank r2
                  else false
              | EmptyString => false
              end
        | EmptyString => false
        end
  end.

(** [l.slice(-n)]: the last [n] elements, or all of them. *)
Definition slice_last {A : Type} (n : nat) (l : list A) : list A :=
  skipn (length l - n) l.

(** [logs.split('\n').filter(line => line.trim())]. *)
Definition log_lines (logs : string) : list string :=
  List.filter (fun line => negb (blank line)) (split_lines logs).

(** GET [/:id/logs]. *)
Definition getLogs (id : string) (st : state) : response * state :=
  (Res 200
     (Obj [("plugin", Str id);
           ("logs",
            Arr (map Str
                   match readFile (fs st) id "plugin.log" with
                   | Some logs => slice_last 100 (log_lines logs)
                   | None => []
                   end))]),
   st).

(** ** What the pass at startup registers *)

(** A plugin directory whose descriptor can be read and is enabled with a
    schedule the cron library accepts. *)
Definition starts (cron_validate : string -> bool) (root : gmap string node)
    (id : string) : bool :=
  match root !! id with
  | Some (Dir _) =>
      match readConfig root id with
      | inr config =>
          truthy_opt (get "enabled" config)
          && truthy_opt (get "schedule" config)
          && match get "schedule" config with
             | Some (Str e) => cron_validate e
             | _ => false
             end
      | inl _ => false
      end
  | Some File | None => false
  end.

(** The plugin directories of a root. *)
Definition directories (root : gmap string node) : list string :=
  omap (fun entry : string * node =>
          match snd entry with
          | Dir _ => Some (fst entry)
          | File => None
          end)
       (map_to_list root).

End Plugins.

(* ===================================================================== *)
(** * The event routes ([routes/events.js]) *)
(* ===================================================================== *)

Module Events.
Import Json Sqlite EventManager.

(** The state of the module: whether [initialize()] has resolved, and the
    table behind its [EventManager]. *)
Record state : Type := {
  isInitialized : bool;
  db : table
}.

Definition with_db (st : state) (t : table) : state :=
  {| isInitialized := isInitialized st; db := t |}.

(** A response: [res.status(code).json(body)], or
    [res.status(code).json({ error: error.message })] for the error
    caught. *)
Inductive response : Type :=
| Res (status : nat) (body : value)
| ResError (status : nat) (e : exn).

Definition handler : Type := state -> response * state.

(** The middleware every route goes through. *)
Definition ensureInitialized (next : handler) : handler :=
  fun st =>
    if isInitialized st then next st
    else
      (Res 503
         (Obj [("error", Str "Database is initializing, please try again")]),
       st).

(** [s.includes(p)]. *)
Fixpoint includes (p s : string) : bool :=
  String.prefix p s
  || match s with
     | EmptyString => false
     | String _ s' => includes p s'
     end.

(** [SameValueZero], by which a [Set] tells its elements apart: an array or
    an object is the same as itself only, and the properties collected here
    come from different rows. *)
Definition same_value_zero (a b : option value) : bool :=
  match a, b with
  | None, None => true
  | Some Null, Some Null => true
  | Some (Bool x), Some (Bool y) => Bool.eqb x y
  | Some (Num n), Some (Num m) => n =? m
  | Some (Str s), Some (Str t) => String.eqb s t
  | _, _ => false
  end.

(** [[...new Set(xs)]]: each value once, at its first place. *)
Definition new_Set (xs : list (option value)) : list (option value) :=
  fold_left
    (fun seen x => if existsb (same_value_zero x) seen then seen else seen ++ [x])
    xs [].

(** An element of an array in a JSON body: [undefined] is written [null]. *)
Definition json_element (x : option value) : value := default Null x.

(** [getEvents({ limit: 1000 })]. *)
Definition first_thousand : options :=
  {| o_source := None; o_type := None; o_startDate := None; o_endDate := None;
     o_tags := None; o_limit := Some 1000; o_offset := None;
     o_orderBy := None |}.

(** [[...new Set(events.map(event => event.k))]]. *)
Definition distinct_property (k : string) (events : list obj) : list value :=
  map json_element (new_Set (map (get k) events)).

(** GET [/sources]. *)
Definition get_sources : handler :=
  ensureInitialized (fun st =>
    match getEvents (db st) first_thousand with
    | Ok events =>
        (Res 200 (Obj [("sources", Arr (distinct_property "source" events))]), st)
    | Err e => (ResError 500 e, st)
    end).

(** GET [/types]. *)
Definition get_types : handler :=
  ensureInitialized (fun st =>
    match getEvents (db st) first_thousand with
    | Ok events =>
        (Res 200 (Obj [("types", Arr (distinct_property "type" events))]), st)
    | Err e => (ResError 500 e, st)
    end).

(** GET [/stats]. *)
Definition get_stats : handler :=
  ensureInitialized (fun st => (Res 200 (Obj (getStats (db st))), st)).

(** GET [/:id]. *)
Definition get_event (id : string) : handler :=
  ensureInitialized (fun st =>
    match getEvent (db st) id with
    | Ok (Some event) => (Res 200 (Obj event), st)
    | Ok None => (Res 404 (Obj [("error", Str "Event not found")]), st)
    | Err e => (ResError 500 e, st)
    end).

(** DELETE [/:id]. *)
Definition delete_event (id : string) : handler :=
  ensureInitialized (fun st =>
    let (deleted, t') := deleteEvent (db st) id in
    if deleted then
      (Res 200 (Obj [("message", Str "Event deleted successfully")]),
       with_db st t')
    else (Res 404 (Obj [("error", Str "Event not found")]), with_db st t')).

Section Routes.

Variable validate : obj -> bool.
Variable errorsText : obj -> string.

(** The [message] of an error the class did not make itself: the driver's,
    the engine's. *)
Variable engine_message : exn -> string.

Variable resolver_resolveURI : value -> result obj.
Variable resolver_parseURI : value -> result (option string * option string).

Definition message (e : exn) : string :=
  match e with
  | Error m => m
  | SqliteConstraint _ | SyntaxError => engine_message e
  end.

(** POST [/], with the request body (an object), the route's reading of
    the clock, and the identifier and the two readings [createEvent]
    takes. *)
Definition post_event (clock uuid now1 now2 : string) (body : obj) : handler :=
  ensureInitialized (fun st =>
    let eventData :=
      if negb (truthy_opt (get "timestamp" body))
      then set "timestamp" (Str clock) body
      else body in
    match createEvent validate errorsText (db st) uuid now1 now2 eventData with
    | (Ok event, t') => (Res 201 (Obj event), with_db st t')
    | (Err e, t') => (ResError 400 e, with_db st t')
    end).

(** PUT [/:id], with the request body. *)
Definition put_event (now id : string) (updates : obj) : handler :=
  ensureInitialized (fun st =>
    match updateEvent validate errorsText (db st) now id updates with
    | (Ok event, t') => (Res 200 (Obj event), with_db st t')
    | (Err e, t') =>
        (ResError (if includes "not found" (message e) then 404 else 400) e,
         with_db st t')
    end).

(** POST [/resolve], with the request body. *)
Definition post_resolve (body : obj) : handler :=
  ensureInitialized (fun st =>
    match get "uri" body with
    | Some uri =>
        if truthy uri then
          match resolveURI resolver_resolveURI resolver_parseURI (db st) uri with
          | Ok event => (Res 200 (Obj event), st)
          | Err e => (ResError 404 e, st)
          end
        else (Res 400 (Obj [("error", Str "URI is required")]), st)
    | None => (Res 400 (Obj [("error", Str "URI is required")]), st)
    end).

End Routes.

End Events.

(* ===================================================================== *)
(** * Sample data *)
(* ===================================================================== *)

Module Samples.
Import Json Sqlite EventManager Plugins.

Definition validate : obj -> bool := Schema.validate Schema.iso_date_time.
Definition errorsText : obj -> string := Schema.errorsText Schema.iso_date_time.

(** An event as a client posts it. *)
Definition gym : obj :=
  [("timestamp", Str "2024-01-01T00:00:00Z");
   ("source", Str "test");
   ("type", Str "x.y");
   ("title", Str "t");
   ("metadata", Obj [("reps", Num 12)]);
   ("linked_uris", Arr [Str "life://test/x.y/1"]);
   ("tags", Arr [Str "gymnastics"]);
   ("mood", Num 7);
   ("location", Obj [("city", Str "Oslo")]);
   ("duration", Num 3600)].

(** The same event without its title. *)
Definition untitled : obj :=
  [("timestamp", Str "2024-01-01T00:00:00Z");
   ("source", Str "test");
   ("type", Str "x.y")].

(** The table after [gym] was created in an empty store. *)
Definition one_event : table :=
  snd (createEvent validate errorsText [] "e1"
         "2024-01-02T10:00:00.000Z" "2024-01-02T10:00:00.001Z" gym).




(** The query for the tag [gym]. *)
Definition tagged_gym : options :=
  {| o_source := None; o_type := None; o_startDate := None; o_endDate := None;
     o_tags := Some ["gym"]; o_limit := None; o_offset := None;
     o_orderBy := None |}.

(** A plugin root with one plugin, [sync], scheduled every hour and with no
    [enabled] key in its descriptor. *)
Definition hourly : obj :=
  [("name", Str "sync"); ("schedule", Str "0 * * * *")].

Definition sync_files : gmap string file :=
  {[ "plugin.json" := JsonDoc hourly ]}.

Definition plugin_root : gmap string node := {[ "sync" := Dir sync_files ]}.

(** A stand-in for the cron library's check: five or six fields. *)
Fixpoint spaces (s : string) : nat :=
  match s with
  | EmptyString => 0
  | String c s' => (if Ascii.eqb c " " then 1 else 0) + spaces s'
  end.

Definition cron_fields (e : string) : bool :=
  Nat.eqb (spaces e) 4 || Nat.eqb (spaces e) 5.

(** The server after [sync] was enabled, and after its schedule was then
    removed by a configuration update. *)
Definition sync_enabled : state :=
  snd (enable cron_fields "sync" (initial plugin_root)).

Definition sync_unscheduled : state :=
  snd (updateConfig cron_fields "sync" [("schedule", Str "")] sync_enabled).

(** That event as [getEvent] returns it. *)
Definition gym_stored : obj :=
  match getEvent one_event "e1" with
  | Ok (Some e) => e
  | _ => []
  end.

(** A second event, an hour later and from another source, and the table
    with both. *)
Definition walk : obj :=
  [("timestamp", Str "2024-01-01T01:00:00Z");
   ("source", Str "phone");
   ("type", Str "x.z");
   ("title", Str "Evening Walk")].

Definition two_events : table :=
  snd (createEvent validate errorsText one_event "e2"
         "2024-01-02T11:00:00.000Z" "2024-01-02T11:00:00.001Z" walk).

Definition walk_stored : obj :=
  match getEvent two_events "e2" with
  | Ok (Some e) => e
  | _ => []
  end.

(** The row the store keeps for it. *)
Definition walk_row : row :=
  {| c_id := SText "e2";
     c_timestamp := SText "2024-01-01T01:00:00Z";
     c_source := SText "phone";
     c_type := SText "x.z";
     c_title := SText "Evening Walk";
     c_metadata := SText "{}";
     c_linked_uris := SText "[]";
     c_tags := SText "[]";
     c_mood := SNull;
     c_location := SNull;
     c_duration := SNull;
     c_created_at := SText "2024-01-02T11:00:00.000Z";
     c_updated_at := SText "2024-01-02T11:00:00.001Z" |}.

(** A plugin root whose one plugin has a schedule that is no cron
    expression, and one whose plugin has a log of three lines, the second
    of them blank. *)
Definition whenever : obj :=
  [("name", Str "sync"); ("schedule", Str "whenever")].

Definition whenever_files : gmap string file :=
  {[ "plugin.json" := JsonDoc whenever ]}.

Definition whenever_root : gmap string node :=
  {[ "sync" := Dir whenever_files ]}.

Definition logged_files : gmap string file :=
  <[ "plugin.log" :=
       Text ("started" +:+ String "010" ("  " +:+ String "010" "done")) ]>
    sync_files.

Definition logged_root : gmap string node := {[ "sync" := Dir logged_files ]}.

(** The root of [sync] with one more directory, [draft], that has no
    descriptor yet. *)
Definition no_files : gmap string file := ∅.

Definition draft_root : gmap string node := <[ "draft" := Dir no_files ]> plugin_root.

(** The plugin root a server finds when it starts again after [sync] was
    enabled and [draft] was added. *)
Definition enabled_files : gmap string file :=
  {[ "plugin.json" := JsonDoc (set "enabled" (Bool true) hourly) ]}.

Definition enabled_root : gmap string node :=
  <[ "draft" := Dir no_files ]> {[ "sync" := Dir enabled_files ]}.

(** The walk with a note that is no field of the data model, and the walk
    with the number 0 for its location. *)
Definition noted : obj := walk ++ [("note", Str "bring water")].

Definition nowhere : obj := walk ++ [("location", Num 0)].

(** A body posted without a timestamp. *)
Definition undated : obj :=
  [("source", Str "phone"); ("type", Str "x.z"); ("title", Str "Lunch")].

(** The query without a filter. *)
Definition everything : options :=
  {| o_source := None; o_type := None; o_startDate := None; o_endDate := None;
     o_tags := None; o_limit := None; o_offset := None; o_orderBy := None |}.

End Samples.

(* ===================================================================== *)
(** * Facts about JSON text *)
(* ===================================================================== *)

Module JsonFacts.
Import Json.

Lemma append_assoc (a b c : string) : (a +:+ b) +:+ c = a +:+ (b +:+ c).
Proof. induction a as [|x a IH]; simpl; [reflexivity | now rewrite IH]. Qed.

Lemma length_append (a b : string) :
  String.length (a +:+ b) = (String.length a + String.length b)%nat.
Proof. induction a as [|x a IH]; simpl; [reflexivity | now rewrite IH]. Qed.

Lemma stringify_arr (x : value) (l : list value) :
  stringify (Arr (x :: l)) =
  String "[" (stringify x +:+ (join_tail stringify l +:+ "]")).
Proof. simpl. rewrite append_assoc. reflexivity. Qed.

Lemma stringify_obj (k : string) (x : value) (o : list (string * value)) :
  stringify (Obj ((k, x) :: o)) =
  String "{" (quote k +:+
              String ":" (stringify x +:+ (join_tail member_text o +:+ "}"))).
Proof.
  change (stringify (Obj ((k, x) :: o)))
    with (String "{" (((quote k +:+ String ":" (stringify x)) +:+
                       join_tail member_text o) +:+ "}")).
  rewrite !append_assoc. simpl. rewrite !append_assoc. reflexivity.
Qed.

Lemma append_nil_r (a : string) : a +:+ "" = a.
Proof. induction a as [|x a IH]; simpl; [reflexivity | now rewrite IH]. Qed.

(** *** Numbers *)

Lemma read_digits_rest (rest : string) :
  num_follow rest = true -> read_digits rest = (Decimal.Nil, rest).
Proof.
  destruct rest as [|c r]; [reflexivity|].
  unfold num_follow. simpl. destruct (digit_of c); [discriminate | reflexivity].
Qed.

Lemma read_digits_roundtrip (u : Decimal.uint) (rest : string) :
  num_follow rest = true ->
  read_digits (digits_of_uint u +:+ rest) = (u, rest).
Proof.
  intros Hrest.
  induction u as [|u IH|u IH|u IH|u IH|u IH|u IH|u IH|u IH|u IH|u IH]; simpl;
    try (rewrite IH; reflexivity).
  now apply read_digits_rest.
Qed.

Lemma digits_head (u : Decimal.uint) (rest : string) :
  u <> Decimal.Nil ->
  exists c r, digits_of_uint u +:+ rest = String c r /\ num_start c = true /\
              Ascii.eqb c "-" = false.
Proof.
  intros Hnil. destruct u; [congruence | ..]; simpl; eauto.
Qed.

Lemma parse_number_digits (u : Decimal.uint) (rest : string) :
  u <> Decimal.Nil -> leading_zero u = false -> num_follow rest = true ->
  parse_number (digits_of_uint u +:+ rest) =
  Some (Num (Z.of_N (N.of_uint u)), rest).
Proof.
  intros Hnil Hlz Hrest. unfold parse_number.
  destruct (digits_head u rest Hnil) as (c & r & Heq & _ & Hc).
  rewrite Heq, Hc, <- Heq, read_digits_roundtrip by assumption.
  rewrite Hlz, Hrest. destruct u; [congruence | reflexivity ..].
Qed.

Lemma parse_number_neg_digits (u : Decimal.uint) (rest : string) :
  u <> Decimal.Nil -> leading_zero u = false -> num_follow rest = true ->
  parse_number (String "-" (digits_of_uint u +:+ rest)) =
  Some (Num (- Z.of_N (N.of_uint u)), rest).
Proof.
  intros Hnil Hlz Hrest. unfold parse_number.
  change (Ascii.eqb "-" "-") with true. cbv iota.
  rewrite read_digits_roundtrip by assumption.
  rewrite Hlz, Hrest. destruct u; [congruence | reflexivity ..].
Qed.

Lemma nzhead_no_zero (d : Decimal.uint) :
  match Decimal.nzhead d with Decimal.D0 _ => False | _ => True end.
Proof. induction d; simpl; auto. Qed.

Lemma to_uint_leading_zero (p : positive) : leading_zero (Pos.to_uint p) = false.
Proof.
  assert (H : Pos.to_uint p = Decimal.unorm (Pos.to_uint p)).
  { rewrite <- (DecimalPos.Unsigned.to_of (Pos.to_uint p)).
    rewrite DecimalPos.Unsigned.of_to. reflexivity. }
  rewrite H. unfold Decimal.unorm.
  pose proof (nzhead_no_zero (Pos.to_uint p)) as Hz.
  destruct (Decimal.nzhead (Pos.to_uint p)); try reflexivity. contradiction.
Qed.

Lemma parse_number_roundtrip (n : Z) (rest : string) :
  num_follow rest = true ->
  parse_number (string_of_Z n +:+ rest) = Some (Num n, rest).
Proof.
  intros Hrest. destruct n as [|p|p]; simpl string_of_Z.
  - apply (parse_number_digits (Decimal.D0 Decimal.Nil)); [discriminate | reflexivity | assumption].
  - rewrite parse_number_digits;
      [ | apply DecimalPos.Unsigned.to_uint_nonnil
        | apply to_uint_leading_zero | assumption ].
    change (N.of_uint (Pos.to_uint p)) with (Pos.of_uint (Pos.to_uint p)).
    rewrite DecimalPos.Unsigned.of_to. reflexivity.
  - simpl String.append. rewrite parse_number_neg_digits;
      [ | apply DecimalPos.Unsigned.to_uint_nonnil
        | apply to_uint_leading_zero | assumption ].
    change (N.of_uint (Pos.to_uint p)) with (Pos.of_uint (Pos.to_uint p)).
    rewrite DecimalPos.Unsigned.of_to. reflexivity.
Qed.

Lemma string_of_Z_head (n : Z) (rest : string) :
  exists c r, string_of_Z n +:+ rest = String c r /\ num_start c = true.
Proof.
  destruct n as [|p|p]; simpl string_of_Z.
  - simpl. eauto.
  - destruct (digits_head (Pos.to_uint p) rest) as (c & r & H & Hc & _);
      [apply DecimalPos.Unsigned.to_uint_nonnil | eauto].
  - simpl. eauto.
Qed.

Lemma parse_value_number (f : nat) (c : ascii) (r : string) :
  num_start c = true ->
  parse_value (S f) (String c r) = parse_number (String c r).
Proof.
  intros H.
  destruct c as [[] [] [] [] [] [] [] []]; try discriminate H; reflexivity.
Qed.

(** *** Strings *)

Lemma parse_string_char (c : ascii) (t str rest : string) :
  parse_string t = Some (str, rest) ->
  parse_string (escape_char c +:+ t) = Some (String c str, rest).
Proof.
  intros H.
  destruct c as [[] [] [] [] [] [] [] []]; simpl; rewrite H; reflexivity.
Qed.

Lemma parse_string_roundtrip (s rest : string) :
  parse_string (escape s +:+ String dquote rest) = Some (s, rest).
Proof.
  induction s as [|c s IH]; [reflexivity|].
  simpl escape. rewrite append_assoc. now apply parse_string_char.
Qed.

(** *** Objects without a repeated key *)

Lemma existsb_eqb_In (k : string) (ks : list string) :
  existsb (String.eqb k) ks = true <-> In k ks.
Proof.
  rewrite existsb_exists. split.
  - intros (x & Hx & He). apply String.eqb_eq in He. now subst.
  - intros H. exists k. split; [assumption | apply String.eqb_refl].
Qed.

Lemma keys_distinct_NoDup (ks : list string) :
  keys_distinct ks = true <-> List.NoDup ks.
Proof.
  induction ks as [|k ks IH]; simpl.
  - split; [constructor | reflexivity].
  - rewrite andb_true_iff, negb_true_iff, IH. split.
    + intros [Hk Hd]. constructor; [|assumption].
      intros Hin. apply existsb_eqb_In in Hin. congruence.
    + intros Hnd. inversion Hnd as [|? ? Hk Hd]; subst. split; [|assumption].
      destruct (existsb (String.eqb k) ks) eqn:E; [|reflexivity].
      apply existsb_eqb_In in E. contradiction.
Qed.

Lemma set_fresh (k : string) (v : value) (o : obj) :
  ~ In k (map fst o) -> set k v o = o ++ [(k, v)].
Proof.
  induction o as [|[k' v'] o IH]; simpl; intros Hk; [reflexivity|].
  destruct (String.eqb k k') eqn:E.
  - apply String.eqb_eq in E. subst. tauto.
  - rewrite IH by tauto. reflexivity.
Qed.

Lemma assign_fresh (o acc : obj) :
  List.NoDup (map fst acc ++ map fst o) -> assign acc o = acc ++ o.
Proof.
  revert acc. induction o as [|[k v] o IH]; intros acc Hnd; simpl.
  - now rewrite app_nil_r.
  - unfold assign in *. simpl.
    assert (Hk : ~ In k (map fst acc)).
    { intros Hin. apply NoDup_remove_2 in Hnd. apply Hnd.
      apply in_or_app. now left. }
    rewrite set_fresh by assumption. rewrite IH.
    + rewrite <- app_assoc. reflexivity.
    + rewrite map_app. simpl. rewrite <- app_assoc. exact Hnd.
Qed.

Lemma of_members_distinct (o : obj) :
  keys_distinct (map fst o) = true -> of_members o = o.
Proof.
  intros H. apply keys_distinct_NoDup in H. unfold of_members.
  now rewrite assign_fresh.
Qed.

(** *** Values *)

Lemma num_start_starts_value (c : ascii) (r : string) :
  num_start c = true -> starts_value (String c r) = true.
Proof.
  intros H. destruct c as [[] [] [] [] [] [] [] []]; try discriminate H; reflexivity.
Qed.

Lemma stringify_starts (v : value) (r : string) :
  starts_value (stringify v +:+ r) = true.
Proof.
  destruct v as [|[]|n|s|l|o]; try reflexivity.
  simpl stringify.
  destruct (string_of_Z_head n r) as (c & r' & -> & Hc).
  now apply num_start_starts_value.
Qed.

Lemma parse_value_arr (f : nat) (R : string) :
  starts_value R = true ->
  parse_value (S f) (String "[" R) =
  match parse_value f R with
  | Some (v, r1) =>
      match parse_elems f r1 with
      | Some (vs, r2) => Some (Arr (v :: vs), r2)
      | None => None
      end
  | None => None
  end.
Proof.
  intros H. destruct R as [|c r]; [discriminate|].
  change (parse_value (S f) (String "[" (String c r)))
    with (match skip_ws (String c r) with
          | String c' r' =>
              if Ascii.eqb c' "]" then Some (Arr [], r')
              else
                match parse_value f (String c r) with
                | Some (v, r1) =>
                    match parse_elems f r1 with
                    | Some (vs, r2) => Some (Arr (v :: vs), r2)
                    | None => None
                    end
                | None => None
                end
          | EmptyString => None
          end).
  simpl in H. simpl skip_ws.
  destruct (is_ws c); [discriminate|].
  destruct (Ascii.eqb c "]"); [discriminate | reflexivity].
Qed.

Lemma parse_value_obj (f : nat) (R : string) :
  starts_value R = true ->
  parse_value (S f) (String "{" R) =
  match parse_member f R with
  | Some (kv, r1) =>
      match parse_members f r1 with
      | Some (ms, r2) => Some (Obj (of_members (kv :: ms)), r2)
      | None => None
      end
  | None => None
  end.
Proof.
  intros H. destruct R as [|c r]; [discriminate|].
  change (parse_value (S f) (String "{" (String c r)))
    with (match skip_ws (String c r) with
          | String c' r' =>
              if Ascii.eqb c' "}" then Some (Obj [], r')
              else
                match parse_member f (String c r) with
                | Some (kv, r1) =>
                    match parse_members f r1 with
                    | Some (ms, r2) => Some (Obj (of_members (kv :: ms)), r2)
                    | None => None
                    end
                | None => None
                end
          | EmptyString => None
          end).
  simpl in H. simpl skip_ws.
  destruct (is_ws c); [discriminate|].
  destruct (Ascii.eqb c "]"); [discriminate|].
  destruct (Ascii.eqb c "}"); [discriminate | reflexivity].
Qed.

Lemma join_tail_cons {A : Type} (f : A -> string) (y : A) (l : list A) :
  join_tail f (y :: l) = String "," (f y +:+ join_tail f l).
Proof. reflexivity. Qed.

Lemma num_follow_tail {A : Type} (f : A -> string) (l : list A) (c : ascii)
    (rest : string) :
  num_follow (String c rest) = true ->
  num_follow (join_tail f l +:+ String c rest) = true.
Proof. intros H. destruct l; [exact H | reflexivity]. Qed.

#[local] Arguments member_text : simpl never.
#[local] Arguments quote : simpl never.

Lemma parse_elems_roundtrip (l : list value) :
  Forall roundtrips l -> forallb wf l = true ->
  forall (fuel : nat) (rest : string),
    (String.length (join_tail stringify l) + 1 <= fuel)%nat ->
    parse_elems fuel (join_tail stringify l +:+ String "]" rest) = Some (l, rest).
Proof.
  induction 1 as [|y l Hy Hl IH]; intros Hwf fuel rest Hfuel.
  - destruct fuel; [simpl in Hfuel; lia | reflexivity].
  - simpl in Hwf. apply andb_true_iff in Hwf as [Hwy Hwl].
    simpl join_tail in *. simpl String.length in Hfuel.
    rewrite length_append in Hfuel.
    destruct fuel as [|f]; [lia|].
    simpl String.append. rewrite append_assoc.
    change (parse_elems (S f) (String "," ?X))
      with (match parse_value f X with
            | Some (v, r1) =>
                match parse_elems f r1 with
                | Some (vs, r2) => Some (v :: vs, r2)
                | None => None
                end
            | None => None
            end).
    rewrite (Hy Hwy) by (try lia; apply num_follow_tail; reflexivity).
    rewrite IH by (try assumption; lia). reflexivity.
Qed.

Lemma parse_member_roundtrip (k : string) (x : value) :
  roundtrips x -> wf x = true ->
  forall (fuel : nat) (rest : string),
    (String.length (stringify x) + 1 <= fuel)%nat ->
    num_follow rest = true ->
    parse_member fuel (quote k +:+ String ":" (stringify x +:+ rest)) =
    Some ((k, x), rest).
Proof.
  intros Hx Hwf fuel rest Hfuel Hrest.
  destruct fuel as [|f]; [lia|].
  unfold quote. simpl String.append. rewrite append_assoc. simpl String.append.
  change (parse_member (S f) (String dquote ?Y))
    with (match parse_string Y with
          | Some (k, r1) =>
              match skip_ws r1 with
              | String c' r2 =>
                  if Ascii.eqb c' ":" then
                    match parse_value f r2 with
                    | Some (v, r3) => Some ((k, v), r3)
                    | None => None
                    end
                  else None
              | EmptyString => None
              end
          | None => None
          end).
  rewrite parse_string_roundtrip. simpl skip_ws. cbv iota.
  change (Ascii.eqb ":" ":") with true. cbv iota.
  rewrite (Hx Hwf) by (try assumption; lia). reflexivity.
Qed.

Lemma length_member_text (kv : string * value) :
  (String.length (stringify (snd kv)) + 3 <= String.length (member_text kv))%nat.
Proof.
  unfold member_text, quote. simpl. rewrite !length_append. simpl.
  rewrite ?length_append. simpl. lia.
Qed.

Lemma member_text_app (kv : string * value) (rest : string) :
  member_text kv +:+ rest =
  quote (fst kv) +:+ String ":" (stringify (snd kv) +:+ rest).
Proof.
  unfold member_text. rewrite append_assoc. reflexivity.
Qed.

Lemma parse_members_roundtrip (o : list (string * value)) :
  Forall (fun kv => roundtrips (snd kv)) o ->
  forallb (fun kv => wf (snd kv)) o = true ->
  forall (fuel : nat) (rest : string),
    (String.length (join_tail member_text o) + 1 <= fuel)%nat ->
    parse_members fuel (join_tail member_text o +:+ String "}" rest) =
    Some (o, rest).
Proof.
  induction 1 as [|[k y] o Hy Ho IH]; intros Hwf fuel rest Hfuel.
  - destruct fuel; [simpl in Hfuel; lia | reflexivity].
  - simpl in Hwf. apply andb_true_iff in Hwf as [Hwy Hwo].
    pose proof (length_member_text (k, y)) as Hlen.
    rewrite join_tail_cons in *.
    change (String.length (String "," ?X)) with (S (String.length X)) in Hfuel.
    rewrite length_append in Hfuel.
    destruct fuel as [|f]; [lia|].
    change (String "," ?X +:+ ?Y) with (String "," (X +:+ Y)).
    rewrite append_assoc, member_text_app.
    change (parse_members (S f) (String "," ?X))
      with (match parse_member f X with
            | Some (kv, r1) =>
                match parse_members f r1 with
                | Some (ms, r2) => Some (kv :: ms, r2)
                | None => None
                end
            | None => None
            end).
    change (snd (k, y)) with y in *. change (fst (k, y)) with k.
    rewrite (parse_member_roundtrip k y Hy Hwy)
      by (try lia; apply num_follow_tail; reflexivity).
    rewrite IH by (try assumption; lia). reflexivity.
Qed.

Lemma parse_value_roundtrip (v : value) : roundtrips v.
Proof.
  induction v as [|b|n|s|l IH|o IH] using value_induction;
    intros Hwf fuel rest Hfuel Hrest.
  - destruct fuel; [simpl in Hfuel; lia | reflexivity].
  - destruct fuel; [destruct b; simpl in Hfuel; lia | destruct b; reflexivity].
  - simpl stringify in *.
    destruct (string_of_Z_head n rest) as (c & r & Heq & Hc).
    destruct fuel.
    + destruct (string_of_Z_head n "") as (c' & r' & Heq' & _).
      rewrite append_nil_r in Heq'. rewrite Heq' in Hfuel. simpl in Hfuel. lia.
    + rewrite Heq, parse_value_number, <- Heq by assumption.
      now apply parse_number_roundtrip.
  - destruct fuel; [simpl in Hfuel; lia|].
    simpl stringify. unfold quote. simpl String.append. rewrite append_assoc.
    simpl String.append.
    change (parse_value (S fuel) (String dquote ?Y))
      with (match parse_string Y with
            | Some (str, r') => Some (Str str, r')
            | None => None
            end).
    now rewrite parse_string_roundtrip.
  - destruct l as [|x l].
    + destruct fuel; [simpl in Hfuel; lia | reflexivity].
    + rewrite stringify_arr in *. simpl String.length in Hfuel.
      rewrite !length_append in Hfuel. simpl String.length in Hfuel.
      destruct fuel as [|f]; [lia|].
      simpl String.append. rewrite !append_assoc. simpl String.append.
      rewrite parse_value_arr by apply stringify_starts.
      simpl in Hwf. apply andb_true_iff in Hwf as [Hwx Hwl].
      inversion IH as [|? ? Hx Hl]; subst.
      rewrite (Hx Hwx) by (try lia; apply num_follow_tail; reflexivity).
      rewrite parse_elems_roundtrip by (try assumption; lia). reflexivity.
  - destruct o as [|[k x] o].
    + destruct fuel; [simpl in Hfuel; lia | reflexivity].
    + rewrite stringify_obj in *. simpl String.length in Hfuel.
      unfold quote in Hfuel. simpl String.length in Hfuel.
      rewrite !length_append in Hfuel. simpl String.length in Hfuel.
      rewrite !length_append in Hfuel. simpl String.length in Hfuel.
      destruct fuel as [|f]; [lia|].
      assert (Hw := Hwf). simpl in Hw.
      apply andb_true_iff in Hw as [Hkeys Hw].
      apply andb_true_iff in Hw as [Hwx Hwo].
      inversion IH as [|? ? Hx Ho]; subst. simpl in Hx.
      change (String "{" ?X +:+ rest) with (String "{" (X +:+ rest)).
      rewrite parse_value_obj by reflexivity.
      rewrite append_assoc.
      change (String ":" ?X +:+ rest) with (String ":" (X +:+ rest)).
      rewrite !append_assoc.
      change ("}" +:+ rest) with (String "}" rest).
      rewrite (parse_member_roundtrip k x Hx Hwx)
        by (try lia; apply num_follow_tail; reflexivity).
      rewrite parse_members_roundtrip by (try assumption; lia).
      rewrite of_members_distinct; [reflexivity|].
      simpl. exact Hkeys.
Qed.

Lemma parse_stringify (v : value) : wf v = true -> parse (stringify v) = Some v.
Proof.
  intros Hwf. unfold parse.
  pose proof (parse_value_roundtrip v Hwf (S (String.length (stringify v))) ""
                ltac:(lia) eq_refl) as H.
  rewrite append_nil_r in H. rewrite H. reflexivity.
Qed.

(** *** Reading and writing properties *)

Lemma get_set_same (k : string) (v : value) (o : obj) :
  get k (set k v o) = Some v.
Proof.
  induction o as [|[k' v'] o IH]; simpl.
  - now rewrite String.eqb_refl.
  - destruct (String.eqb k k') eqn:E; simpl; rewrite E; [reflexivity | exact IH].
Qed.

Lemma get_set_other (k k' : string) (v : value) (o : obj) :
  k <> k' -> get k (set k' v o) = get k o.
Proof.
  intros Hne. induction o as [|[k2 v2] o IH]; simpl.
  - apply String.eqb_neq in Hne. now rewrite Hne.
  - destruct (String.eqb k' k2) eqn:E; simpl.
    + apply String.eqb_eq in E. subst k2.
      apply String.eqb_neq in Hne. now rewrite Hne.
    + now rewrite IH.
Qed.

Lemma get_None_keys (k : string) (o : obj) :
  get k o = None <-> ~ In k (map fst o).
Proof.
  induction o as [|[k' v'] o IH]; simpl; [tauto|].
  destruct (String.eqb k k') eqn:E.
  - apply String.eqb_eq in E. subst. split; [discriminate | tauto].
  - apply String.eqb_neq in E. rewrite IH. split; [|tauto].
    intros H [H'|H']; [congruence | tauto].
Qed.

Lemma keys_set (k : string) (v : value) (o : obj) :
  map fst (set k v o) =
  if existsb (String.eqb k) (map fst o) then map fst o else map fst o ++ [k].
Proof.
  induction o as [|[k' v'] o IH]; simpl; [reflexivity|].
  destruct (String.eqb k k') eqn:E; simpl; [reflexivity|].
  rewrite IH. now destruct (existsb (String.eqb k) (map fst o)).
Qed.

Lemma distinct_set (k : string) (v : value) (o : obj) :
  keys_distinct (map fst o) = true -> keys_distinct (map fst (set k v o)) = true.
Proof.
  rewrite keys_set. destruct (existsb (String.eqb k) (map fst o)) eqn:E;
    [tauto|].
  rewrite !keys_distinct_NoDup. intros H.
  apply List.NoDup_app; [assumption | constructor; [intros [] | constructor] |].
  intros x Hx [<-|[]]. apply existsb_eqb_In in Hx. congruence.
Qed.

Lemma get_assign_absent (k : string) (a b : obj) :
  get k b = None -> get k (assign a b) = get k a.
Proof.
  revert a. unfold assign.
  induction b as [|[k' v'] b IH]; intros a Hk; simpl; [reflexivity|].
  simpl in Hk. destruct (String.eqb k k') eqn:E; [discriminate|].
  rewrite IH by assumption. apply get_set_other. now apply String.eqb_neq.
Qed.

Lemma get_assign_present (k : string) (v : value) (a b : obj) :
  keys_distinct (map fst b) = true -> get k b = Some v ->
  get k (assign a b) = Some v.
Proof.
  revert a. unfold assign.
  induction b as [|[k' v'] b IH]; intros a Hd Hk; simpl in *; [discriminate|].
  apply andb_true_iff in Hd as [Hfresh Hd].
  destruct (String.eqb k k') eqn:E.
  - apply String.eqb_eq in E. subst k'. injection Hk as ->.
    assert (Hnone : get k b = None).
    { apply get_None_keys. intros Hin. apply existsb_eqb_In in Hin.
      rewrite Hin in Hfresh. discriminate. }
    pose proof (get_assign_absent k (set k v a) b Hnone) as H.
    unfold assign in H. rewrite H. apply get_set_same.
  - now apply IH.
Qed.

Lemma distinct_assign (a b : obj) :
  keys_distinct (map fst a) = true ->
  keys_distinct (map fst (assign a b)) = true.
Proof.
  revert a. unfold assign.
  induction b as [|[k' v'] b IH]; intros a Ha; simpl; [assumption|].
  apply IH. now apply distinct_set.
Qed.

Lemma spread_distinct (o : obj) :
  keys_distinct (map fst o) = true -> spread o = o.
Proof. apply of_members_distinct. Qed.

Lemma wf_get (k : string) (v : value) (o : obj) :
  wf (Obj o) = true -> get k o = Some v -> wf v = true.
Proof.
  simpl. rewrite andb_true_iff. intros [_ H].
  induction o as [|[k' v'] o IH]; simpl in *; [discriminate|].
  apply andb_true_iff in H as [Hv Ho].
  destruct (String.eqb k k'); [intros [= <-]; assumption | now apply IH].
Qed.

End JsonFacts.

(* ===================================================================== *)
(** * Facts about the event store *)
(* ===================================================================== *)

Module StoreFacts.
Import Json Sqlite EventManager JsonFacts.

(** ** Serialized columns *)

Lemma stringify_nonempty (v : value) : String.eqb (stringify v) "" = false.
Proof.
  pose proof (stringify_starts v "") as H. rewrite append_nil_r in H.
  destruct (stringify v); [discriminate | reflexivity].
Qed.

Lemma json_text_inv (x : sqlval) :
  json_text x = true ->
  exists v, x = SText (stringify v) /\ parse (stringify v) = Some v
            /\ wf v = true /\ truthy v = true.
Proof.
  destruct x as [| |s]; simpl; try discriminate.
  destruct (parse s) as [v|] eqn:E; [|discriminate].
  rewrite !andb_true_iff. intros [[Hw Ht] He].
  apply String.eqb_eq in He. exists v. subst s. auto.
Qed.

Lemma json_text_stringify (v : value) :
  wf v = true -> truthy v = true -> json_text (SText (stringify v)) = true.
Proof.
  intros Hw Ht. simpl. rewrite parse_stringify by assumption.
  now rewrite Hw, Ht, String.eqb_refl.
Qed.

Lemma JSON_parse_text (v d : value) :
  parse (stringify v) = Some v ->
  JSON_parse (or_else (Some (Str (stringify v))) d) = Ok v.
Proof.
  intros H. unfold or_else, JSON_parse. simpl truthy.
  rewrite stringify_nonempty. simpl. now rewrite H.
Qed.

Lemma parse_fields_row (r : row) :
  row_ok r = true ->
  exists m u g l,
    parse_fields (row_object r) = Ok (decoded r m u g l)
    /\ (c_metadata r = SText (stringify m) /\ truthy m = true /\ wf m = true)
    /\ (c_linked_uris r = SText (stringify u) /\ truthy u = true /\ wf u = true)
    /\ (c_tags r = SText (stringify g) /\ truthy g = true /\ wf g = true)
    /\ ((c_location r = SNull /\ l = Null)
        \/ (c_location r = SText (stringify l) /\ truthy l = true /\ wf l = true)).
Proof.
  unfold row_ok. rewrite !andb_true_iff. intros [[[Hm Hu] Hg] Hl].
  apply json_text_inv in Hm as (m & Hm & Pm & Wm & Tm).
  apply json_text_inv in Hu as (u & Hu & Pu & Wu & Tu).
  apply json_text_inv in Hg as (g & Hg & Pg & Wg & Tg).
  assert (Hloc : exists l,
             (if truthy_opt (get "location" (row_object r))
              then JSON_parse_field "location" (row_object r) else Ok Null) = Ok l
             /\ ((c_location r = SNull /\ l = Null)
                 \/ (c_location r = SText (stringify l) /\ truthy l = true
                     /\ wf l = true))).
  { change (get "location" (row_object r)) with (Some (to_js (c_location r))).
    unfold JSON_parse_field.
    change (get "location" (row_object r)) with (Some (to_js (c_location r))).
    apply orb_true_iff in Hl as [Hl|Hl].
    - destruct (c_location r); try discriminate. exists Null. auto.
    - apply json_text_inv in Hl as (l & Hl & Pl & Wl & Tl). exists l.
      rewrite Hl. simpl. rewrite stringify_nonempty. simpl.
      unfold JSON_parse. simpl. rewrite Pl. auto. }
  destruct Hloc as (l & El & Hl').
  exists m, u, g, l. unfold parse_fields.
  change (get "metadata" (row_object r)) with (Some (to_js (c_metadata r))).
  change (get "linked_uris" (row_object r)) with (Some (to_js (c_linked_uris r))).
  change (get "tags" (row_object r)) with (Some (to_js (c_tags r))).
  rewrite Hm, Hu, Hg. simpl to_js.
  rewrite !JSON_parse_text by assumption. rewrite El.
  repeat split; auto.
Qed.


Lemma get_merge_absent (k : string) (event patch : obj) (now : string) :
  k <> "updated_at" -> get k patch = None ->
  keys_distinct (map fst event) = true ->
  get k (merge event patch now) = get k event.
Proof.
  intros Hk Hp Hd. unfold merge.
  rewrite get_set_other by assumption.
  rewrite get_assign_absent by assumption.
  now rewrite spread_distinct.
Qed.


(** The merged record is the stored event with the patch laid over it:
    a property of the patch wins, any other is the event's. *)
Lemma get_merge (k : string) (event patch : obj) (now : string) :
  keys_distinct (map fst event) = true ->
  keys_distinct (map fst patch) = true ->
  k <> "updated_at" ->
  get k (merge event patch now)
  = match get k patch with Some v => Some v | None => get k event end.
Proof.
  intros He Hp Hk. destruct (get k patch) as [v|] eqn:E.
  - unfold merge. rewrite get_set_other by assumption.
    now apply get_assign_present.
  - now apply get_merge_absent.
Qed.

Lemma parse_fields_distinct (r e : obj) :
  parse_fields r = Ok e -> keys_distinct (map fst e) = true.
Proof.
  unfold parse_fields.
  destruct (JSON_parse (or_else (get "metadata" r) (Str "{}"))); [|discriminate].
  destruct (JSON_parse (or_else (get "linked_uris" r) (Str "[]"))); [|discriminate].
  destruct (JSON_parse (or_else (get "tags" r) (Str "[]"))); [|discriminate].
  destruct (if truthy_opt (get "location" r)
            then JSON_parse_field "location" r else Ok Null); [|discriminate].
  intros [= <-]. do 4 apply distinct_set. unfold spread.
  now apply distinct_assign.
Qed.

Lemma getEvent_distinct (t : table) (id : string) (e : obj) :
  getEvent t id = Ok (Some e) -> keys_distinct (map fst e) = true.
Proof.
  unfold getEvent. destruct (List.find (has_id (SText id)) t); [|discriminate].
  destruct (parse_fields (row_object r)) eqn:P; [|discriminate].
  intros [= <-]. now apply (parse_fields_distinct _ _ P).
Qed.

Ltac get_set :=
  repeat first
    [ rewrite get_set_same
    | rewrite get_set_other by discriminate ].

Section WithSchema.

Variable validate : obj -> bool.
Variable errorsText : obj -> string.

(** C1.  [updateEvent(id, patch)] for an id that is not stored fails with
    the not-found error and leaves the table as it was; for a stored event
    it is the merged record (the stored event with the patch laid over it:
    a property of the patch wins, any other is the event's) that is
    validated, and when that record fails validation the call fails with
    the validation error and the table is as it was.  Whatever the failure,
    the table is unchanged. *)
Theorem updateEvent_failure_writes_nothing
    (t : table) (now id : string) (patch : obj) :
  (getEvent t id = Ok None ->
   updateEvent validate errorsText t now id patch =
   (Err (Error ("Event not found: " +:+ id)), t))
  /\ (forall event : obj,
        getEvent t id = Ok (Some event) ->
        validate (merge event patch now) = false ->
        updateEvent validate errorsText t now id patch =
        (Err (Error ("Invalid event: " +:+ errorsText (merge event patch now))), t))
  /\ (forall (event : obj) (k : string),
        getEvent t id = Ok (Some event) ->
        keys_distinct (map fst patch) = true -> k <> "updated_at" ->
        get k (merge event patch now)
        = match get k patch with Some v => Some v | None => get k event end)
  /\ (forall (e : exn) (t' : table),
        updateEvent validate errorsText t now id patch = (Err e, t') -> t' = t).
Proof.
  unfold updateEvent. repeat split.
  - intros ->. reflexivity.
  - intros event -> Hv. now rewrite Hv.
  - intros event k Hg Hp Hk. apply get_merge; try assumption.
    now apply (getEvent_distinct t id).
  - intros e t'. destruct (getEvent t id) as [[event|]|e0]; try congruence.
    destruct (validate (merge event patch now)); simpl; [|congruence].
    destruct (update id (serialize (merge event patch now)) t); congruence.
Qed.

(** C3.  [createEvent] of a payload the schema refuses fails with the
    validation error and inserts nothing: the table, and so the total the
    statistics report, is what it was. *)
Theorem createEvent_invalid_writes_nothing
    (t : table) (uuid now1 now2 : string) (eventData : obj) :
  validate eventData = false ->
  createEvent validate errorsText t uuid now1 now2 eventData =
  (Err (Error ("Invalid event: " +:+ errorsText eventData)), t)
  /\ total (snd (createEvent validate errorsText t uuid now1 now2 eventData))
     = total t.
Proof.
  intros Hv. unfold createEvent. rewrite Hv. simpl. split; reflexivity.
Qed.

Lemma serialize_scalar (k : string) (e : obj) :
  keys_distinct (map fst e) = true ->
  k <> "metadata" -> k <> "linked_uris" -> k <> "tags" -> k <> "location" ->
  get k (serialize e) = get k e.
Proof.
  intros Hd H1 H2 H3 H4. unfold serialize.
  rewrite !get_set_other by assumption. now rewrite spread_distinct.
Qed.





Lemma or_else_wf (ov : option value) (d : value) :
  (forall v, ov = Some v -> wf v = true) -> wf d = true ->
  wf (or_else ov d) = true.
Proof.
  intros H Hd. destruct ov as [v|]; simpl; [|assumption].
  destruct (truthy v); [now apply H | assumption].
Qed.

Lemma or_else_is_truthy (ov : option value) (d : value) :
  truthy d = true -> truthy (or_else ov d) = true.
Proof.
  intros Hd. destruct ov as [v|]; simpl; [|assumption].
  destruct (truthy v) eqn:E; assumption.
Qed.

Lemma parse_fields_explicit (r : row) (m u g l : value) :
  c_metadata r = SText (stringify m) -> wf m = true ->
  c_linked_uris r = SText (stringify u) -> wf u = true ->
  c_tags r = SText (stringify g) -> wf g = true ->
  ((c_location r = SNull /\ l = Null)
   \/ (c_location r = SText (stringify l) /\ wf l = true)) ->
  parse_fields (row_object r) = Ok (decoded r m u g l).
Proof.
  intros Hm Wm Hu Wu Hg Wg Hl. unfold parse_fields, JSON_parse_field.
  change (get "metadata" (row_object r)) with (Some (to_js (c_metadata r))).
  change (get "linked_uris" (row_object r)) with (Some (to_js (c_linked_uris r))).
  change (get "tags" (row_object r)) with (Some (to_js (c_tags r))).
  change (get "location" (row_object r)) with (Some (to_js (c_location r))).
  rewrite Hm, Hu, Hg. simpl to_js.
  rewrite !JSON_parse_text by now apply parse_stringify.
  destruct Hl as [[-> ->]|[-> Wl]]; simpl; [reflexivity|].
  rewrite stringify_nonempty. simpl. unfold JSON_parse. simpl.
  now rewrite parse_stringify.
Qed.

Lemma find_app_new {A : Type} (p : A -> bool) (l : list A) (x : A) :
  existsb p l = false -> p x = true -> List.find p (l ++ [x]) = Some x.
Proof.
  intros Hl Hx. induction l as [|y l IH]; simpl in *.
  - now rewrite Hx.
  - apply orb_false_iff in Hl as [Hy Hl]. rewrite Hy. now apply IH.
Qed.

Lemma distinct_stamped (data : obj) (id created updated : value) :
  keys_distinct (map fst (stamped data id created updated)) = true.
Proof.
  unfold stamped, spread. do 3 apply distinct_set. now apply distinct_assign.
Qed.

Lemma get_stamped (k : string) (data : obj) (id created updated : value) :
  keys_distinct (map fst data) = true ->
  k <> "id" -> k <> "created_at" -> k <> "updated_at" ->
  get k (stamped data id created updated) = get k data.
Proof.
  intros Hd H1 H2 H3. unfold stamped.
  rewrite !get_set_other by assumption. now rewrite spread_distinct.
Qed.

Lemma row_of_stamped (data : obj) (id created updated : value) :
  keys_distinct (map fst data) = true ->
  row_of (serialize (stamped data id created updated)) =
  {| c_id := bind (Some id);
     c_timestamp := bind (get "timestamp" data);
     c_source := bind (get "source" data);
     c_type := bind (get "type" data);
     c_title := bind (get "title" data);
     c_metadata := SText (stringify (or_else (get "metadata" data) (Obj [])));
     c_linked_uris := SText (stringify (or_else (get "linked_uris" data) (Arr [])));
     c_tags := SText (stringify (or_else (get "tags" data) (Arr [])));
     c_mood := bind (get "mood" data);
     c_location := location_text (or_else (get "location" data) Null);
     c_duration := bind (get "duration" data);
     c_created_at := bind (Some created);
     c_updated_at := bind (Some updated) |}.
Proof.
  intros Hd. pose proof (distinct_stamped data id created updated) as Hs.
  unfold row_of.
  rewrite (serialize_scalar "id"), (serialize_scalar "timestamp"),
    (serialize_scalar "source"), (serialize_scalar "type"),
    (serialize_scalar "title"), (serialize_scalar "mood"),
    (serialize_scalar "duration"), (serialize_scalar "created_at"),
    (serialize_scalar "updated_at") by (exact Hs || discriminate).
  unfold serialize. get_set.
  rewrite (get_stamped "timestamp"), (get_stamped "source"),
    (get_stamped "type"), (get_stamped "title"), (get_stamped "metadata"),
    (get_stamped "linked_uris"), (get_stamped "tags"), (get_stamped "mood"),
    (get_stamped "location"), (get_stamped "duration")
    by (exact Hd || discriminate).
  unfold stamped. get_set.
  f_equal. unfold location_text, or_else.
  destruct (get "location" data) as [l|]; [|reflexivity].
  destruct (truthy l) eqn:E; simpl; [now rewrite E | reflexivity].
Qed.

Lemma serialize_compound (e : obj) :
  get "metadata" (serialize e)
  = Some (Str (stringify (or_else (get "metadata" e) (Obj []))))
  /\ get "linked_uris" (serialize e)
     = Some (Str (stringify (or_else (get "linked_uris" e) (Arr []))))
  /\ get "tags" (serialize e)
     = Some (Str (stringify (or_else (get "tags" e) (Arr []))))
  /\ get "location" (serialize e)
     = Some (match get "location" e with
             | Some l => if truthy l then Str (stringify l) else Null
             | None => Null
             end).
Proof. unfold serialize. repeat split; get_set; reflexivity. Qed.

Lemma decoded_explicit (r : row) (m u g l : value) :
  decoded r m u g l =
  [("id", to_js (c_id r)); ("timestamp", to_js (c_timestamp r));
   ("source", to_js (c_source r)); ("type", to_js (c_type r));
   ("title", to_js (c_title r)); ("metadata", m); ("linked_uris", u);
   ("tags", g); ("mood", to_js (c_mood r)); ("location", l);
   ("duration", to_js (c_duration r)); ("created_at", to_js (c_created_at r));
   ("updated_at", to_js (c_updated_at r))].
Proof. reflexivity. Qed.

Lemma to_js_bind_string (ov : option value) :
  Schema.is_string ov = true -> to_js (bind ov) = default Null ov.
Proof. destruct ov as [[]|]; try discriminate; reflexivity. Qed.

Lemma to_js_bind_number (ov : option value) :
  Schema.optional Schema.is_number ov = true -> to_js (bind ov) = default Null ov.
Proof. destruct ov as [[]|]; try discriminate; reflexivity. Qed.

Lemma bind_string_not_null (ov : option value) :
  Schema.is_string ov = true -> is_null (bind ov) = false.
Proof. destruct ov as [[]|]; try discriminate; reflexivity. Qed.

Lemma JSON_parse_stringify (v : value) :
  wf v = true -> JSON_parse (Str (stringify v)) = Ok v.
Proof. intros H. unfold JSON_parse. simpl. now rewrite parse_stringify. Qed.

(** C4.  For a payload the schema accepts, whose fields have the types of
    the data model and whose id is not taken, [createEvent] succeeds and
    [getEvent] on the id it returns gives the stored record, which is the
    thirteen columns of the table: every data field the payload supplies
    comes back equal, one it leaves out comes back as its default, under
    the assigned id and timestamps.  [metadata], [linked_uris] and [tags]
    are stored as the text [JSON.stringify] writes and come back, from
    [createEvent] and from [getEvent] alike, as the structured values that
    text parses to: parsing what was serialized gives the value back.  A
    property of the payload that is no column of the table is in what
    [createEvent] returns and is not in what [getEvent] returns. *)
Theorem create_then_get
    (t : table) (uuid now1 now2 : string) (data : obj) (i created : string) :
  validate data = true ->
  wf (Obj data) = true ->
  typed data = true ->
  or_else (get "id" data) (Str uuid) = Str i ->
  or_else (get "created_at" data) (Str now1) = Str created ->
  existsb (has_id (SText i)) t = false ->
  let view := stored_view data (Str i) (Str created) (Str now2) in
  exists (ev : obj) (t' : table),
    createEvent validate errorsText t uuid now1 now2 data = (Ok ev, t')
    /\ get "id" ev = Some (Str i)
    /\ getEvent t' i = Ok (Some view)
    /\ (forall (c : column) (v : value),
          In c data_columns -> get (column_name c) data = Some v ->
          get (column_name c) view = Some v)
    /\ (forall k : string,
          In k ["metadata"; "linked_uris"; "tags"] ->
          exists v : value,
            get k view = Some v /\ get k ev = Some v
            /\ structured v = true /\ parse (stringify v) = Some v)
    /\ (forall (k : string) (v : value),
          ~ In k (map column_name columns) -> get k data = Some v ->
          get k ev = Some v /\ get k view = None).
Proof.
  intros Hv Hwf Hty Hid Hcr Hfresh view.
  assert (Hd : keys_distinct (map fst data) = true).
  { simpl in Hwf. now apply andb_true_iff in Hwf as [Hd _]. }
  unfold typed in Hty. rewrite !andb_true_iff in Hty.
  destruct Hty as [[[[[[[[[Tts Tso] Tty] Tti] Tme] Tli] Tta] Tmo] Tlo] Tdu].
  set (m := or_else (get "metadata" data) (Obj [])).
  set (u := or_else (get "linked_uris" data) (Arr [])).
  set (g := or_else (get "tags" data) (Arr [])).
  set (l := or_else (get "location" data) Null).
  assert (Wm : wf m = true)
    by (apply or_else_wf; [intros v Hg; eapply wf_get; eauto | reflexivity]).
  assert (Wu : wf u = true)
    by (apply or_else_wf; [intros v Hg; eapply wf_get; eauto | reflexivity]).
  assert (Wg : wf g = true)
    by (apply or_else_wf; [intros v Hg; eapply wf_get; eauto | reflexivity]).
  assert (Wl : wf l = true)
    by (apply or_else_wf; [intros v Hg; eapply wf_get; eauto | reflexivity]).
  set (e := stamped data (Str i) (Str created) (Str now2)).
  set (r := row_of (serialize e)).
  assert (Hr : r =
    {| c_id := SText i;
       c_timestamp := bind (get "timestamp" data);
       c_source := bind (get "source" data);
       c_type := bind (get "type" data);
       c_title := bind (get "title" data);
       c_metadata := SText (stringify m);
       c_linked_uris := SText (stringify u);
       c_tags := SText (stringify g);
       c_mood := bind (get "mood" data);
       c_location := location_text l;
       c_duration := bind (get "duration" data);
       c_created_at := SText created;
       c_updated_at := SText now2 |}).
  { unfold r, e. now rewrite row_of_stamped. }
  assert (Hins : insert r t = Ok (t ++ [r])).
  { assert (Hnn : not_null_ok r = true).
    { rewrite Hr. unfold not_null_ok. simpl.
      now rewrite !bind_string_not_null by assumption. }
    assert (Hrid : c_id r = SText i) by (rewrite Hr; reflexivity).
    unfold insert. now rewrite Hnn, Hrid, Hfresh. }
  destruct (serialize_compound e) as (Sm & Su & Sg & Sl).
  assert (Ge : forall k, k <> "id" -> k <> "created_at" -> k <> "updated_at" ->
                 get k e = get k data).
  { intros k H1 H2 H3. now apply get_stamped. }
  rewrite !Ge in Sm, Su, Sg, Sl by discriminate.
  fold m in Sm. fold u in Su. fold g in Sg.
  assert (Sl' : get "location" (serialize e)
                = Some (if truthy l then Str (stringify l) else Null)).
  { rewrite Sl. unfold l, or_else. destruct (get "location" data) as [l0|];
      [|reflexivity].
    destruct (truthy l0) eqn:E; [now rewrite E | reflexivity]. }
  set (ev := set "location" (if truthy l then l else Null)
               (set "tags" g (set "linked_uris" u (set "metadata" m (spread e))))).
  exists ev, (t ++ [r]).
  assert (Hview : decoded r m u g (if truthy l then l else Null) = view).
  { rewrite decoded_explicit, Hr. simpl.
    rewrite !to_js_bind_string, !to_js_bind_number by assumption.
    unfold view, stored_view. fold m u g l.
    repeat f_equal. unfold l, or_else.
    destruct (get "location" data) as [l0|]; [|reflexivity].
    destruct (truthy l0) eqn:E; [now rewrite E | reflexivity]. }
  split; [|split; [|split; [|split; [|split]]]].
  - unfold createEvent. rewrite Hv. simpl negb. cbv iota.
    rewrite Hid, Hcr. fold (stamped data (Str i) (Str created) (Str now2)).
    fold e. fold r. rewrite Hins.
    unfold JSON_parse_field. rewrite Sm, Su, Sg, Sl'.
    rewrite !JSON_parse_stringify by assumption.
    unfold ev. destruct (truthy l) eqn:E; simpl truthy_opt.
    + rewrite stringify_nonempty. simpl negb. cbv iota.
      rewrite JSON_parse_stringify by assumption. reflexivity.
    + reflexivity.
  - unfold ev. get_set. rewrite spread_distinct by apply distinct_stamped.
    unfold e, stamped. get_set. reflexivity.
  - unfold getEvent. rewrite find_app_new;
      [ | assumption | rewrite Hr; unfold has_id; simpl; apply String.eqb_refl ].
    rewrite (parse_fields_explicit r m u g (if truthy l then l else Null));
      try (rewrite Hr; reflexivity); try assumption.
    + now rewrite Hview.
    + rewrite Hr. unfold location_text. simpl.
      destruct (truthy l); [right | left]; auto.
  - intros c v Hc Hg.
    simpl in Hc.
    destruct Hc as [<-|[<-|[<-|[<-|[<-|[<-|[<-|[<-|[<-|[<-|[]]]]]]]]]]];
      simpl in Hg |- *; rewrite Hg in *; try reflexivity;
      destruct v; try discriminate; reflexivity.
  - intros k Hk. simpl in Hk. destruct Hk as [<-|[<-|[<-|[]]]].
    + exists m. repeat split.
      * unfold ev. get_set. reflexivity.
      * unfold m. destruct (get "metadata" data) as [[]|]; try discriminate;
          reflexivity.
      * now apply parse_stringify.
    + exists u. repeat split.
      * unfold ev. get_set. reflexivity.
      * unfold u. destruct (get "linked_uris" data) as [[]|]; try discriminate;
          reflexivity.
      * now apply parse_stringify.
    + exists g. repeat split.
      * unfold ev. get_set. reflexivity.
      * unfold g. destruct (get "tags" data) as [[]|]; try discriminate;
          reflexivity.
      * now apply parse_stringify.
  - intros k v Hk Hg.
    assert (N : forall c : string, In c (map column_name columns) -> k <> c)
      by (intros c Hc ->; exact (Hk Hc)).
    split.
    + unfold ev.
      rewrite !get_set_other by (apply N; simpl; auto 20).
      rewrite spread_distinct by apply distinct_stamped.
      unfold e. rewrite get_stamped; try assumption; apply N; simpl; auto 20.
    + assert (E : forall c : string,
                 In c (map column_name columns) -> String.eqb k c = false)
        by (intros c Hc; apply String.eqb_neq; now apply N).
      unfold view, stored_view, get.
      rewrite !E by (simpl; auto 20). reflexivity.
Qed.

End WithSchema.

(** ** Queries *)

Lemma star_here (m : string -> bool) (s : string) :
  m s = true -> star m s = true.
Proof. intros H. destruct s; simpl; now rewrite H. Qed.

Lemma star_skip (m : string -> bool) (c : ascii) (s : string) :
  star m s = true -> star m (String c s) = true.
Proof.
  intros H. change (star m (String c s)) with (m (String c s) || star m s).
  rewrite H. apply orb_true_r.
Qed.

Lemma star_app (m : string -> bool) (pre s : string) :
  star m s = true -> star m (pre +:+ s) = true.
Proof.
  intros H. induction pre as [|c pre IH]; simpl; [assumption|].
  now apply star_skip.
Qed.

Lemma like_rest (post : string) : like "%" post = true.
Proof.
  change (like "%" post) with (star (like "") post).
  induction post as [|c post IH]; [reflexivity | now apply star_skip].
Qed.

Lemma like_prefix (tag post : string) :
  like (tag +:+ "%") (tag +:+ post) = true.
Proof.
  induction tag as [|c tag IH]; [apply like_rest|].
  change (like (String c tag +:+ "%") (String c tag +:+ post))
    with (if Ascii.eqb c "%" then star (like (tag +:+ "%")) (String c (tag +:+ post))
          else if Ascii.eqb c "_" then
            like (tag +:+ "%")
              (if (192 <=? N_of_ascii c)%N
               then skip_continuation (tag +:+ post) else tag +:+ post)
          else Ascii.eqb (lower c) (lower c) && like (tag +:+ "%") (tag +:+ post)).
  destruct (Ascii.eqb c "%") eqn:E1.
  - now apply star_skip, star_here.
  - destruct (Ascii.eqb c "_") eqn:E2.
    + apply Ascii.eqb_eq in E2. subst c. exact IH.
    + now rewrite Ascii.eqb_refl.
Qed.

(** A tag that occurs in the text matches it under [LIKE '%tag%']. *)
Lemma like_substring (pre tag post : string) :
  like ("%" +:+ tag +:+ "%") (pre +:+ tag +:+ post) = true.
Proof.
  change (like ("%" +:+ tag +:+ "%") (pre +:+ tag +:+ post))
    with (star (like (tag +:+ "%")) (pre +:+ tag +:+ post)).
  apply star_app, star_here, like_prefix.
Qed.

Lemma in_insert_sorted (ord : column * bool) (x r : row) (l : list row) :
  In x (insert_sorted ord r l) <-> x = r \/ In x l.
Proof.
  induction l as [|y l IH]; simpl; [intuition|].
  destruct (precedes ord y r); simpl; rewrite ?IH; intuition.
Qed.

Lemma in_order_by (ord : column * bool) (x : row) (l : list row) :
  In x (order_by ord l) <-> In x l.
Proof.
  induction l as [|y l IH]; simpl; [tauto|].
  rewrite in_insert_sorted, IH. intuition.
Qed.

Lemma in_limit_offset (limit offset : Z) (x : row) (l : list row) :
  In x (limit_offset limit offset l) -> In x l.
Proof.
  unfold limit_offset. intros H.
  assert (H' : In x (skipn (Z.to_nat offset) l)).
  { destruct (limit <? 0); [assumption|].
    rewrite <- (firstn_skipn (Z.to_nat limit) (skipn (Z.to_nat offset) l)).
    apply in_or_app. now left. }
  rewrite <- (firstn_skipn (Z.to_nat offset) l). apply in_or_app. now right.
Qed.

Lemma limit_offset_all (limit : Z) (l : list row) :
  (Z.of_nat (length l) <= limit) -> limit_offset limit 0 l = l.
Proof.
  intros H. unfold limit_offset. simpl.
  destruct (limit <? 0) eqn:E; [reflexivity|].
  apply firstn_all2. lia.
Qed.

Lemma parse_rows_in (rs : list row) (events : list obj) (e : obj) :
  parse_rows rs = Ok events -> In e events ->
  exists r, In r rs /\ parse_fields (row_object r) = Ok e.
Proof.
  revert events. induction rs as [|r rs IH]; simpl; intros events H Hin.
  - injection H as <-. contradiction.
  - destruct (parse_fields (row_object r)) as [o|] eqn:P; [|discriminate].
    destruct (parse_rows rs) as [os|]; [|discriminate].
    injection H as <-. destruct Hin as [<-|Hin]; [eauto|].
    destruct (IH os eq_refl Hin) as (r' & Hr' & Pr'). eauto.
Qed.

Lemma parse_rows_all (rs : list row) (events : list obj) (r : row) :
  parse_rows rs = Ok events -> In r rs ->
  exists e, In e events /\ parse_fields (row_object r) = Ok e.
Proof.
  revert events. induction rs as [|r0 rs IH]; simpl; intros events H Hin;
    [contradiction|].
  destruct (parse_fields (row_object r0)) as [o|] eqn:P; [|discriminate].
  destruct (parse_rows rs) as [os|]; [|discriminate].
  injection H as <-. destruct Hin as [<-|Hin].
  - exists o. simpl. auto.
  - destruct (IH os eq_refl Hin) as (e & He & Pe). exists e. simpl. auto.
Qed.

Lemma sqlval_eqb_text (x : sqlval) (s : string) :
  sqlval_eqb x (SText s) = true <-> x = SText s.
Proof.
  destruct x as [| |s']; simpl; try (split; discriminate).
  rewrite String.eqb_eq. split; congruence.
Qed.

Lemma where_clause_spec (o : options) (r : row) :
  where_clause o r = true <->
  source_matches o r /\ type_matches o r /\ from_start o r /\ until_end o r
  /\ some_tag_matches o r.
Proof.
  unfold where_clause, when_given, source_matches, type_matches, from_start,
    until_end, some_tag_matches, tags_clause, sql_eq.
  rewrite !andb_true_iff.
  destruct (given (o_source o)), (given (o_type o)), (given (o_startDate o)),
    (given (o_endDate o)), (o_tags o) as [[|tg tgs]|];
    rewrite ?sqlval_eqb_text, ?existsb_exists; intuition.
Qed.

(** The bounds of the date range are inclusive, and compare as text. *)
Lemma range_inclusive (ts : string) :
  sql_ge (SText ts) (SText ts) = true /\ sql_le (SText ts) (SText ts) = true.
Proof.
  unfold sql_ge, sql_le, sql_compare.
  pose proof (String.compare_antisym ts ts) as H.
  destruct (String.compare ts ts); simpl in H; try discriminate; auto.
Qed.

(** C8.  [getEvents(options)] returns events of rows that satisfy every
    condition given at once: [source] and [type] equal to the stored
    value, [timestamp] at or after [startDate] and at or before [endDate]
    (both bounds included), and, for a non-empty [tags] list, some tag of
    the list matching the stored tags text under [LIKE '%tag%'].  Within
    the limit, every row that satisfies them is returned.  A tag that occurs
    anywhere in the serialized tags matches: one matching tag is enough.  A
    timestamp equal to a bound of the range is inside it. *)
Theorem getEvents_filters (t : table) (o : options) (events : list obj) :
  getEvents t o = Ok events ->
  (forall e : obj,
     In e events ->
     exists r : row,
       In r t /\ parse_fields (row_object r) = Ok e
       /\ source_matches o r /\ type_matches o r /\ from_start o r
       /\ until_end o r /\ some_tag_matches o r)
  /\ (forall r : row,
        In r t ->
        source_matches o r -> type_matches o r -> from_start o r ->
        until_end o r -> some_tag_matches o r ->
        default 0 (o_offset o) = 0 ->
        Z.of_nat (length (List.filter (where_clause o) t))
        <= default 100 (o_limit o) ->
        exists e : obj, In e events /\ parse_fields (row_object r) = Ok e)
  /\ (forall (r : row) (tags : list string) (tag pre post : string),
        o_tags o = Some tags -> In tag tags ->
        c_tags r = SText (pre +:+ tag +:+ post) ->
        some_tag_matches o r)
  /\ (forall (r : row) (ts : string),
        c_timestamp r = SText ts ->
        (given (o_startDate o) = Some ts -> from_start o r)
        /\ (given (o_endDate o) = Some ts -> until_end o r)).
Proof.
  intros H. unfold getEvents, select in H.
  split; [|split; [|split]]; [| | |
    intros r ts Hts; unfold from_start, until_end; rewrite Hts;
    split; intros ->; apply range_inclusive ].
  - intros e He.
    destruct (parse_rows_in _ _ _ H He) as (r & Hr & Pr).
    apply in_limit_offset, in_order_by, filter_In in Hr as [Hr Hw].
    apply where_clause_spec in Hw. exists r. tauto.
  - intros r Hr H1 H2 H3 H4 H5 Hoff Hlim.
    rewrite Hoff in H. rewrite limit_offset_all in H.
    + apply (parse_rows_all _ _ r H). apply in_order_by, filter_In.
      split; [assumption|]. apply where_clause_spec. tauto.
    + assert (Hlen : forall l, length (order_by (default (Ctimestamp, true) (o_orderBy o)) l)
                               = length l).
      { induction l as [|y l IH]; simpl; [reflexivity|]. rewrite <- IH.
        generalize (order_by (default (Ctimestamp, true) (o_orderBy o)) l).
        induction l0 as [|z l0 IH0]; simpl; [reflexivity|].
        destruct (precedes _ z y); simpl; [now rewrite IH0 | reflexivity]. }
      rewrite Hlen. exact Hlim.
  - intros r tags tag pre post Ht Hin Hr. unfold some_tag_matches.
    rewrite Ht. destruct tags as [|tg tgs]; [contradiction|].
    exists tag. split; [assumption|]. rewrite Hr. simpl.
    apply like_substring.
Qed.


(** ** The rows the store writes *)

Lemma values_wf_get (k : string) (v : value) (o : obj) :
  values_wf o = true -> get k o = Some v -> wf v = true.
Proof.
  unfold values_wf. induction o as [|[k' v'] o IH]; simpl; [discriminate|].
  rewrite andb_true_iff. intros [Hv Ho].
  destruct (String.eqb k k'); [intros [= <-]; assumption | now apply IH].
Qed.

Lemma values_wf_set (k : string) (v : value) (o : obj) :
  wf v = true -> values_wf o = true -> values_wf (set k v o) = true.
Proof.
  unfold values_wf. intros Hv.
  induction o as [|[k' v'] o IH]; simpl; [now rewrite Hv|].
  rewrite andb_true_iff. intros [Hv' Ho].
  destruct (String.eqb k k'); simpl; rewrite ?Hv, ?Hv'; auto.
Qed.

Lemma values_wf_assign (a b : obj) :
  values_wf a = true -> values_wf b = true -> values_wf (assign a b) = true.
Proof.
  revert a. unfold assign.
  induction b as [|[k v] b IH]; intros a Ha Hb; simpl; [assumption|].
  unfold values_wf in Hb. simpl in Hb. apply andb_true_iff in Hb as [Hv Hb].
  apply IH; [now apply values_wf_set | exact Hb].
Qed.

Lemma values_wf_of_wf (o : obj) : wf (Obj o) = true -> values_wf o = true.
Proof. simpl. rewrite andb_true_iff. tauto. Qed.

Lemma row_ok_written (r : row) (m u g l : value) :
  c_metadata r = SText (stringify m) -> wf m = true -> truthy m = true ->
  c_linked_uris r = SText (stringify u) -> wf u = true -> truthy u = true ->
  c_tags r = SText (stringify g) -> wf g = true -> truthy g = true ->
  c_location r = location_text l -> wf l = true ->
  row_ok r = true.
Proof.
  intros Hm Wm Tm Hu Wu Tu Hg Wg Tg Hl Wl. unfold row_ok.
  rewrite Hm, Hu, Hg, Hl, !json_text_stringify by assumption. simpl.
  unfold location_text. destruct (truthy l) eqn:E; [|reflexivity].
  rewrite json_text_stringify by assumption. apply orb_true_r.
Qed.

Lemma or_else_values_wf (k : string) (o : obj) (d : value) :
  values_wf o = true -> wf d = true -> wf (or_else (get k o) d) = true.
Proof.
  intros Ho Hd. apply or_else_wf; [|assumption].
  intros v Hv. eapply values_wf_get; eauto.
Qed.

Lemma location_text_serialized (e : obj) :
  bind (get "location" (serialize e))
  = location_text (or_else (get "location" e) Null).
Proof.
  destruct (serialize_compound e) as (_ & _ & _ & ->).
  unfold location_text, or_else. destruct (get "location" e) as [l|];
    [|reflexivity].
  destruct (truthy l) eqn:E; simpl; [now rewrite E | reflexivity].
Qed.

(** A row written from an event whose values are well formed is as the
    store writes them, whether [INSERT] or [UPDATE] wrote it. *)
Lemma row_ok_serialized (e : obj) (r : row) :
  values_wf e = true ->
  c_metadata r = bind (get "metadata" (serialize e)) ->
  c_linked_uris r = bind (get "linked_uris" (serialize e)) ->
  c_tags r = bind (get "tags" (serialize e)) ->
  c_location r = bind (get "location" (serialize e)) ->
  row_ok r = true.
Proof.
  intros He Hm Hu Hg Hl.
  rewrite location_text_serialized in Hl.
  destruct (serialize_compound e) as (Sm & Su & Sg & _).
  rewrite Sm in Hm. rewrite Su in Hu. rewrite Sg in Hg. simpl in Hm, Hu, Hg.
  eapply row_ok_written; eauto;
    solve [ now apply or_else_values_wf | now apply or_else_is_truthy ].
Qed.

Lemma wf_to_js (x : sqlval) : wf (to_js x) = true.
Proof. now destruct x. Qed.

Lemma values_wf_row_object (r : row) : values_wf (row_object r) = true.
Proof.
  unfold values_wf, row_object. simpl. now rewrite !wf_to_js.
Qed.

Section Invariant.

Variable validate : obj -> bool.
Variable errorsText : obj -> string.

(** [createEvent] keeps the rows of the table as the store writes them. *)
Lemma createEvent_rows_ok
    (t : table) (uuid now1 now2 : string) (data : obj) :
  forallb row_ok t = true -> wf (Obj data) = true ->
  forallb row_ok (snd (createEvent validate errorsText t uuid now1 now2 data))
  = true.
Proof.
  intros Ht Hwf. unfold createEvent.
  destruct (validate data); simpl; [|assumption].
  match goal with
  | |- context [insert ?r t] => set (r0 := r); destruct (insert r0 t) eqn:I
  end; simpl; [|assumption].
  unfold insert in I.
  destruct (negb (not_null_ok r0)); [discriminate|].
  destruct (existsb (has_id (c_id r0)) t); [discriminate|].
  injection I as <-. rewrite forallb_app, Ht. simpl. rewrite andb_true_r.
  unfold r0. eapply row_ok_serialized; try reflexivity.
  apply values_wf_set; [reflexivity|].
  apply values_wf_of_wf in Hwf.
  apply values_wf_set; [now apply or_else_values_wf|].
  apply values_wf_set; [now apply or_else_values_wf|].
  now apply values_wf_assign.
Qed.

(** So does [updateEvent]. *)
Lemma updateEvent_rows_ok (t : table) (now id : string) (patch : obj) :
  forallb row_ok t = true -> wf (Obj patch) = true ->
  forallb row_ok (snd (updateEvent validate errorsText t now id patch)) = true.
Proof.
  intros Ht Hwf. unfold updateEvent, getEvent.
  destruct (List.find (has_id (SText id)) t) as [r|] eqn:F; [|assumption].
  pose proof (find_some _ _ F) as [Hin Hid].
  assert (Hr : row_ok r = true).
  { rewrite forallb_forall in Ht. now apply Ht. }
  destruct (parse_fields_row r Hr)
    as (m & u & g & l & P & (_ & _ & Wm) & (_ & _ & Wu) & (_ & _ & Wg) & Hl).
  rewrite P.
  destruct (validate (merge (decoded r m u g l) patch now)); simpl;
    [|assumption].
  unfold update.
  match goal with
  | |- context [if ?b then _ else _] => destruct b; simpl; [|assumption]
  end.
  rewrite forallb_forall in Ht |- *.
  intros r' Hr'. apply in_map_iff in Hr' as (y & <- & Hy).
  destruct (has_id (SText id) y); [|now apply Ht].
  eapply row_ok_serialized; try reflexivity.
  unfold merge. apply values_wf_set; [reflexivity|].
  apply values_wf_assign; [|now apply values_wf_of_wf].
  apply values_wf_assign; [reflexivity|].
  unfold decoded.
  assert (Wl : wf l = true) by (destruct Hl as [[_ ->]|(_ & _ & Wl)]; auto).
  repeat (apply values_wf_set; [assumption|]).
  apply values_wf_assign; [reflexivity | apply values_wf_row_object].
Qed.

End Invariant.

(** ** The properties at work on the sample data *)

Lemma create_then_get_witness :
  exists (ev : obj) (t' : table),
    createEvent Samples.validate Samples.errorsText [] "e1"
      "2024-01-02T10:00:00.000Z" "2024-01-02T10:00:00.001Z" Samples.gym
    = (Ok ev, t')
    /\ getEvent t' "e1"
       = Ok (Some (stored_view Samples.gym (Str "e1")
                     (Str "2024-01-02T10:00:00.000Z")
                     (Str "2024-01-02T10:00:00.001Z")))
    /\ get "tags" ev = Some (Arr [Str "gymnastics"]).
Proof.
  destruct (create_then_get Samples.validate Samples.errorsText [] "e1"
              "2024-01-02T10:00:00.000Z" "2024-01-02T10:00:00.001Z"
              Samples.gym "e1" "2024-01-02T10:00:00.000Z"
              ltac:(vm_compute; reflexivity) ltac:(vm_compute; reflexivity)
              ltac:(vm_compute; reflexivity) ltac:(vm_compute; reflexivity)
              ltac:(vm_compute; reflexivity) ltac:(vm_compute; reflexivity))
    as (ev & t' & H1 & _ & H3 & _ & H5 & _).
  exists ev, t'. repeat split; try assumption.
  destruct (H5 "tags" ltac:(simpl; auto)) as (v & Hv & Hev & _).
  rewrite Hev, <- Hv. reflexivity.
Defined.

(** What C4 does not hold for.  Both payloads pass the schema.  The first
    has a property, [note], that is no column of the table: [getEvent]
    returns the event without it.  The second has the number 0 as its
    [location]: a falsy location is stored as NULL, and [createEvent] and
    [getEvent] both return [null] for it. *)
Lemma create_then_get_loses_fields :
  (Samples.validate Samples.noted = true
   /\ get "note" Samples.noted = Some (Str "bring water")
   /\ exists (ev stored : obj) (t' : table),
        createEvent Samples.validate Samples.errorsText [] "e1"
          "2024-01-02T10:00:00.000Z" "2024-01-02T10:00:00.001Z" Samples.noted
        = (Ok ev, t')
        /\ get "id" ev = Some (Str "e1")
        /\ getEvent t' "e1" = Ok (Some stored)
        /\ get "note" stored = None)
  /\ (Samples.validate Samples.nowhere = true
      /\ get "location" Samples.nowhere = Some (Num 0)
      /\ exists (ev stored : obj) (t' : table),
           createEvent Samples.validate Samples.errorsText [] "e1"
             "2024-01-02T10:00:00.000Z" "2024-01-02T10:00:00.001Z"
             Samples.nowhere
           = (Ok ev, t')
           /\ get "location" ev = Some Null
           /\ getEvent t' "e1" = Ok (Some stored)
           /\ get "location" stored = Some Null).
Proof.
  split; (split; [vm_compute; reflexivity|]); (split; [reflexivity|]);
    do 3 eexists; (split; [vm_compute; reflexivity|]);
    (split; [reflexivity|]); (split; [vm_compute; reflexivity|]); reflexivity.
Qed.


Lemma getEvents_filters_witness :
  exists r : row,
    In r Samples.one_event
    /\ parse_fields (row_object r) = Ok Samples.gym_stored
    /\ some_tag_matches Samples.tagged_gym r.
Proof.
  destruct (getEvents_filters Samples.one_event Samples.tagged_gym
              [Samples.gym_stored] ltac:(vm_compute; reflexivity))
    as (H & _).
  destruct (H Samples.gym_stored ltac:(simpl; auto))
    as (r & Hr & P & _ & _ & _ & _ & Ht).
  exists r. auto.
Defined.

(** The tag [gym] matches a record tagged [gymnastics]. *)
Example gym_matches_gymnastics :
  sql_like (SText (stringify (Arr [Str "gymnastics"]))) ("%" +:+ "gym" +:+ "%")
  = true
  /\ getEvents Samples.one_event Samples.tagged_gym = Ok [Samples.gym_stored].
Proof. split; vm_compute; reflexivity. Qed.

Lemma updateEvent_failure_writes_nothing_witness :
  updateEvent Samples.validate Samples.errorsText Samples.one_event
    "2024-02-01T00:00:00.000Z" "nobody" [("title", Str "x")] =
  (Err (Error "Event not found: nobody"), Samples.one_event)
  /\ updateEvent Samples.validate Samples.errorsText Samples.one_event
       "2024-02-01T00:00:00.000Z" "e1" [("title", Num 5)] =
     (Err (Error "Invalid event: title "), Samples.one_event).
Proof.
  split.
  - apply (updateEvent_failure_writes_nothing Samples.validate Samples.errorsText
             Samples.one_event "2024-02-01T00:00:00.000Z" "nobody"
             [("title", Str "x")]).
    vm_compute. reflexivity.
  - exact (proj1 (proj2 (updateEvent_failure_writes_nothing Samples.validate
             Samples.errorsText Samples.one_event "2024-02-01T00:00:00.000Z"
             "e1" [("title", Num 5)]))
             Samples.gym_stored
             ltac:(vm_compute; reflexivity) ltac:(vm_compute; reflexivity)).
Defined.

Lemma createEvent_invalid_writes_nothing_witness :
  createEvent Samples.validate Samples.errorsText Samples.one_event "e2"
    "2024-02-01T00:00:00.000Z" "2024-02-01T00:00:00.000Z" Samples.untitled =
  (Err (Error "Invalid event: title "), Samples.one_event)
  /\ total (snd (createEvent Samples.validate Samples.errorsText
                   Samples.one_event "e2" "2024-02-01T00:00:00.000Z"
                   "2024-02-01T00:00:00.000Z" Samples.untitled)) = 1%nat.
Proof.
  apply (createEvent_invalid_writes_nothing Samples.validate Samples.errorsText
           Samples.one_event "e2" "2024-02-01T00:00:00.000Z"
           "2024-02-01T00:00:00.000Z" Samples.untitled).
  vm_compute. reflexivity.
Defined.

End StoreFacts.

(* ===================================================================== *)
(** * Facts about the plugin registry and scheduler *)
(* ===================================================================== *)

Module PluginFacts.
Import Json Plugins JsonFacts.

Lemma consistent_initial (root : gmap string node) : consistent (initial root).
Proof.
  split; simpl.
  - intros id h H. rewrite lookup_empty in H. discriminate.
  - intros h tk [].
  - constructor.
  - intros h tk [].
Qed.

Lemma same_handle_same_task (l : list (nat * task)) (h : nat) (a b : task) :
  List.NoDup (map fst l) -> In (h, a) l -> In (h, b) l -> a = b.
Proof.
  induction l as [|[h' c] l IH]; simpl; intros Hnd Ha Hb; [contradiction|].
  inversion Hnd as [|? ? Hnotin Hnd']; subst.
  destruct Ha as [Ha|Ha], Hb as [Hb|Hb].
  - congruence.
  - injection Ha as -> ->. exfalso. apply Hnotin.
    apply in_map_iff. exists (h, b). auto.
  - injection Hb as -> ->. exfalso. apply Hnotin.
    apply in_map_iff. exists (h, a). auto.
  - now apply IH.
Qed.

Lemma filter_keeps_NoDup (p : nat * task -> bool) (l : list (nat * task)) :
  List.NoDup (map fst l) -> List.NoDup (map fst (List.filter p l)).
Proof.
  induction l as [|x l IH]; simpl; intros Hnd; [constructor|].
  inversion Hnd as [|? ? Hnotin Hnd']; subst.
  destruct (p x); simpl; [|now apply IH].
  constructor; [|now apply IH].
  intros Hin. apply Hnotin. apply in_map_iff in Hin as (y & Hy & Hin).
  apply filter_In in Hin as [Hin _]. apply in_map_iff. eauto.
Qed.

(** The triggers of a plugin under a consistent state: the one its entry
    of [activeJobs] names, or none. *)
Lemma triggers_count (st : state) (id : string) :
  consistent st ->
  length (triggers id st)
  = match activeJobs st !! id with Some _ => 1%nat | None => 0%nat end.
Proof.
  intros [Hruns Hreg Hnd _]. unfold triggers.
  destruct (activeJobs st !! id) as [h|] eqn:E.
  - destruct (Hruns id h E) as (tk & Hin & Hp).
    assert (Hall : forall x, In x (cron_tasks st) ->
                     String.eqb (task_plugin (snd x)) id = true -> x = (h, tk)).
    { intros [h' tk'] Hx Hpx. simpl in Hpx. apply String.eqb_eq in Hpx.
      pose proof (Hreg h' tk' Hx) as Hh. rewrite Hpx, E in Hh.
      injection Hh as <-. f_equal.
      exact (same_handle_same_task _ _ _ _ Hnd Hx Hin). }
    clear Hruns Hreg E.
    induction (cron_tasks st) as [|x l IH]; [contradiction|].
    simpl in Hnd. apply List.NoDup_cons_iff in Hnd as [Hnotin Hnd'].
    simpl. destruct (String.eqb (task_plugin (snd x)) id) eqn:Ex.
    + assert (Hx : x = (h, tk)) by (apply Hall; [now left | assumption]).
      simpl. f_equal.
      assert (Hnone : forall y, In y l ->
                        String.eqb (task_plugin (snd y)) id = false).
      { intros y Hy. destruct (String.eqb (task_plugin (snd y)) id) eqn:Ey;
          [|reflexivity].
        assert (Hy' : y = (h, tk)) by (apply Hall; [now right | assumption]).
        exfalso. apply Hnotin. apply in_map_iff. exists y.
        rewrite Hx, Hy'. split; [reflexivity|]. rewrite <- Hy'. exact Hy. }
      clear -Hnone. induction l as [|y l IHl]; [reflexivity|].
      simpl. rewrite (Hnone y) by now left. apply IHl.
      intros z Hz. apply Hnone. now right.
    + destruct Hin as [Hx|Hin].
      * rewrite Hx in Ex. simpl in Ex. rewrite Hp, String.eqb_refl in Ex.
        discriminate.
      * apply IH; [assumption | assumption |].
        intros y Hy. apply Hall. now right.
  - assert (Hnone : forall x, In x (cron_tasks st) ->
                      String.eqb (task_plugin (snd x)) id = false).
    { intros [h tk] Hx. simpl.
      destruct (String.eqb (task_plugin tk) id) eqn:Ex; [|reflexivity].
      apply String.eqb_eq in Ex. pose proof (Hreg h tk Hx) as Hh.
      rewrite Ex, E in Hh. discriminate. }
    clear -Hnone. induction (cron_tasks st) as [|y l IHl]; [reflexivity|].
    simpl. rewrite (Hnone y) by now left. apply IHl.
    intros z Hz. apply Hnone. now right.
Qed.

Lemma stop_consistent (st : state) (id : string) :
  consistent st ->
  consistent (stopScheduledJob id st)
  /\ activeJobs (stopScheduledJob id st) !! id = None
  /\ fs (stopScheduledJob id st) = fs st
  /\ next_handle (stopScheduledJob id st) = next_handle st
  /\ (forall id', id' <> id ->
        activeJobs (stopScheduledJob id st) !! id' = activeJobs st !! id').
Proof.
  intros Hc. pose proof Hc as [Hruns Hreg Hnd Hfresh]. unfold stopScheduledJob.
  destruct (activeJobs st !! id) as [h|] eqn:E; [|repeat split; auto].
  destruct (Hruns id h E) as (tk0 & Hin0 & Hp0).
  simpl. repeat split; simpl.
  - intros id' h' H'.
    destruct (decide (id = id')) as [<-|Hne];
      [rewrite lookup_delete_eq in H'; discriminate|].
    rewrite lookup_delete_ne in H' by assumption.
    destruct (Hruns id' h' H') as (tk & Hin & Hp).
    exists tk. split; [|assumption]. apply filter_In. split; [assumption|].
    simpl. apply negb_true_iff, Nat.eqb_neq. intros ->.
    pose proof (same_handle_same_task _ _ _ _ Hnd Hin Hin0). subst tk.
    congruence.
  - intros h' tk Hin. apply filter_In in Hin as [Hin Hh]. simpl in Hh.
    apply negb_true_iff, Nat.eqb_neq in Hh.
    pose proof (Hreg h' tk Hin) as Hr.
    rewrite lookup_delete_ne; [assumption|].
    intros Heq. rewrite <- Heq, E in Hr. congruence.
  - now apply filter_keeps_NoDup.
  - intros h' tk Hin. apply filter_In in Hin as [Hin _]. eauto.
  - apply lookup_delete_eq.
  - intros id' Hne. apply lookup_delete_ne. congruence.
Qed.

Lemma filter_filter_implied {A : Type} (p q : A -> bool) (l : list A) :
  (forall x, In x l -> p x = true -> q x = true) ->
  List.filter p (List.filter q l) = List.filter p l.
Proof.
  induction l as [|x l IH]; intros H; [reflexivity|]. simpl.
  destruct (q x) eqn:Q; simpl.
  - destruct (p x); [f_equal|]; apply IH; intros y Hy; apply H; now right.
  - destruct (p x) eqn:P.
    + rewrite (H x (or_introl eq_refl) P) in Q. discriminate.
    + apply IH. intros y Hy. apply H. now right.
Qed.

Lemma set_twice (k : string) (v : value) (o : obj) :
  set k v (set k v o) = set k v o.
Proof.
  induction o as [|[k' v'] o IH]; simpl.
  - now rewrite String.eqb_refl.
  - destruct (String.eqb k k') eqn:E; simpl; rewrite E; [reflexivity|].
    now rewrite IH.
Qed.

(** What [stopScheduledJob] stops: the tasks of the plugin, all of them,
    and no task of another plugin. *)
Lemma stop_triggers (st : state) (id : string) :
  consistent st ->
  triggers id (stopScheduledJob id st) = []
  /\ (forall id', id' <> id ->
        triggers id' (stopScheduledJob id st) = triggers id' st)
  /\ (forall h tk, activeJobs st !! id = Some h ->
        ~ In (h, tk) (cron_tasks (stopScheduledJob id st)))
  /\ (forall ht, In ht (cron_tasks (stopScheduledJob id st)) ->
        In ht (cron_tasks st)).
Proof.
  intros Hc. split; [|split; [|split]].
  - destruct (stop_consistent st id Hc) as (Hc1 & Hnone & _).
    pose proof (triggers_count _ id Hc1) as Hlen. rewrite Hnone in Hlen.
    now destruct (triggers id (stopScheduledJob id st)).
  - intros id' Hne. unfold stopScheduledJob.
    destruct (activeJobs st !! id) as [h|] eqn:E; [|reflexivity].
    unfold triggers. simpl. apply filter_filter_implied.
    intros [h' tk] Hin Hp. simpl in *. apply String.eqb_eq in Hp.
    apply negb_true_iff, Nat.eqb_neq. intros ->.
    destruct Hc as [Hruns Hreg Hnd _].
    destruct (Hruns id h E) as (tk0 & Hin0 & Hp0).
    pose proof (same_handle_same_task _ _ _ _ Hnd Hin Hin0). subst tk0.
    congruence.
  - intros h tk E. unfold stopScheduledJob. rewrite E. simpl.
    intros Hin. apply filter_In in Hin as [_ Hh]. simpl in Hh.
    now rewrite Nat.eqb_refl in Hh.
  - intros ht. unfold stopScheduledJob.
    destruct (activeJobs st !! id); [|auto]. simpl.
    intros Hin. now apply filter_In in Hin as [Hin _].
Qed.

(** What a registration after the stop leaves: the new task, under a
    handle no task had, as the plugin's only trigger. *)
Lemma registered_after_stop (st : state) (id e : string) (config : obj) :
  consistent st ->
  let st' := registered id e config (stopScheduledJob id st) in
  triggers id st'
  = [(next_handle st,
      {| task_plugin := id; task_schedule := e; task_config := config |})]
  /\ activeJobs st' !! id = Some (next_handle st)
  /\ next_handle st' = S (next_handle st)
  /\ (forall tk, ~ In (next_handle st, tk) (cron_tasks st))
  /\ (forall id', id' <> id -> triggers id' st' = triggers id' st)
  /\ (forall h tk, activeJobs st !! id = Some h -> ~ In (h, tk) (cron_tasks st')).
Proof.
  intros Hc st'.
  destruct (stop_consistent st id Hc) as (_ & _ & _ & Hnext & _).
  destruct (stop_triggers st id Hc) as (Hnil & Hother & Hgone & Hsub).
  assert (Hfresh : forall tk, ~ In (next_handle st, tk) (cron_tasks st)).
  { intros tk Hin. destruct Hc as [_ _ _ Hf]. pose proof (Hf _ _ Hin). lia. }
  unfold st', registered, triggers in *. simpl. rewrite Hnext.
  split; [|split; [|split; [|split; [|split]]]].
  - rewrite List.filter_app, Hnil. simpl. now rewrite String.eqb_refl.
  - apply lookup_insert_eq.
  - reflexivity.
  - exact Hfresh.
  - intros id' Hne. rewrite List.filter_app, (Hother id' Hne). simpl.
    apply String.eqb_neq in Hne. rewrite String.eqb_sym in Hne.
    rewrite Hne. apply app_nil_r.
  - intros h tk E Hin. apply in_app_or in Hin as [Hin|[Hin|[]]].
    + exact (Hgone h tk E Hin).
    + injection Hin as Hh _. destruct Hc as [Hruns _ _ Hf].
      destruct (Hruns id h E) as (tk0 & Hin0 & _).
      pose proof (Hf _ _ Hin0). lia.
Qed.

Section Scheduler.

Variable cron_validate : string -> bool.

Lemma start_cases (st : state) (id : string) (config : obj) :
  (registers cron_validate config
   /\ exists e, get "schedule" config = Some (Str e)
                /\ startScheduledJob cron_validate id config st
                   = (None, registered id e config (stopScheduledJob id st)))
  \/ (~ registers cron_validate config
      /\ snd (startScheduledJob cron_validate id config st)
         = stopScheduledJob id st).
Proof.
  unfold startScheduledJob, cron_schedule, registers.
  destruct (scheduled config) eqn:Hs.
  - destruct (get "schedule" config) as [v|] eqn:Hg.
    + destruct v as [| | |e| |];
        try (right; split; [intros (_ & e' & He' & _); congruence | reflexivity]).
      destruct (cron_validate e) eqn:Hv.
      * left. split; [eauto|]. exists e. split; reflexivity.
      * right. split; [|reflexivity].
        intros (_ & e' & He' & Hv'). congruence.
    + right. split; [intros (_ & e' & He' & _); congruence | reflexivity].
  - right. split; [intros [? _]; congruence | reflexivity].
Qed.

Lemma registered_consistent (st1 : state) (id e : string) (config : obj) :
  consistent st1 -> activeJobs st1 !! id = None ->
  consistent (registered id e config st1).
Proof.
  intros [Hruns Hreg Hnd Hfresh] Hnone. split; simpl.
  - intros id' h' H'. destruct (decide (id = id')) as [<-|Hne].
    + rewrite lookup_insert_eq in H'. injection H' as <-.
      eexists. split; [apply in_or_app; right; left; reflexivity | reflexivity].
    + rewrite lookup_insert_ne in H' by assumption.
      destruct (Hruns id' h' H') as (tk & Hin & Hp).
      exists tk. split; [apply in_or_app; now left | assumption].
  - intros h' tk Hin. apply in_app_or in Hin as [Hin|[Hin|[]]].
    + pose proof (Hreg h' tk Hin) as Hr.
      rewrite lookup_insert_ne; [assumption|].
      intros Heq. rewrite <- Heq, Hnone in Hr. discriminate.
    + injection Hin as <- <-. simpl. apply lookup_insert_eq.
  - rewrite map_app. simpl.
    apply List.NoDup_app; [assumption | constructor; [intros [] | constructor] |].
    intros h' Hin [<-|[]]. apply in_map_iff in Hin as ([h2 tk] & Hh & Hin).
    simpl in Hh. subst h2. pose proof (Hfresh _ _ Hin). lia.
  - intros h' tk Hin. apply in_app_or in Hin as [Hin|[Hin|[]]].
    + pose proof (Hfresh _ _ Hin). lia.
    + injection Hin as <- <-. lia.
Qed.

Lemma start_consistent (st : state) (id : string) (config : obj) :
  consistent st ->
  consistent (snd (startScheduledJob cron_validate id config st))
  /\ fs (snd (startScheduledJob cron_validate id config st)) = fs st
  /\ (forall id', id' <> id ->
        activeJobs (snd (startScheduledJob cron_validate id config st)) !! id'
        = activeJobs st !! id')
  /\ (registers cron_validate config ->
        fst (startScheduledJob cron_validate id config st) = None
        /\ is_Some (activeJobs (snd (startScheduledJob cron_validate id config st)) !! id))
  /\ (~ registers cron_validate config ->
        activeJobs (snd (startScheduledJob cron_validate id config st)) !! id = None).
Proof.
  intros Hc.
  destruct (stop_consistent st id Hc) as (Hc1 & Hnone & Hfs & Hnext & Hother).
  destruct (start_cases st id config) as [(Hr & e & He & ->)|(Hn & ->)]; simpl.
  - split; [now apply registered_consistent|].
    split; [assumption|]. split; [|split].
    + intros id' Hne. rewrite lookup_insert_ne by congruence. now apply Hother.
    + intros _. rewrite lookup_insert_eq. eauto.
    + intros Hn. contradiction.
  - split; [assumption|]. split; [assumption|]. split; [assumption|].
    split; [intros Hr; contradiction | intros _; assumption].
Qed.

Lemma consistent_same_jobs (st st' : state) :
  activeJobs st' = activeJobs st -> cron_tasks st' = cron_tasks st ->
  next_handle st' = next_handle st ->
  consistent st -> consistent st'.
Proof.
  intros Ha Ht Hn [Hruns Hreg Hnd Hfresh].
  split; rewrite ?Ha, ?Ht, ?Hn; assumption.
Qed.

Lemma consistent_with_fs (st : state) (root : gmap string node) :
  consistent st -> consistent (with_fs st root).
Proof. now apply consistent_same_jobs. Qed.

Lemma consistent_log (st : state) (line : string) :
  consistent st -> consistent (log st line).
Proof. now apply consistent_same_jobs. Qed.

(** Without a [plugin.json] the read fails in [fs.readFile]. *)
Lemma no_descriptor_unread (root : gmap string node) (id : string) :
  has_descriptor root id = false -> readConfig root id = inl FsError.
Proof.
  unfold has_descriptor, readConfig.
  destruct (root !! id) as [[|files]|]; try reflexivity.
  destruct (files !! "plugin.json") as [f|]; [|reflexivity].
  intros H. apply bool_decide_eq_false in H. exfalso. apply H. eauto.
Qed.

Lemma write_after_read (root : gmap string node) (id : string) (c0 c : obj) :
  readConfig root id = inr c0 ->
  exists root',
    writeConfig root id c = Some root'
    /\ readConfig root' id = inr c
    /\ (forall id', id' <> id -> root' !! id' = root !! id').
Proof.
  unfold readConfig, writeConfig, writeFile.
  destruct (root !! id) as [[|files]|] eqn:E; try discriminate.
  intros _. eexists. split; [reflexivity|]. split.
  - rewrite lookup_insert_eq. now rewrite lookup_insert_eq.
  - intros id' Hne. apply lookup_insert_ne. congruence.
Qed.

Lemma enable_consistent (st : state) (id : string) :
  consistent st -> consistent (snd (enable cron_validate id st)).
Proof.
  intros Hc. unfold enable.
  destruct (readConfig (fs st) id) as [e|config0]; [assumption|].
  destruct (writeConfig (fs st) id (set "enabled" (Bool true) config0))
    as [root|]; [|assumption].
  pose proof (consistent_with_fs st root Hc) as Hc1.
  destruct (scheduled (set "enabled" (Bool true) config0)); [|assumption].
  pose proof (start_consistent (with_fs st root) id
                (set "enabled" (Bool true) config0) Hc1) as [Hc2 _].
  destruct (startScheduledJob cron_validate id _ (with_fs st root)) as [[e|] st2];
    assumption.
Qed.

Lemma disable_consistent (st : state) (id : string) :
  consistent st -> consistent (snd (disable id st)).
Proof.
  intros Hc. unfold disable.
  destruct (readConfig (fs st) id) as [e|config0]; [assumption|].
  destruct (writeConfig (fs st) id (set "enabled" (Bool false) config0))
    as [root|]; [|assumption].
  simpl. apply stop_consistent. now apply consistent_with_fs.
Qed.

Lemma updateConfig_consistent (st : state) (id : string) (updates : obj) :
  consistent st -> consistent (snd (updateConfig cron_validate id updates st)).
Proof.
  intros Hc. unfold updateConfig.
  destruct (readConfig (fs st) id) as [e|config0]; [assumption|].
  destruct (writeConfig (fs st) id (assign config0 updates)) as [root|];
    [|assumption].
  pose proof (consistent_with_fs st root Hc) as Hc1.
  destruct (scheduled (assign config0 updates)).
  - pose proof (stop_consistent _ id Hc1) as [Hc2 _].
    pose proof (start_consistent _ id (assign config0 updates) Hc2) as [Hc3 _].
    destruct (startScheduledJob cron_validate id _ _) as [[e|] st2]; assumption.
  - destruct (negb (truthy_opt (get "enabled" (assign config0 updates))));
      simpl; [now apply stop_consistent | assumption].
Qed.

Lemma initialize_consistent (st : state) :
  consistent st -> consistent (initializeScheduledJobs cron_validate st).
Proof.
  unfold initializeScheduledJobs. generalize (map_to_list (fs st)).
  intros l. revert st. induction l as [|[id n] l IH]; intros st Hc; simpl;
    [assumption|].
  apply IH. unfold initialize_one. simpl.
  destruct n as [|files]; [assumption|].
  destruct (readConfig (fs st) id) as [e|config];
    [now apply consistent_log|].
  destruct (truthy_opt (get "enabled" config) && truthy_opt (get "schedule" config));
    [|assumption].
  pose proof (start_consistent st id config Hc) as [Hc2 _].
  destruct (startScheduledJob cron_validate id config st) as [[e|] st2];
    [now apply consistent_log | assumption].
Qed.

(** What enabling does to a plugin whose descriptor has a schedule the
    cron library accepts. *)
Lemma enable_registers (st : state) (id e : string) (config0 : obj) :
  consistent st ->
  readConfig (fs st) id = inr config0 ->
  get "schedule" config0 = Some (Str e) -> e <> "" -> cron_validate e = true ->
  length (triggers id (snd (enable cron_validate id st))) = 1%nat
  /\ readConfig (fs (snd (enable cron_validate id st))) id
     = inr (set "enabled" (Bool true) config0).
Proof.
  intros Hc Hread Hs Hne Hv. unfold enable. rewrite Hread.
  destruct (write_after_read _ _ _ (set "enabled" (Bool true) config0) Hread)
    as (root & -> & Hread' & _).
  assert (Hget : get "schedule" (set "enabled" (Bool true) config0) = Some (Str e))
    by (rewrite get_set_other by discriminate; assumption).
  assert (Hsch : scheduled (set "enabled" (Bool true) config0) = true).
  { unfold scheduled. rewrite Hget, get_set_same. simpl.
    apply String.eqb_neq in Hne. now rewrite Hne. }
  rewrite Hsch.
  assert (Hreg : registers cron_validate (set "enabled" (Bool true) config0))
    by (split; [assumption | eauto]).
  pose proof (consistent_with_fs st root Hc) as Hc1.
  destruct (start_consistent (with_fs st root) id
              (set "enabled" (Bool true) config0) Hc1)
    as (Hc2 & Hfs & _ & Hyes & _).
  destruct (Hyes Hreg) as [Hnone [h Hh]].
  destruct (startScheduledJob cron_validate id
              (set "enabled" (Bool true) config0) (with_fs st root))
    as [[err|] st2]; simpl in *; [discriminate|].
  split.
  - rewrite triggers_count by assumption. now rewrite Hh.
  - now rewrite Hfs.
Qed.

(** The trigger enabling leaves: a new task under a fresh handle, with the
    schedule and the descriptor that was written. *)
Lemma enable_fresh_task (st : state) (id e : string) (config0 : obj) :
  consistent st ->
  readConfig (fs st) id = inr config0 ->
  get "schedule" config0 = Some (Str e) -> e <> "" -> cron_validate e = true ->
  triggers id (snd (enable cron_validate id st))
  = [(next_handle st,
      {| task_plugin := id; task_schedule := e;
         task_config := set "enabled" (Bool true) config0 |})]
  /\ activeJobs (snd (enable cron_validate id st)) !! id = Some (next_handle st)
  /\ next_handle (snd (enable cron_validate id st)) = S (next_handle st).
Proof.
  intros Hc Hread Hs Hne Hv. unfold enable. rewrite Hread.
  destruct (write_after_read _ _ _ (set "enabled" (Bool true) config0) Hread)
    as (root & -> & _ & _).
  set (config := set "enabled" (Bool true) config0).
  assert (Hget : get "schedule" config = Some (Str e))
    by (unfold config; rewrite get_set_other by discriminate; assumption).
  assert (Hsch : scheduled config = true).
  { unfold scheduled, config. rewrite get_set_other by discriminate.
    rewrite Hs, get_set_same. simpl.
    apply String.eqb_neq in Hne. now rewrite Hne. }
  rewrite Hsch.
  destruct (start_cases (with_fs st root) id config)
    as [(_ & e' & He' & ->)|(Hn & _)].
  - rewrite Hget in He'. injection He' as <-. cbn [snd].
    destruct (registered_after_stop (with_fs st root) id e config
                (consistent_with_fs st root Hc))
      as (H1 & H2 & H3 & _).
    auto.
  - exfalso. apply Hn. split; [assumption | eauto].
Qed.

Lemma install_same_jobs (body : obj) (st : state) :
  activeJobs (snd (install body st)) = activeJobs st
  /\ cron_tasks (snd (install body st)) = cron_tasks st
  /\ next_handle (snd (install body st)) = next_handle st.
Proof.
  unfold install.
  destruct (negb (truthy_opt (get "source" body))
            || negb (truthy_opt (get "name" body))); [auto|].
  destruct (get "source" body) as [source|]; [|auto].
  destruct (get "name" body) as [[| | |name| |]|]; auto.
  destruct (mkdir (fs st) name) as [root1|]; [|auto].
  destruct (writeConfig root1 name (install_config source name)) as [root2|];
    [|auto].
  destruct (writeFile root2 name "index.js" (Text (stub_index name)));
    auto.
Qed.

Lemma updatePluginLastRun_same_jobs (id now : string) (st : state) :
  activeJobs (updatePluginLastRun id now st) = activeJobs st
  /\ cron_tasks (updatePluginLastRun id now st) = cron_tasks st
  /\ next_handle (updatePluginLastRun id now st) = next_handle st.
Proof.
  unfold updatePluginLastRun.
  destruct (readConfig (fs st) id) as [e|config]; [auto|].
  destruct (writeConfig (fs st) id (set "lastRun" (Str now) config)); auto.
Qed.

Lemma runPlugin_same_jobs (id now : string) (c : child) (st : state) :
  activeJobs (snd (runPlugin id now c st)) = activeJobs st
  /\ cron_tasks (snd (runPlugin id now c st)) = cron_tasks st
  /\ next_handle (snd (runPlugin id now c st)) = next_handle st.
Proof.
  destruct c as [code stdout stderr|]; [|simpl; auto].
  unfold runPlugin.
  destruct code as [[| |]|]; simpl; apply updatePluginLastRun_same_jobs.
Qed.

Lemma step_consistent (st st' : state) :
  step cron_validate st st' -> consistent st -> consistent st'.
Proof.
  intros Hstep Hc. destruct Hstep.
  - now apply initialize_consistent.
  - now apply (consistent_same_jobs st).
  - apply (consistent_same_jobs st); [| | |assumption]; unfold getPlugin;
      destruct (fs st !! id) as [[|files]|]; try reflexivity;
      destruct (readConfig (fs st) id); try reflexivity;
      destruct (or_else (get "main" o) (Str "index.js")); reflexivity.
  - now apply enable_consistent.
  - now apply disable_consistent.
  - now apply updateConfig_consistent.
  - destruct (install_same_jobs body st) as (H1 & H2 & H3).
    now apply (consistent_same_jobs st).
  - destruct (runPlugin_same_jobs id now c st) as (H1 & H2 & H3).
    now apply (consistent_same_jobs st).
  - unfold fire. destruct (runPlugin_same_jobs id now c st) as (H1 & H2 & H3).
    destruct (runPlugin id now c st) as [[v|m|] st2]; simpl in *;
      apply consistent_log; now apply (consistent_same_jobs st).
Qed.

(** Whatever the server has done, no plugin has two triggers running. *)
Lemma reachable_consistent (root : gmap string node) (st : state) :
  reachable cron_validate root st -> consistent st.
Proof.
  induction 1 as [|st st' _ IH Hstep];
    [apply consistent_initial | now apply (step_consistent st)].
Qed.

Lemma reachable_one_trigger (root : gmap string node) (st : state) (id : string) :
  reachable cron_validate root st -> (length (triggers id st) <= 1)%nat.
Proof.
  intros H. rewrite triggers_count by now apply (reachable_consistent root).
  destruct (activeJobs st !! id); lia.
Qed.

(** A configuration update after which the descriptor is not enabled
    leaves the plugin without a trigger. *)
Lemma updateConfig_disabled_removes_trigger
    (st : state) (id : string) (updates config0 : obj) :
  consistent st -> readConfig (fs st) id = inr config0 ->
  truthy_opt (get "enabled" (assign config0 updates)) = false ->
  length (triggers id (snd (updateConfig cron_validate id updates st))) = 0%nat.
Proof.
  intros Hc Hread Hen. unfold updateConfig. rewrite Hread.
  destruct (write_after_read _ _ _ (assign config0 updates) Hread)
    as (root & -> & _ & _).
  unfold scheduled. rewrite Hen, andb_false_r. simpl.
  destruct (stop_consistent (with_fs st root) id (consistent_with_fs st root Hc))
    as (Hc2 & Hnone & _).
  rewrite triggers_count by assumption. now rewrite Hnone.
Qed.

(** C6.  Under a consistent scheduler state, after
    [startScheduledJob(id, config)] the state is consistent again, so no
    plugin has more than one running trigger; the plugin [id] has exactly
    one when the descriptor is enabled with a non-empty schedule the cron
    library accepts, and none, with no entry in [activeJobs], when it is
    not enabled or has no schedule, whatever was registered before; the
    triggers of the other plugins are the ones they had.  Enabling a plugin
    with such a schedule leaves it with one trigger, and so does enabling
    it once more.  The trigger the plugin had is stopped in every case: its
    handle is no longer among the running tasks.  When the descriptor is
    registered, the one trigger of the plugin is a new task, under a handle
    no task had, that carries the schedule and the descriptor of this call,
    and it is that handle [activeJobs] holds; when the descriptor is not
    enabled, has no schedule or has a schedule the library refuses, no task
    is added.  Enabling twice leaves the task of the second call, not that
    of the first. *)
Theorem startScheduledJob_one_trigger (st : state) (id : string) (config : obj) :
  consistent st ->
  let st' := snd (startScheduledJob cron_validate id config st) in
  consistent st'
  /\ (forall id', (length (triggers id' st') <= 1)%nat)
  /\ (registers cron_validate config -> length (triggers id st') = 1%nat)
  /\ (scheduled config = false ->
        length (triggers id st') = 0%nat /\ activeJobs st' !! id = None)
  /\ (forall id', id' <> id ->
        length (triggers id' st') = length (triggers id' st))
  /\ (forall (config0 : obj) (e : string),
        readConfig (fs st) id = inr config0 ->
        get "schedule" config0 = Some (Str e) -> e <> "" ->
        cron_validate e = true ->
        let once := snd (enable cron_validate id st) in
        let twice := snd (enable cron_validate id once) in
        length (triggers id once) = 1%nat /\ length (triggers id twice) = 1%nat)
  /\ (forall (h : nat) (tk : task),
        activeJobs st !! id = Some h -> ~ In (h, tk) (cron_tasks st'))
  /\ (registers cron_validate config ->
        exists e : string,
          get "schedule" config = Some (Str e)
          /\ triggers id st'
             = [(next_handle st,
                 {| task_plugin := id; task_schedule := e;
                    task_config := config |})]
          /\ activeJobs st' !! id = Some (next_handle st)
          /\ (forall tk : task, ~ In (next_handle st, tk) (cron_tasks st)))
  /\ (scheduled config = false
      \/ (exists e : string,
            get "schedule" config = Some (Str e) /\ cron_validate e = false) ->
        triggers id st' = [] /\ activeJobs st' !! id = None
        /\ (forall ht : nat * task,
              In ht (cron_tasks st') -> In ht (cron_tasks st)))
  /\ (forall id', id' <> id -> triggers id' st' = triggers id' st)
  /\ (forall (config0 : obj) (e : string),
        readConfig (fs st) id = inr config0 ->
        get "schedule" config0 = Some (Str e) -> e <> "" ->
        cron_validate e = true ->
        let once := snd (enable cron_validate id st) in
        let twice := snd (enable cron_validate id once) in
        let tk := {| task_plugin := id; task_schedule := e;
                     task_config := set "enabled" (Bool true) config0 |} in
        triggers id once = [(next_handle st, tk)]
        /\ triggers id twice = [(S (next_handle st), tk)]
        /\ activeJobs twice !! id = Some (S (next_handle st))).
Proof.
  intros Hc st'.
  destruct (start_consistent st id config Hc) as (Hc' & _ & Hother & Hreg & Hnot).
  fold st' in Hc', Hother, Hreg, Hnot.
  destruct (stop_triggers st id Hc) as (Hnil & Hsame & Hgone & Hsub).
  split; [assumption|].
  split; [|split; [|split; [|split; [|split; [|split; [|split; [|split;
    [|split]]]]]]]].
  - intros id'. rewrite triggers_count by assumption.
    destruct (activeJobs st' !! id'); lia.
  - intros Hr. rewrite triggers_count by assumption.
    destruct (Hreg Hr) as [_ [h ->]]. reflexivity.
  - intros Hs. split.
    + rewrite triggers_count by assumption. rewrite Hnot; [reflexivity|].
      intros [Hs' _]. congruence.
    + apply Hnot. intros [Hs' _]. congruence.
  - intros id' Hne. rewrite !triggers_count by assumption.
    now rewrite Hother.
  - intros config0 e Hread Hs Hne Hv once twice. split.
    + now apply (enable_registers st id e config0).
    + destruct (enable_registers st id e config0) as [_ Hread']; try assumption.
      apply (enable_registers _ id e (set "enabled" (Bool true) config0));
        try assumption.
      * now apply enable_consistent.
      * now rewrite get_set_other by discriminate.
  - intros h tk E. unfold st'.
    destruct (start_cases st id config) as [(_ & e & _ & ->)|(_ & ->)].
    + cbn [snd].
      now apply (registered_after_stop st id e config Hc).
    + now apply Hgone.
  - intros Hr. unfold st'.
    destruct (start_cases st id config) as [(_ & e & He & ->)|(Hn & _)];
      [|contradiction].
    cbn [snd]. exists e.
    destruct (registered_after_stop st id e config Hc)
      as (H1 & H2 & _ & H4 & _).
    auto.
  - intros Hno.
    assert (Hn : ~ registers cron_validate config).
    { intros (Hs & e & He & Hv). destruct Hno as [Hs'|(e' & He' & Hv')];
        congruence. }
    unfold st'.
    destruct (start_cases st id config) as [(Hr & _)|(_ & ->)];
      [contradiction|].
    split; [assumption|]. split; [|assumption].
    now apply stop_consistent.
  - intros id' Hne. unfold st'.
    destruct (start_cases st id config) as [(_ & e & _ & ->)|(_ & ->)].
    + cbn [snd]. now apply (registered_after_stop st id e config Hc).
    + now apply Hsame.
  - intros config0 e Hread Hs Hne Hv once twice tk.
    destruct (enable_fresh_task st id e config0) as (T1 & _ & N1);
      try assumption.
    destruct (enable_registers st id e config0) as [_ Hread']; try assumption.
    destruct (enable_fresh_task once id e (set "enabled" (Bool true) config0))
      as (T2 & A2 & _); try assumption.
    + now apply enable_consistent.
    + now rewrite get_set_other by discriminate.
    + fold once in N1. fold twice in T2, A2.
      rewrite set_twice, N1 in T2. rewrite N1 in A2. auto.
Qed.

(** Disabling a plugin leaves it without a trigger. *)
Lemma disable_removes_trigger (st : state) (id : string) (config0 : obj) :
  consistent st -> readConfig (fs st) id = inr config0 ->
  length (triggers id (snd (disable id st))) = 0%nat
  /\ readConfig (fs (snd (disable id st))) id
     = inr (set "enabled" (Bool false) config0).
Proof.
  intros Hc Hread. unfold disable. rewrite Hread.
  destruct (write_after_read _ _ _ (set "enabled" (Bool false) config0) Hread)
    as (root & -> & Hread' & _).
  simpl.
  destruct (stop_consistent (with_fs st root) id (consistent_with_fs st root Hc))
    as (Hc2 & Hnone & Hfs & _).
  split.
  - rewrite triggers_count by assumption. now rewrite Hnone.
  - now rewrite Hfs.
Qed.

(** A configuration update after which the descriptor is still enabled but
    has no schedule goes through neither branch of the handler: what the
    scheduler holds is what it held. *)
Lemma updateConfig_unscheduled_keeps_jobs
    (st : state) (id : string) (updates config0 : obj) :
  readConfig (fs st) id = inr config0 ->
  truthy_opt (get "enabled" (assign config0 updates)) = true ->
  truthy_opt (get "schedule" (assign config0 updates)) = false ->
  triggers id (snd (updateConfig cron_validate id updates st)) = triggers id st
  /\ activeJobs (snd (updateConfig cron_validate id updates st)) = activeJobs st
  /\ readConfig (fs (snd (updateConfig cron_validate id updates st))) id
     = inr (assign config0 updates).
Proof.
  intros Hread Hen Hsch. unfold updateConfig. rewrite Hread.
  destruct (write_after_read _ _ _ (assign config0 updates) Hread)
    as (root & -> & Hread' & _).
  unfold scheduled. rewrite Hen, Hsch. simpl. auto.
Qed.

End Scheduler.

(** C2.  The plugin [sync] is enabled with an hourly schedule and then its
    schedule is removed by a configuration update: the descriptor on disk
    is enabled with an empty schedule, and the trigger registered when it
    was enabled is still running and still in [activeJobs]. *)
Theorem config_update_keeps_trigger :
  readConfig (fs Samples.sync_enabled) "sync"
  = inr [("name", Str "sync"); ("schedule", Str "0 * * * *");
         ("enabled", Bool true)]
  /\ length (triggers "sync" Samples.sync_enabled) = 1%nat
  /\ readConfig (fs Samples.sync_unscheduled) "sync"
     = inr [("name", Str "sync"); ("schedule", Str ""); ("enabled", Bool true)]
  /\ scheduled [("name", Str "sync"); ("schedule", Str "");
                ("enabled", Bool true)] = false
  /\ length (triggers "sync" Samples.sync_unscheduled) = 1%nat
  /\ activeJobs Samples.sync_unscheduled !! "sync" = Some 0%nat.
Proof. vm_compute. repeat split. Qed.

Lemma startScheduledJob_one_trigger_witness :
  length (triggers "sync" Samples.sync_enabled) = 1%nat
  /\ length (triggers "sync"
               (snd (enable Samples.cron_fields "sync" Samples.sync_enabled)))
     = 1%nat
  /\ triggers "sync"
       (snd (enable Samples.cron_fields "sync" Samples.sync_enabled))
     = [(1%nat,
         {| task_plugin := "sync"; task_schedule := "0 * * * *";
            task_config := set "enabled" (Bool true) Samples.hourly |})].
Proof.
  destruct (startScheduledJob_one_trigger Samples.cron_fields
              (initial Samples.plugin_root) "sync" Samples.hourly
              (consistent_initial Samples.plugin_root))
    as (_ & _ & _ & _ & _ & H & _ & _ & _ & _ & H').
  split; [|split].
  - exact (proj1 (H Samples.hourly "0 * * * *" ltac:(vm_compute; reflexivity)
                    ltac:(reflexivity) ltac:(discriminate)
                    ltac:(vm_compute; reflexivity))).
  - exact (proj2 (H Samples.hourly "0 * * * *" ltac:(vm_compute; reflexivity)
                    ltac:(reflexivity) ltac:(discriminate)
                    ltac:(vm_compute; reflexivity))).
  - exact (proj1 (proj2 (H' Samples.hourly "0 * * * *"
                           ltac:(vm_compute; reflexivity)
                           ltac:(reflexivity) ltac:(discriminate)
                           ltac:(vm_compute; reflexivity)))).
Defined.

(** ** Running a plugin *)

(** C7.  When the child process of [runPlugin] exits, whatever its exit
    code, a descriptor that is read is written back with [lastRun] set to
    the time of the exit, and nothing is logged; when there is no
    [plugin.json] to read (no directory of that name, or a directory
    without the file) the update fails, which leaves the disk as it is and
    a line on the console, and the outcome of the run is the same either
    way.  An exit code other than zero rejects the run with an error that
    carries the code and what the child wrote to its error output; the
    scheduler's jobs are not touched. *)
Theorem runPlugin_records_lastRun
    (st : state) (id now : string) (code : option Z) (stdout stderr : string) :
  let r := runPlugin id now (Closed code stdout stderr) st in
  (forall config : obj,
     readConfig (fs st) id = inr config ->
     readConfig (fs (snd r)) id = inr (set "lastRun" (Str now) config)
     /\ get "lastRun" (set "lastRun" (Str now) config) = Some (Str now)
     /\ (forall id' : string, id' <> id -> fs (snd r) !! id' = fs st !! id')
     /\ console (snd r) = console st)
  /\ (has_descriptor (fs st) id = false ->
        fs (snd r) = fs st
        /\ console (snd r)
           = console st ++ ["Error updating plugin last run time:"])
  /\ (code <> Some 0 ->
        fst r = Rejected ("Plugin failed with exit code " +:+ code_text code
                          +:+ ": " +:+ stderr))
  /\ (code = Some 0 ->
        fst r = Resolved (Obj [("success", Bool true); ("stdout", Str stdout);
                               ("stderr", Str stderr); ("exitCode", Num 0)]))
  /\ activeJobs (snd r) = activeJobs st
  /\ cron_tasks (snd r) = cron_tasks st.
Proof.
  intros r. unfold r, runPlugin.
  assert (Hsnd : snd (match code with
                      | Some 0 =>
                          (Resolved (Obj [("success", Bool true);
                                          ("stdout", Str stdout);
                                          ("stderr", Str stderr);
                                          ("exitCode", Num 0)]),
                           updatePluginLastRun id now st)
                      | _ =>
                          (Rejected ("Plugin failed with exit code "
                                     +:+ code_text code +:+ ": " +:+ stderr),
                           updatePluginLastRun id now st)
                      end) = updatePluginLastRun id now st)
    by (destruct code as [[| |]|]; reflexivity).
  rewrite Hsnd. unfold updatePluginLastRun.
  split; [|split; [|split; [|split; [|split]]]].
  - intros config Hread. rewrite Hread.
    destruct (write_after_read _ _ _ (set "lastRun" (Str now) config) Hread)
      as (root & -> & Hread' & Hframe).
    split; [exact Hread'|]. split; [apply get_set_same|].
    split; [exact Hframe | reflexivity].
  - intros Hno. rewrite (no_descriptor_unread _ _ Hno). split; reflexivity.
  - intros Hcode. destruct code as [[| |]|]; try reflexivity. congruence.
  - intros ->. reflexivity.
  - destruct (readConfig (fs st) id) as [e|config]; [reflexivity|].
    destruct (writeConfig (fs st) id (set "lastRun" (Str now) config));
      reflexivity.
  - destruct (readConfig (fs st) id) as [e|config]; [reflexivity|].
    destruct (writeConfig (fs st) id (set "lastRun" (Str now) config));
      reflexivity.
Qed.

Lemma runPlugin_records_lastRun_witness :
  readConfig
    (fs (snd (runPlugin "sync" "2024-05-01T12:00:00.000Z"
                (Closed (Some 3) "" "boom") Samples.sync_enabled))) "sync"
  = inr [("name", Str "sync"); ("schedule", Str "0 * * * *");
         ("enabled", Bool true); ("lastRun", Str "2024-05-01T12:00:00.000Z")]
  /\ fst (runPlugin "sync" "2024-05-01T12:00:00.000Z"
            (Closed (Some 3) "" "boom") Samples.sync_enabled)
     = Rejected "Plugin failed with exit code 3: boom"
  /\ console
       (snd (runPlugin "draft" "2024-05-01T12:00:00.000Z"
               (Closed (Some 0) "" "") (initial Samples.draft_root)))
     = ["Error updating plugin last run time:"].
Proof.
  destruct (runPlugin_records_lastRun Samples.sync_enabled "sync"
              "2024-05-01T12:00:00.000Z" (Some 3) "" "boom")
    as (H1 & _ & H3 & _).
  destruct (runPlugin_records_lastRun (initial Samples.draft_root) "draft"
              "2024-05-01T12:00:00.000Z" (Some 0) "" "")
    as (_ & H2 & _).
  split; [|split].
  - exact (proj1 (H1 _ ltac:(vm_compute; reflexivity))).
  - exact (H3 ltac:(discriminate)).
  - exact (proj2 (H2 ltac:(vm_compute; reflexivity))).
Defined.

(** ** Installing, listing and reading *)




Lemma not_false_spec (ov : option value) :
  not_false ov = false <-> ov = Some (Bool false).
Proof.
  destruct ov as [[|[]| | | |]|]; simpl; split; congruence.
Qed.

(** C10.  For a plugin directory whose descriptor can be read, the listing
    has the plugin's entry and the single-plugin route, when it answers
    200, has its body with [enabled] reported as [true] unless the
    descriptor's [enabled] is the boolean [false]: a descriptor without
    the key, or with any other value under it, is reported enabled. *)
Theorem enabled_unless_false
    (st : state) (id : string) (files : gmap string file) (config : obj) :
  fs st !! id = Some (Dir files) ->
  readConfig (fs st) id = inr config ->
  (exists entries : list obj,
     fst (listPlugins st) = Res 200 (Obj [("plugins", Arr (map Obj entries))])
     /\ In (describe id config) entries)
  /\ get "enabled" (describe id config)
     = Some (Bool (not_false (get "enabled" config)))
  /\ (forall body : obj,
        fst (getPlugin id st) = Res 200 (Obj body) ->
        get "enabled" body = Some (Bool (not_false (get "enabled" config))))
  /\ (get "main" config = None ->
        exists body : obj, fst (getPlugin id st) = Res 200 (Obj body))
  /\ (not_false (get "enabled" config) = false
      <-> get "enabled" config = Some (Bool false)).
Proof.
  intros Hdir Hread. repeat split.
  - eexists. split; [reflexivity|].
    apply list_elem_of_In, list_elem_of_omap.
    exists (id, Dir files). split.
    + now apply elem_of_map_to_list.
    + unfold list_entry. simpl. now rewrite Hread.
  - unfold getPlugin. rewrite Hdir, Hread. intros body.
    destruct (or_else (get "main" config) (Str "index.js")); simpl;
      try discriminate.
    intros [= <-]. reflexivity.
  - intros Hmain. unfold getPlugin. rewrite Hdir, Hread, Hmain. simpl.
    eexists. reflexivity.
  - apply not_false_spec.
  - apply not_false_spec.
Qed.

Lemma enabled_unless_false_witness :
  get "enabled" Samples.hourly = None
  /\ exists entries : list obj,
       fst (listPlugins (initial Samples.plugin_root))
       = Res 200 (Obj [("plugins", Arr (map Obj entries))])
       /\ In (describe "sync" Samples.hourly) entries
       /\ get "enabled" (describe "sync" Samples.hourly) = Some (Bool true).
Proof.
  split; [reflexivity|].
  destruct (enabled_unless_false (initial Samples.plugin_root) "sync"
              Samples.sync_files Samples.hourly
              ltac:(vm_compute; reflexivity) ltac:(vm_compute; reflexivity))
    as ((entries & H1 & H2) & H3 & _).
  exists entries. repeat split; assumption.
Defined.

End PluginFacts.
(* ===================================================================== *)
(** * More about the store: order, pages, search, counts *)
(* ===================================================================== *)

Module QueryFacts.
Import Json Sqlite EventManager JsonFacts StoreFacts.

(** ** The order of stored values *)

Lemma string_compare_eq (s t : string) : String.compare s t = Eq <-> s = t.
Proof. exact (OrderedTypeEx.String_as_OT.cmp_eq s t). Qed.

Lemma string_compare_lt_trans (s t u : string) :
  String.compare s t = Lt -> String.compare t u = Lt -> String.compare s u = Lt.
Proof.
  intros H1 H2.
  apply OrderedTypeEx.String_as_OT.cmp_lt in H1, H2.
  apply OrderedTypeEx.String_as_OT.cmp_lt.
  exact (OrderedTypeEx.String_as_OT.lt_trans _ _ _ H1 H2).
Qed.

Lemma sql_compare_eq (a b : sqlval) : sql_compare a b = Eq <-> a = b.
Proof.
  destruct a as [|n|s], b as [|m|t]; simpl; try (split; discriminate).
  - split; reflexivity.
  - rewrite Z.compare_eq_iff. split; congruence.
  - rewrite string_compare_eq. split; congruence.
Qed.

Lemma sql_compare_antisym (a b : sqlval) :
  sql_compare b a = CompOpp (sql_compare a b).
Proof.
  destruct a as [|n|s], b as [|m|t]; simpl; try reflexivity.
  - apply Z.compare_antisym.
  - apply OrderedTypeEx.String_as_OT.cmp_antisym.
Qed.

Lemma sql_compare_lt_trans (a b c : sqlval) :
  sql_compare a b = Lt -> sql_compare b c = Lt -> sql_compare a c = Lt.
Proof.
  destruct a as [|n|s], b as [|m|t], c as [|k|u]; simpl;
    try discriminate; try reflexivity.
  - rewrite !Z.compare_lt_iff. lia.
  - apply string_compare_lt_trans.
Qed.

Lemma sql_compare_gt_trans (a b c : sqlval) :
  sql_compare a b = Gt -> sql_compare b c = Gt -> sql_compare a c = Gt.
Proof.
  intros H1 H2.
  rewrite (sql_compare_antisym b a) in H1.
  rewrite (sql_compare_antisym c b) in H2.
  rewrite (sql_compare_antisym c a).
  rewrite (sql_compare_lt_trans c b a); [reflexivity | |].
  - destruct (sql_compare c b); simpl in H2; congruence.
  - destruct (sql_compare b a); simpl in H1; congruence.
Qed.

Lemma precedes_asym (ord : column * bool) (a b : row) :
  precedes ord a b = true -> precedes ord b a = false.
Proof.
  unfold precedes. rewrite (sql_compare_antisym (col (fst ord) a) (col (fst ord) b)).
  destruct (sql_compare (col (fst ord) a) (col (fst ord) b)), (snd ord);
    simpl; congruence.
Qed.

Lemma in_order_trans (ord : column * bool) (a b c : row) :
  in_order ord a b -> in_order ord b c -> in_order ord a c.
Proof.
  unfold in_order, precedes.
  destruct (sql_compare (col (fst ord) b) (col (fst ord) a)) eqn:E1,
           (sql_compare (col (fst ord) c) (col (fst ord) b)) eqn:E2,
           (snd ord); simpl; try discriminate; intros _ _;
    try (apply sql_compare_eq in E1; rewrite <- E1, E2; reflexivity);
    try (apply sql_compare_eq in E2; rewrite E2, E1; reflexivity).
  - now rewrite (sql_compare_lt_trans _ _ _ E2 E1).
  - now rewrite (sql_compare_gt_trans _ _ _ E2 E1).
Qed.

Lemma insert_sorted_sorted (ord : column * bool) (r : row) (l : list row) :
  StronglySorted (in_order ord) l ->
  StronglySorted (in_order ord) (insert_sorted ord r l).
Proof.
  induction l as [|x l IH]; simpl; intros Hs.
  - constructor; constructor.
  - inversion Hs as [|? ? Hs' Hall]; subst.
    destruct (precedes ord x r) eqn:E.
    + constructor; [now apply IH|].
      rewrite List.Forall_forall in *. intros y Hy.
      apply in_insert_sorted in Hy as [->|Hy]; [|now apply Hall].
      now apply precedes_asym.
    + constructor; [assumption|].
      constructor; [exact E|].
      rewrite List.Forall_forall in *. intros y Hy.
      apply (in_order_trans ord r x y); [exact E | now apply Hall].
Qed.

Lemma order_by_sorted (ord : column * bool) (l : list row) :
  StronglySorted (in_order ord) (order_by ord l).
Proof.
  induction l as [|x l IH]; simpl; [constructor|].
  now apply insert_sorted_sorted.
Qed.

Lemma sorted_skipn {A : Type} (R : A -> A -> Prop) (n : nat) (l : list A) :
  StronglySorted R l -> StronglySorted R (skipn n l).
Proof.
  revert l. induction n as [|n IH]; intros l Hs; [assumption|].
  destruct l as [|x l]; [constructor|]. simpl.
  inversion Hs; subst. now apply IH.
Qed.

Lemma sorted_firstn {A : Type} (R : A -> A -> Prop) (n : nat) (l : list A) :
  StronglySorted R l -> StronglySorted R (firstn n l).
Proof.
  revert l. induction n as [|n IH]; intros l Hs; [constructor|].
  destruct l as [|x l]; [constructor|]. simpl.
  inversion Hs as [|? ? Hs' Hall]; subst. constructor; [now apply IH|].
  rewrite List.Forall_forall in *. intros y Hy. apply Hall.
  rewrite <- (firstn_skipn n l). apply in_or_app. now left.
Qed.

Lemma limit_offset_sorted (R : row -> row -> Prop) (limit offset : Z) (l : list row) :
  StronglySorted R l -> StronglySorted R (limit_offset limit offset l).
Proof.
  intros Hs. unfold limit_offset.
  destruct (limit <? 0); [|apply sorted_firstn]; now apply sorted_skipn.
Qed.

Lemma sorted_lookup {A : Type} (R : A -> A -> Prop) (l : list A) (i j : nat) (a b : A) :
  StronglySorted R l -> (i < j)%nat ->
  l !! i = Some a -> l !! j = Some b -> R a b.
Proof.
  intros Hs. revert i j. induction Hs as [|x l Hs IH Hall]; intros i j Hij Ha Hb.
  - discriminate.
  - destruct j as [|j]; [lia|]. simpl in Hb.
    destruct i as [|i]; simpl in Ha.
    + injection Ha as <-. rewrite List.Forall_forall in Hall. apply Hall.
      apply list_elem_of_In. now apply (list_elem_of_lookup_2 l j).
    + apply (IH i j); [lia | assumption | assumption].
Qed.

Lemma parse_rows_lookup (rs : list row) (events : list obj) (i : nat) (e : obj) :
  parse_rows rs = Ok events -> events !! i = Some e ->
  exists r, rs !! i = Some r /\ parse_fields (row_object r) = Ok e.
Proof.
  revert events i. induction rs as [|r rs IH]; simpl; intros events i H He.
  - injection H as <-. discriminate.
  - destruct (parse_fields (row_object r)) as [o|] eqn:P; [|discriminate].
    destruct (parse_rows rs) as [os|]; [|discriminate].
    injection H as <-. destruct i as [|i]; simpl in He.
    + injection He as <-. exists r. auto.
    + destruct (IH os i eq_refl He) as (r' & Hr' & Pr'). exists r'. auto.
Qed.

Lemma parse_rows_length (rs : list row) (events : list obj) :
  parse_rows rs = Ok events -> length events = length rs.
Proof.
  revert events. induction rs as [|r rs IH]; simpl; intros events H.
  - now injection H as <-.
  - destruct (parse_fields (row_object r)) as [o|]; [|discriminate].
    destruct (parse_rows rs) as [os|]; [|discriminate].
    injection H as <-. simpl. f_equal. now apply IH.
Qed.

Lemma parse_rows_app (a b : list row) :
  parse_rows (a ++ b)
  = match parse_rows a with
    | Ok ea => match parse_rows b with
               | Ok eb => Ok (ea ++ eb)
               | Err e => Err e
               end
    | Err e => Err e
    end.
Proof.
  induction a as [|r a IH]; simpl.
  - destruct (parse_rows b); reflexivity.
  - destruct (parse_fields (row_object r)); [|reflexivity].
    rewrite IH. destruct (parse_rows a); [|reflexivity].
    destruct (parse_rows b); reflexivity.
Qed.

Lemma parse_fields_decoded (r : row) (e : obj) :
  parse_fields (row_object r) = Ok e ->
  exists m u g l, e = decoded r m u g l.
Proof.
  unfold parse_fields.
  destruct (JSON_parse (or_else (get "metadata" (row_object r)) (Str "{}")))
    as [m|]; [|discriminate].
  destruct (JSON_parse (or_else (get "linked_uris" (row_object r)) (Str "[]")))
    as [u|]; [|discriminate].
  destruct (JSON_parse (or_else (get "tags" (row_object r)) (Str "[]")))
    as [g|]; [|discriminate].
  destruct (if truthy_opt (get "location" (row_object r))
            then JSON_parse_field "location" (row_object r) else Ok Null)
    as [l|]; [|discriminate].
  intros [= <-]. exists m, u, g, l. reflexivity.
Qed.

(** A column that is not one of the four compound ones is returned as the
    driver reads it. *)
Lemma parse_fields_scalar (r : row) (e : obj) (c : column) :
  parse_fields (row_object r) = Ok e ->
  c <> Cmetadata -> c <> Clinked_uris -> c <> Ctags -> c <> Clocation ->
  get (column_name c) e = Some (to_js (col c r)).
Proof.
  intros P. destruct (parse_fields_decoded r e P) as (m & u & g & l & ->).
  rewrite decoded_explicit. destruct c; simpl; congruence.
Qed.


(** ** Order and pages *)

Lemma newest_first_spec (a b : row) :
  in_order (Ctimestamp, true) a b ->
  sql_compare (c_timestamp a) (c_timestamp b) <> Lt.
Proof.
  unfold in_order, precedes. simpl.
  rewrite (sql_compare_antisym (c_timestamp a) (c_timestamp b)).
  destruct (sql_compare (c_timestamp a) (c_timestamp b)); simpl; congruence.
Qed.

Lemma select_sorted (o : options) (t : table) :
  StronglySorted (in_order (default (Ctimestamp, true) (o_orderBy o)))
    (select o t).
Proof. unfold select. apply limit_offset_sorted, order_by_sorted. Qed.

Lemma select_in (o : options) (t : table) (r : row) :
  In r (select o t) -> In r t /\ where_clause o r = true.
Proof.
  unfold select. intros H.
  apply in_limit_offset, in_order_by, filter_In in H. exact H.
Qed.

Lemma lookup_In {A : Type} (l : list A) (i : nat) (x : A) :
  l !! i = Some x -> In x l.
Proof. intros H. apply list_elem_of_In. now apply (list_elem_of_lookup_2 l i). Qed.

(** X1.  The events [getEvents] returns are in the order asked for: of two
    events of the result, the one that comes first does not sort after the
    other under [orderBy].  Without an [orderBy] the newest comes first: the
    timestamp of an earlier event of the result is never smaller than that
    of a later one, as SQLite compares the stored values.  There are never
    more events than the limit, which is 100 when none is given. *)
Theorem getEvents_in_order
    (t : table) (o : options) (events : list obj) :
  getEvents t o = Ok events ->
  (forall (i j : nat) (ei ej : obj),
     (i < j)%nat -> events !! i = Some ei -> events !! j = Some ej ->
     exists ri rj : row,
       In ri t /\ In rj t
       /\ parse_fields (row_object ri) = Ok ei
       /\ parse_fields (row_object rj) = Ok ej
       /\ in_order (default (Ctimestamp, true) (o_orderBy o)) ri rj
       /\ (o_orderBy o = None ->
           get "timestamp" ei = Some (to_js (c_timestamp ri))
           /\ get "timestamp" ej = Some (to_js (c_timestamp rj))
           /\ sql_compare (c_timestamp ri) (c_timestamp rj) <> Lt))
  /\ (0 <= default 100 (o_limit o) ->
      (length events <= Z.to_nat (default 100%Z (o_limit o)))%nat).
Proof.
  intros H. unfold getEvents in H. split.
  - intros i j ei ej Hij Hi Hj.
    destruct (parse_rows_lookup _ _ _ _ H Hi) as (ri & Hri & Pi).
    destruct (parse_rows_lookup _ _ _ _ H Hj) as (rj & Hrj & Pj).
    pose proof (sorted_lookup _ _ _ _ _ _ (select_sorted o t) Hij Hri Hrj)
      as Hord.
    exists ri, rj.
    split; [exact (proj1 (select_in _ _ _ (lookup_In _ _ _ Hri)))|].
    split; [exact (proj1 (select_in _ _ _ (lookup_In _ _ _ Hrj)))|].
    repeat (split; [assumption|]).
    intros Hnone. rewrite Hnone in Hord. simpl in Hord.
    split; [apply (parse_fields_scalar ri ei Ctimestamp Pi); discriminate|].
    split; [apply (parse_fields_scalar rj ej Ctimestamp Pj); discriminate|].
    now apply newest_first_spec.
  - intros Hl. rewrite (parse_rows_length _ _ H). unfold select, limit_offset.
    assert (E : (default 100 (o_limit o) <? 0) = false)
      by (apply Z.ltb_ge; lia).
    rewrite E. apply firstn_le_length.
Qed.

Lemma getEvents_in_order_witness :
  exists ri rj : row,
    parse_fields (row_object ri) = Ok Samples.walk_stored
    /\ parse_fields (row_object rj) = Ok Samples.gym_stored
    /\ sql_compare (c_timestamp ri) (c_timestamp rj) <> Lt.
Proof.
  destruct (getEvents_in_order Samples.two_events Samples.everything
              [Samples.walk_stored; Samples.gym_stored]
              ltac:(vm_compute; reflexivity)) as [Hord _].
  destruct (Hord 0%nat 1%nat Samples.walk_stored Samples.gym_stored
              ltac:(lia) ltac:(reflexivity) ltac:(reflexivity))
    as (ri & rj & _ & _ & Pi & Pj & _ & H).
  exists ri, rj. destruct (H eq_refl) as (_ & _ & Hc). auto.
Defined.

Lemma firstn_plus {A : Type} (n m : nat) (l : list A) :
  firstn (n + m) l = firstn n l ++ firstn m (skipn n l).
Proof.
  revert l. induction n as [|n IH]; intros l; [reflexivity|].
  destruct l as [|x l]; simpl; [now rewrite firstn_nil | now rewrite IH].
Qed.

Lemma skipn_plus {A : Type} (n m : nat) (l : list A) :
  skipn (n + m) l = skipn m (skipn n l).
Proof.
  revert l. induction n as [|n IH]; intros l; [reflexivity|].
  destruct l as [|x l]; simpl; [now rewrite skipn_nil | apply IH].
Qed.

(** X2.  Pages of [getEvents] fit together: for the same filter and order,
    the page of [n] events at offset [k] followed by the page of [m] events
    at offset [k + n] is the page of [n + m] events at offset [k], so no
    event is returned twice or skipped between consecutive pages, and a page
    never holds more events than its limit. *)
Theorem getEvents_pages
    (t : table) (o : options) (n m k : Z) (a b : list obj) :
  0 <= n -> 0 <= m -> 0 <= k ->
  getEvents t (page o n k) = Ok a ->
  getEvents t (page o m (k + n)) = Ok b ->
  getEvents t (page o (n + m) k) = Ok (a ++ b)
  /\ (length a <= Z.to_nat n)%nat.
Proof.
  intros Hn Hm Hk Ha Hb. unfold getEvents, select in *. simpl in *.
  change (where_clause (page o n k)) with (where_clause o) in Ha.
  change (where_clause (page o m (k + n))) with (where_clause o) in Hb.
  change (where_clause (page o (n + m) k)) with (where_clause o).
  set (l := order_by (default (Ctimestamp, true) (o_orderBy o))
              (List.filter (where_clause o) t)) in *.
  unfold limit_offset in *.
  assert (E1 : (n <? 0) = false) by (apply Z.ltb_ge; lia).
  assert (E2 : (m <? 0) = false) by (apply Z.ltb_ge; lia).
  assert (E3 : (n + m <? 0) = false) by (apply Z.ltb_ge; lia).
  rewrite E1 in Ha. rewrite E2 in Hb. rewrite E3.
  rewrite Z2Nat.inj_add in Hb by lia. rewrite skipn_plus in Hb.
  rewrite Z2Nat.inj_add by lia. rewrite firstn_plus, parse_rows_app.
  rewrite Ha, Hb. split; [reflexivity|].
  rewrite (parse_rows_length _ _ Ha). apply firstn_le_length.
Qed.

Lemma getEvents_pages_witness :
  getEvents Samples.two_events (page Samples.everything 2 0)
  = Ok ([Samples.walk_stored] ++ [Samples.gym_stored]).
Proof.
  exact (proj1 (getEvents_pages Samples.two_events Samples.everything 1 1 0
                  [Samples.walk_stored] [Samples.gym_stored]
                  ltac:(lia) ltac:(lia) ltac:(lia)
                  ltac:(vm_compute; reflexivity) ltac:(vm_compute; reflexivity))).
Defined.

(** ** Deleting *)

Lemma removed_iff_present {A : Type} (p : A -> bool) (l : list A) :
  Nat.ltb (length (List.filter (fun x => negb (p x)) l)) (length l)
  = existsb p l.
Proof.
  induction l as [|x l IH]; simpl; [reflexivity|].
  destruct (p x); simpl.
  - apply Nat.ltb_lt.
    pose proof (List.filter_length_le (fun x => negb (p x)) l). lia.
  - exact IH.
Qed.

Lemma find_filter_none {A : Type} (p : A -> bool) (l : list A) :
  List.find p (List.filter (fun x => negb (p x)) l) = None.
Proof.
  induction l as [|x l IH]; simpl; [reflexivity|].
  destruct (p x) eqn:E; simpl; [exact IH | now rewrite E].
Qed.

Lemma find_filter_other {A : Type} (p q : A -> bool) (l : list A) :
  (forall x, q x = true -> p x = true) ->
  List.find q (List.filter p l) = List.find q l.
Proof.
  intros H. induction l as [|x l IH]; simpl; [reflexivity|].
  destruct (q x) eqn:Eq.
  - rewrite (H x Eq). simpl. now rewrite Eq.
  - destruct (p x); simpl; [now rewrite Eq | exact IH].
Qed.

Lemma filter_twice {A : Type} (p : A -> bool) (l : list A) :
  List.filter p (List.filter p l) = List.filter p l.
Proof.
  induction l as [|x l IH]; simpl; [reflexivity|].
  destruct (p x) eqn:E; simpl; [now rewrite E, IH | exact IH].
Qed.

Lemma has_id_text (id : string) (r : row) :
  has_id (SText id) r = true <-> c_id r = SText id.
Proof. unfold has_id, sql_eq. apply sqlval_eqb_text. Qed.

Lemma deleteEvent_found (t : table) (id : string) :
  fst (deleteEvent t id) = existsb (has_id (SText id)) t.
Proof. unfold deleteEvent. simpl. apply removed_iff_present. Qed.

Lemma deleteEvent_gone (t : table) (id : string) :
  getEvent (snd (deleteEvent t id)) id = Ok None.
Proof. unfold deleteEvent, getEvent. simpl. now rewrite find_filter_none. Qed.

Lemma deleteEvent_again (t : table) (id : string) :
  deleteEvent (snd (deleteEvent t id)) id = (false, snd (deleteEvent t id)).
Proof.
  unfold deleteEvent. simpl. rewrite filter_twice. f_equal.
  apply Nat.ltb_irrefl.
Qed.

(** X3.  [deleteEvent(id)] answers whether an event of that id was stored.
    Afterwards [getEvent(id)] gives [null], every other event is read as
    before, the table holds exactly the rows of another id, and deleting
    the same id again answers [false] and changes nothing. *)
Theorem deleteEvent_removes (t : table) (id : string) :
  fst (deleteEvent t id) = existsb (has_id (SText id)) t
  /\ getEvent (snd (deleteEvent t id)) id = Ok None
  /\ (forall id' : string,
        id' <> id -> getEvent (snd (deleteEvent t id)) id' = getEvent t id')
  /\ (forall x : row,
        In x (snd (deleteEvent t id)) <-> In x t /\ c_id x <> SText id)
  /\ deleteEvent (snd (deleteEvent t id)) id
     = (false, snd (deleteEvent t id)).
Proof.
  split; [apply deleteEvent_found|]. split; [apply deleteEvent_gone|].
  split; [|split; [|apply deleteEvent_again]]; unfold deleteEvent; simpl.
  - intros id' Hne. unfold getEvent. rewrite find_filter_other; [reflexivity|].
    intros x Hx. apply has_id_text in Hx. apply negb_true_iff.
    destruct (has_id (SText id) x) eqn:E; [|reflexivity].
    apply has_id_text in E. congruence.
  - intros x. rewrite filter_In, negb_true_iff.
    split; intros [Hin Hx]; (split; [assumption|]).
    + intros Hid. apply has_id_text in Hid. congruence.
    + destruct (has_id (SText id) x) eqn:E; [|reflexivity].
      apply has_id_text in E. contradiction.
Qed.


(** ** Searching *)

Lemma order_by_length (ord : column * bool) (l : list row) :
  length (order_by ord l) = length l.
Proof.
  induction l as [|y l IH]; simpl; [reflexivity|]. rewrite <- IH.
  generalize (order_by ord l). intros l0.
  induction l0 as [|z l0 IH0]; simpl; [reflexivity|].
  destruct (precedes ord z y); simpl; [now rewrite IH0 | reflexivity].
Qed.

Lemma search_clause_spec (query : string) (r : row) :
  search_clause query r = true <->
  sql_like (c_title r) ("%" +:+ query +:+ "%") = true
  \/ sql_like (c_metadata r) ("%" +:+ query +:+ "%") = true
  \/ sql_like (c_tags r) ("%" +:+ query +:+ "%") = true.
Proof.
  unfold search_clause. cbv zeta. rewrite !orb_true_iff. tauto.
Qed.

(** X4.  Every event [searchEvents(query)] returns comes from a stored row
    whose title, metadata text or tags text matches [LIKE '%query%']; there
    are never more of them than the limit (50 unless one is given); when the
    limit covers all the matching rows each of them is returned; and the
    newest comes first. *)
Theorem searchEvents_matches
    (t : table) (query : string) (limit : option Z) (events : list obj) :
  searchEvents t query limit = Ok events ->
  (forall e : obj,
     In e events ->
     exists r : row,
       In r t /\ parse_fields (row_object r) = Ok e
       /\ (sql_like (c_title r) ("%" +:+ query +:+ "%") = true
           \/ sql_like (c_metadata r) ("%" +:+ query +:+ "%") = true
           \/ sql_like (c_tags r) ("%" +:+ query +:+ "%") = true))
  /\ (0 <= default 50 limit ->
      (length events <= Z.to_nat (default 50%Z limit))%nat)
  /\ (forall r : row,
        In r t -> search_clause query r = true ->
        Z.of_nat (length (List.filter (search_clause query) t))
        <= default 50 limit ->
        exists e : obj, In e events /\ parse_fields (row_object r) = Ok e)
  /\ (forall (i j : nat) (ei ej : obj),
        (i < j)%nat -> events !! i = Some ei -> events !! j = Some ej ->
        exists ri rj : row,
          In ri t /\ In rj t
          /\ parse_fields (row_object ri) = Ok ei
          /\ parse_fields (row_object rj) = Ok ej
          /\ sql_compare (c_timestamp ri) (c_timestamp rj) <> Lt).
Proof.
  intros H. unfold searchEvents in H.
  split; [|split; [|split]].
  - intros e He. destruct (parse_rows_in _ _ _ H He) as (r & Hr & Pr).
    apply in_limit_offset, in_order_by, filter_In in Hr as [Hr Hw].
    apply search_clause_spec in Hw. exists r. auto.
  - intros Hl. rewrite (parse_rows_length _ _ H). unfold limit_offset.
    assert (E : (default 50 limit <? 0) = false) by (apply Z.ltb_ge; lia).
    rewrite E. apply firstn_le_length.
  - intros r Hr Hw Hlim. rewrite limit_offset_all in H.
    + apply (parse_rows_all _ _ r H). apply in_order_by, filter_In. auto.
    + now rewrite order_by_length.
  - intros i j ei ej Hij Hi Hj.
    destruct (parse_rows_lookup _ _ _ _ H Hi) as (ri & Hri & Pi).
    destruct (parse_rows_lookup _ _ _ _ H Hj) as (rj & Hrj & Pj).
    assert (Hs : StronglySorted (in_order (Ctimestamp, true))
                   (limit_offset (default 50 limit) 0
                      (order_by (Ctimestamp, true)
                         (List.filter (search_clause query) t))))
      by apply limit_offset_sorted, order_by_sorted.
    pose proof (sorted_lookup _ _ _ _ _ _ Hs Hij Hri Hrj) as Hord.
    exists ri, rj.
    apply lookup_In, in_limit_offset, in_order_by, filter_In in Hri as [Hri _].
    apply lookup_In, in_limit_offset, in_order_by, filter_In in Hrj as [Hrj _].
    repeat (split; [assumption|]). now apply newest_first_spec.
Qed.

Lemma searchEvents_matches_witness :
  exists r : row,
    In r Samples.two_events
    /\ parse_fields (row_object r) = Ok Samples.walk_stored
    /\ (sql_like (c_title r) ("%" +:+ "WALK" +:+ "%") = true
        \/ sql_like (c_metadata r) ("%" +:+ "WALK" +:+ "%") = true
        \/ sql_like (c_tags r) ("%" +:+ "WALK" +:+ "%") = true).
Proof.
  destruct (searchEvents_matches Samples.two_events "WALK" None
              [Samples.walk_stored] ltac:(vm_compute; reflexivity))
    as (H & _).
  exact (H Samples.walk_stored ltac:(simpl; auto)).
Defined.

Lemma lower_fixed (c d : ascii) :
  lower d = lower c -> Ascii.eqb c "_" = true -> d = c.
Proof.
  intros H E. apply Ascii.eqb_eq in E. subst c.
  destruct d as [[] [] [] [] [] [] [] []]; vm_compute in H; congruence.
Qed.

Lemma like_prefix_fold (query found post : string) :
  lower_text found = lower_text query ->
  like (query +:+ "%") (found +:+ post) = true.
Proof.
  revert found. induction query as [|c query IH]; intros found H.
  - destruct found; [apply like_rest | discriminate].
  - destruct found as [|d found]; [discriminate|].
    simpl in H. injection H as Hc Hrest.
    change (like (String c query +:+ "%") (String d found +:+ post))
      with (if Ascii.eqb c "%"
            then star (like (query +:+ "%")) (String d (found +:+ post))
            else if Ascii.eqb c "_" then
              like (query +:+ "%")
                (if (192 <=? N_of_ascii d)%N
                 then skip_continuation (found +:+ post) else found +:+ post)
            else Ascii.eqb (lower c) (lower d)
                 && like (query +:+ "%") (found +:+ post)).
    destruct (Ascii.eqb c "%") eqn:E1.
    + apply star_skip, star_here. now apply IH.
    + destruct (Ascii.eqb c "_") eqn:E2.
      * rewrite (lower_fixed c d Hc E2). apply Ascii.eqb_eq in E2. subst c.
        simpl. now apply IH.
      * rewrite Hc, Ascii.eqb_refl. simpl. now apply IH.
Qed.

Lemma like_substring_fold (query found pre post : string) :
  lower_text found = lower_text query ->
  like ("%" +:+ query +:+ "%") (pre +:+ found +:+ post) = true.
Proof.
  intros H.
  change (like ("%" +:+ query +:+ "%") (pre +:+ found +:+ post))
    with (star (like (query +:+ "%")) (pre +:+ found +:+ post)).
  apply star_app, star_here. now apply like_prefix_fold.
Qed.

(** X5.  The search is by substring and blind to the case of ASCII
    letters: a row whose title, metadata text or tags text contains the
    query, in whatever letter case, satisfies the search condition (so it
    is among the results when the limit covers the matches). *)
Theorem search_clause_substring (query found pre post : string) (r : row) :
  lower_text found = lower_text query ->
  c_title r = SText (pre +:+ found +:+ post)
  \/ c_metadata r = SText (pre +:+ found +:+ post)
  \/ c_tags r = SText (pre +:+ found +:+ post) ->
  search_clause query r = true.
Proof.
  intros H Hr. apply search_clause_spec.
  destruct Hr as [Hr|[Hr|Hr]]; rewrite Hr; unfold sql_like;
    rewrite (like_substring_fold query found pre post H); auto.
Qed.

Lemma search_clause_substring_witness :
  In Samples.walk_row Samples.two_events
  /\ search_clause "WALK" Samples.walk_row = true.
Proof.
  split; [vm_compute; auto|].
  apply (search_clause_substring "WALK" "Walk" "Evening " "" Samples.walk_row);
    [reflexivity | left; reflexivity].
Defined.


(** ** Counting *)

Lemma same_group_eq (a b : sqlval) : same_group a b = true <-> a = b.
Proof.
  unfold same_group. rewrite <- sql_compare_eq.
  destruct (sql_compare a b); split; congruence.
Qed.

Lemma same_group_refl (a : sqlval) : same_group a a = true.
Proof. now apply same_group_eq. Qed.

Lemma same_group_lt (a b : sqlval) :
  sql_compare a b = Lt -> same_group a b = false /\ same_group b a = false.
Proof.
  intros H. unfold same_group. rewrite (sql_compare_antisym a b), H. auto.
Qed.

Lemma counted_bump (k : sqlval) (l : list (sqlval * nat)) :
  counted (bump k l) = S (counted l).
Proof.
  induction l as [|[x n] l IH]; simpl; [reflexivity|].
  destruct (sql_compare k x); simpl; [reflexivity | reflexivity |].
  rewrite IH. lia.
Qed.

Lemma bump_keys (k k' : sqlval) (l : list (sqlval * nat)) :
  In k' (map fst (bump k l)) <-> k' = k \/ In k' (map fst l).
Proof.
  induction l as [|[x n] l IH]; simpl; [intuition|].
  destruct (sql_compare k x) eqn:E; simpl.
  - apply sql_compare_eq in E. subst x. intuition.
  - intuition.
  - rewrite IH. intuition.
Qed.

Lemma bump_ascending (k : sqlval) (l : list (sqlval * nat)) :
  ascending l -> ascending (bump k l).
Proof.
  unfold ascending. induction l as [|[x n] l IH]; simpl; intros Hs.
  - constructor; constructor.
  - inversion Hs as [|? ? Hs' Hall]; subst.
    destruct (sql_compare k x) eqn:E.
    + apply sql_compare_eq in E. subst x. constructor; assumption.
    + constructor; [assumption|]. constructor; [exact E|].
      rewrite List.Forall_forall in *. intros y Hy. simpl.
      apply (sql_compare_lt_trans k x (fst y)); [exact E | now apply Hall].
    + constructor; [now apply IH|].
      rewrite List.Forall_forall in *. intros [y m] Hy. simpl.
      assert (Hk : In y (map fst (bump k l)))
        by (apply in_map_iff; exists (y, m); auto).
      apply bump_keys in Hk as [->|Hk].
      * rewrite (sql_compare_antisym k x), E. reflexivity.
      * apply in_map_iff in Hk as ([y' m'] & Hy' & Hin). simpl in Hy'.
        subst y'. exact (Hall _ Hin).
Qed.

Lemma count_of_above (k : sqlval) (l : list (sqlval * nat)) :
  Forall (fun kn => sql_compare k (fst kn) = Lt) l -> count_of k l = 0%nat.
Proof.
  unfold count_of. induction l as [|[x n] l IH]; intros H; [reflexivity|].
  inversion H as [|? ? Hx Hl]; subst. simpl in *.
  destruct (same_group_lt _ _ Hx) as [-> _]. now apply IH.
Qed.

Lemma count_of_head (k x : sqlval) (n : nat) (l : list (sqlval * nat)) :
  count_of k ((x, n) :: l) = if same_group k x then n else count_of k l.
Proof. unfold count_of. simpl. now destruct (same_group k x). Qed.

Lemma count_of_bump (k k' : sqlval) (l : list (sqlval * nat)) :
  ascending l ->
  count_of k' (bump k l)
  = (count_of k' l + if same_group k' k then 1 else 0)%nat.
Proof.
  unfold ascending. induction l as [|[x n] l IH]; intros Hs.
  - simpl. rewrite count_of_head. unfold count_of. simpl.
    now destruct (same_group k' k).
  - inversion Hs as [|? ? Hs' Hall]; subst. simpl.
    destruct (sql_compare k x) eqn:E.
    + apply sql_compare_eq in E. subst x. rewrite !count_of_head.
      destruct (same_group k' k); lia.
    + rewrite !count_of_head.
      destruct (same_group k' k) eqn:Ek; [|lia].
      apply same_group_eq in Ek. subst k'.
      destruct (same_group_lt _ _ E) as [-> _].
      rewrite count_of_above; [reflexivity|].
      rewrite List.Forall_forall in *. intros y Hy.
      apply (sql_compare_lt_trans k x (fst y)); [exact E | now apply Hall].
    + rewrite !count_of_head.
      destruct (same_group k' x) eqn:Ex.
      * apply same_group_eq in Ex. subst k'.
        assert (Hne : same_group x k = false).
        { unfold same_group. now rewrite (sql_compare_antisym k x), E. }
        rewrite Hne. lia.
      * now apply IH.
Qed.

Lemma count_of_in (k : sqlval) (n : nat) (l : list (sqlval * nat)) :
  ascending l -> In (k, n) l -> count_of k l = n.
Proof.
  unfold ascending. induction l as [|[x m] l IH]; intros Hs Hin; [contradiction|].
  inversion Hs as [|? ? Hs' Hall]; subst. rewrite count_of_head.
  destruct Hin as [[= -> ->]|Hin]; [now rewrite same_group_refl|].
  rewrite List.Forall_forall in Hall. pose proof (Hall _ Hin) as Hlt.
  simpl in Hlt. destruct (same_group_lt _ _ Hlt) as [_ ->]. now apply IH.
Qed.

Lemma bump_positive (k : sqlval) (l : list (sqlval * nat)) :
  Forall (fun kn => (0 < snd kn)%nat) l ->
  Forall (fun kn => (0 < snd kn)%nat) (bump k l).
Proof.
  induction l as [|[x n] l IH]; simpl; intros H.
  - constructor; [simpl; lia | constructor].
  - inversion H as [|? ? Hx Hl]; subst.
    destruct (sql_compare k x).
    + constructor; [simpl; lia | assumption].
    + constructor; [simpl; lia | assumption].
    + constructor; [assumption | now apply IH].
Qed.

Lemma ascending_NoDup (l : list (sqlval * nat)) :
  ascending l -> List.NoDup (map fst l).
Proof.
  unfold ascending. induction 1 as [|[x n] l Hs IH Hall]; simpl; constructor;
    [|assumption].
  intros Hin. apply in_map_iff in Hin as ([y m] & Hy & Hin). simpl in Hy.
  subst y. rewrite List.Forall_forall in Hall. pose proof (Hall _ Hin) as Hlt.
  simpl in Hlt.
  assert (Heq : sql_compare x x = Eq) by now apply sql_compare_eq.
  congruence.
Qed.

Lemma count_by_invariant (c : column) (t : table) (acc : list (sqlval * nat)) :
  ascending acc -> Forall (fun kn => (0 < snd kn)%nat) acc ->
  let l := fold_left (fun acc r => bump (col c r) acc) t acc in
  ascending l
  /\ Forall (fun kn => (0 < snd kn)%nat) l
  /\ counted l = (counted acc + length t)%nat
  /\ (forall k,
        count_of k l
        = (count_of k acc
           + length (List.filter (fun r => same_group (col c r) k) t))%nat)
  /\ (forall k, In k (map fst acc) \/ In k (map (col c) t) -> In k (map fst l)).
Proof.
  revert acc. induction t as [|r t IH]; intros acc Ha Hp; simpl.
  - repeat split; auto; try lia. intros k [H|[]]. exact H.
  - destruct (IH (bump (col c r) acc) (bump_ascending _ _ Ha)
                (bump_positive _ _ Hp)) as (H1 & H2 & H3 & H4 & H5).
    split; [assumption|]. split; [assumption|].
    split; [rewrite H3, counted_bump; lia|]. split.
    + intros k. rewrite H4, count_of_bump by assumption.
      assert (Es : same_group (col c r) k = same_group k (col c r)).
      { destruct (same_group k (col c r)) eqn:E.
        - apply same_group_eq in E. subst k. apply same_group_refl.
        - destruct (same_group (col c r) k) eqn:E'; [|reflexivity].
          apply same_group_eq in E'. subst k.
          now rewrite same_group_refl in E. }
      rewrite Es. destruct (same_group k (col c r)); simpl; lia.
    + intros k Hk. apply H5. rewrite bump_keys.
      destruct Hk as [Hk|[Hk|Hk]]; [tauto | left; left; now symmetry | tauto].
Qed.

(** X6.  The counts of [getStats()] are exact: grouped by [source] (or by
    [type]), every stored event falls in exactly one group, a group's count
    is the number of events with that value and is never zero, no value has
    two groups, and the counts add up to [total], the number of stored
    events. *)
Theorem getStats_counts (t : table) (c : column) :
  counted (count_by c t) = total t
  /\ (forall (k : sqlval) (n : nat),
        In (k, n) (count_by c t) ->
        (0 < n)%nat
        /\ n = length (List.filter (fun r => same_group (col c r) k) t))
  /\ List.NoDup (map fst (count_by c t))
  /\ (forall r : row, In r t -> exists n : nat, In (col c r, n) (count_by c t))
  /\ get "total" (getStats t) = Some (Num (Z.of_nat (length t)))
  /\ get "bySource" (getStats t) = Some (Arr (count_rows Csource t))
  /\ get "byType" (getStats t) = Some (Arr (count_rows Ctype t)).
Proof.
  assert (Ha : ascending []) by constructor.
  assert (Hp : Forall (fun kn : sqlval * nat => (0 < snd kn)%nat) [])
    by constructor.
  destruct (count_by_invariant c t [] Ha Hp) as (H1 & H2 & H3 & H4 & H5).
  fold (count_by c t) in H1, H2, H3, H4, H5.
  split; [exact H3|]. split; [|split; [|split]].
  - intros k n Hin. rewrite List.Forall_forall in H2. split; [exact (H2 _ Hin)|].
    rewrite <- (count_of_in k n _ H1 Hin). rewrite H4. reflexivity.
  - now apply ascending_NoDup.
  - intros r Hr.
    assert (Hk : In (col c r) (map fst (count_by c t)))
      by (apply H5; right; now apply in_map).
    apply in_map_iff in Hk as ([k n] & Hk & Hin). simpl in Hk. subst k.
    eauto.
  - repeat split.
Qed.


(** ** What the store holds after any history of calls *)

Lemma sqlval_eqb_eq (x v : sqlval) :
  v <> SNull -> (sqlval_eqb x v = true <-> x = v).
Proof.
  intros Hv. destruct x as [|n|s], v as [|m|t]; simpl;
    try contradiction; try (split; discriminate).
  - rewrite Z.eqb_eq. split; congruence.
  - rewrite String.eqb_eq. split; congruence.
Qed.

Lemma bind_or_else_not_null (ov : option value) (s : string) :
  bind (Some (or_else ov (Str s))) <> SNull.
Proof.
  unfold or_else. destruct ov as [v|]; [|discriminate].
  destruct (truthy v) eqn:E; [|discriminate].
  destruct v; simpl in *; discriminate.
Qed.

Lemma filter_NoDup_map {A B : Type} (f : A -> B) (p : A -> bool) (l : list A) :
  List.NoDup (map f l) -> List.NoDup (map f (List.filter p l)).
Proof.
  induction l as [|x l IH]; simpl; intros Hnd; [constructor|].
  apply List.NoDup_cons_iff in Hnd as [Hnotin Hnd].
  destruct (p x); simpl; [|now apply IH].
  constructor; [|now apply IH].
  intros Hin. apply Hnotin. apply in_map_iff in Hin as (y & Hy & Hin).
  apply filter_In in Hin as [Hin _]. apply in_map_iff. eauto.
Qed.

Lemma written_invariant
    (validate : obj -> bool) (errorsText : obj -> string) (t : table) :
  written validate errorsText t ->
  forallb row_ok t = true
  /\ List.NoDup (map c_id t)
  /\ Forall (fun r => c_id r <> SNull) t.
Proof.
  induction 1 as [|t uuid now1 now2 data _ (Hok & Hnd & Hnn) Hwf
                  |t now id patch _ (Hok & Hnd & Hnn) Hwf
                  |t id _ (Hok & Hnd & Hnn)].
  - repeat split; constructor.
  - split; [now apply createEvent_rows_ok|].
    unfold createEvent. destruct (validate data); simpl; [|auto].
    change (set "updated_at" (Str now2)
              (set "created_at" (or_else (get "created_at" data) (Str now1))
                 (set "id" (or_else (get "id" data) (Str uuid)) (spread data))))
      with (stamped data (or_else (get "id" data) (Str uuid))
              (or_else (get "created_at" data) (Str now1)) (Str now2)).
    assert (Hd : keys_distinct (map fst data) = true)
      by (simpl in Hwf; apply andb_true_iff in Hwf; tauto).
    rewrite row_of_stamped by assumption.
    match goal with
    | |- context [insert ?r t] => set (r0 := r); destruct (insert r0 t) eqn:I
    end; simpl; [|auto].
    unfold insert in I.
    destruct (negb (not_null_ok r0)); [discriminate|].
    destruct (existsb (has_id (c_id r0)) t) eqn:Ex; [discriminate|].
    injection I as <-.
    assert (Hid : c_id r0 <> SNull) by apply bind_or_else_not_null.
    split.
    + rewrite map_app. simpl.
      apply List.NoDup_app; [assumption | constructor; [intros [] | constructor] |].
      intros x Hx [<-|[]].
      apply in_map_iff in Hx as (y & Hy & Hin).
      assert (Hy' : has_id (c_id r0) y = true)
        by (unfold has_id, sql_eq; now apply sqlval_eqb_eq).
      assert (Hex : existsb (has_id (c_id r0)) t = true)
        by (apply existsb_exists; eauto).
      congruence.
    + apply Forall_app. split; [assumption|]. constructor; [exact Hid | constructor].
  - split; [now apply updateEvent_rows_ok|].
    unfold updateEvent.
    destruct (getEvent t id) as [[event|]|]; simpl; auto.
    destruct (validate (merge event patch now)); simpl; auto.
    unfold update.
    match goal with
    | |- context [if ?b then _ else _] => destruct b; simpl; auto
    end.
    split.
    + rewrite map_map.
      erewrite map_ext; [exact Hnd|].
      intros r. now destruct (has_id (SText id) r).
    + rewrite List.Forall_forall in *. intros r Hr.
      apply in_map_iff in Hr as (y & <- & Hy).
      destruct (has_id (SText id) y); simpl; now apply Hnn.
  - unfold deleteEvent. simpl. split; [|split].
    + rewrite forallb_forall in *. intros r Hr.
      apply filter_In in Hr as [Hr _]. now apply Hok.
    + now apply filter_NoDup_map.
    + rewrite List.Forall_forall in *. intros r Hr.
      apply filter_In in Hr as [Hr _]. now apply Hnn.
Qed.

Lemma parse_rows_ok (rs : list row) :
  forallb row_ok rs = true -> exists events, parse_rows rs = Ok events.
Proof.
  induction rs as [|r rs IH]; simpl; intros H; [eauto|].
  apply andb_true_iff in H as [Hr Hrs].
  destruct (parse_fields_row r Hr) as (m & u & g & l & -> & _).
  destruct (IH Hrs) as (events & ->). eauto.
Qed.

Lemma forallb_sub {A : Type} (p : A -> bool) (l l' : list A) :
  (forall x, In x l' -> In x l) -> forallb p l = true -> forallb p l' = true.
Proof.
  intros Hsub H. rewrite forallb_forall in *. auto.
Qed.

Lemma at_most_one {A B : Type} (f : A -> B) (p : A -> bool) (v : B) (l : list A) :
  List.NoDup (map f l) -> (forall x, p x = true -> f x = v) ->
  (length (List.filter p l) <= 1)%nat.
Proof.
  intros Hnd Hp. induction l as [|x l IH]; simpl; [lia|].
  simpl in Hnd. apply List.NoDup_cons_iff in Hnd as [Hnotin Hnd].
  destruct (p x) eqn:E; [|now apply IH].
  assert (Hnone : List.filter p l = []).
  { destruct (List.filter p l) as [|y l'] eqn:F; [reflexivity|].
    assert (Hy : In y (List.filter p l)) by (rewrite F; now left).
    apply filter_In in Hy as [Hy Py]. exfalso. apply Hnotin.
    rewrite (Hp x E), <- (Hp y Py). now apply in_map. }
  rewrite Hnone. simpl. lia.
Qed.

Lemma getEvents_rows_ok (t : table) (o : options) :
  forallb row_ok t = true -> exists events : list obj, getEvents t o = Ok events.
Proof.
  intros Hok. unfold getEvents. apply parse_rows_ok.
  apply (forallb_sub _ t); [|assumption].
  intros x Hx. exact (proj1 (select_in _ _ _ Hx)).
Qed.

(** X7.  A table that was only ever written through [createEvent],
    [updateEvent] and [deleteEvent] (with payloads as [JSON.parse] gives
    them) can always be read: [getEvent], [getEvents] and [searchEvents]
    never fail on it, since every stored compound column is JSON text the
    class wrote itself; and it never holds two events under one id. *)
Theorem written_store_reads
    (validate : obj -> bool) (errorsText : obj -> string) (t : table) :
  written validate errorsText t ->
  (forall id : string, exists found : option obj, getEvent t id = Ok found)
  /\ (forall o : options, exists events : list obj, getEvents t o = Ok events)
  /\ (forall (query : string) (limit : option Z),
        exists events : list obj, searchEvents t query limit = Ok events)
  /\ (forall id : string,
        (length (List.filter (has_id (SText id)) t) <= 1)%nat).
Proof.
  intros Hw. destruct (written_invariant _ _ _ Hw) as (Hok & Hnd & _).
  split; [|split; [|split]].
  - intros id. unfold getEvent.
    destruct (List.find (has_id (SText id)) t) as [r|] eqn:F; [|eauto].
    apply find_some in F as [Hin _].
    assert (Hr : row_ok r = true) by (rewrite forallb_forall in Hok; auto).
    destruct (parse_fields_row r Hr) as (m & u & g & l & -> & _). eauto.
  - intros o. now apply getEvents_rows_ok.
  - intros query limit. unfold searchEvents. apply parse_rows_ok.
    apply (forallb_sub _ t); [|assumption].
    intros x Hx. apply in_limit_offset, in_order_by, filter_In in Hx. tauto.
  - intros id. apply (at_most_one c_id _ (SText id)); [assumption|].
    intros x. apply has_id_text.
Qed.

Lemma written_store_reads_witness :
  (exists events : list obj,
     getEvents Samples.two_events Samples.tagged_gym = Ok events)
  /\ (length (List.filter (has_id (SText "e1")) Samples.two_events) <= 1)%nat.
Proof.
  destruct (written_store_reads Samples.validate Samples.errorsText
              Samples.two_events
              (written_create _ _ _ "e2" "2024-01-02T11:00:00.000Z"
                 "2024-01-02T11:00:00.001Z" Samples.walk
                 (written_create _ _ _ "e1" "2024-01-02T10:00:00.000Z"
                    "2024-01-02T10:00:00.001Z" Samples.gym
                    (written_empty _ _) ltac:(vm_compute; reflexivity))
                 ltac:(vm_compute; reflexivity)))
    as (_ & H2 & _ & H4).
  split; [apply H2 | apply H4].
Defined.

(** X8.  An event cannot be created under an id that is taken:
    [createEvent] with a payload the schema accepts whose [id] is that of a
    stored event fails with the driver's constraint error and writes
    nothing. *)
Theorem createEvent_duplicate_id
    (validate : obj -> bool) (errorsText : obj -> string)
    (t : table) (uuid now1 now2 : string) (eventData : obj) (i : string) :
  validate eventData = true -> wf (Obj eventData) = true ->
  get "id" eventData = Some (Str i) -> i <> "" ->
  existsb (has_id (SText i)) t = true ->
  exists what : string,
    createEvent validate errorsText t uuid now1 now2 eventData
    = (Err (SqliteConstraint what), t).
Proof.
  intros Hv Hwf Hid Hne Hex. unfold createEvent. rewrite Hv. simpl negb.
  cbv iota.
  change (set "updated_at" (Str now2)
            (set "created_at" (or_else (get "created_at" eventData) (Str now1))
               (set "id" (or_else (get "id" eventData) (Str uuid))
                  (spread eventData))))
    with (stamped eventData (or_else (get "id" eventData) (Str uuid))
            (or_else (get "created_at" eventData) (Str now1)) (Str now2)).
  assert (Hd : keys_distinct (map fst eventData) = true)
    by (simpl in Hwf; apply andb_true_iff in Hwf; tauto).
  rewrite row_of_stamped by assumption.
  assert (Hor : or_else (get "id" eventData) (Str uuid) = Str i).
  { rewrite Hid. unfold or_else. simpl.
    apply String.eqb_neq in Hne. now rewrite Hne. }
  rewrite Hor. unfold insert.
  match goal with
  | |- context [not_null_ok ?r] => destruct (negb (not_null_ok r)); [eauto|]
  end.
  simpl c_id. rewrite Hex. eauto.
Qed.

Lemma createEvent_duplicate_id_witness :
  exists what : string,
    createEvent Samples.validate Samples.errorsText Samples.two_events "e3"
      "2024-02-01T00:00:00.001Z" "2024-02-01T00:00:00.002Z"
      (("id", Str "e1") :: Samples.walk)
    = (Err (SqliteConstraint what), Samples.two_events).
Proof.
  apply (createEvent_duplicate_id Samples.validate Samples.errorsText
           Samples.two_events "e3" "2024-02-01T00:00:00.001Z"
           "2024-02-01T00:00:00.002Z" (("id", Str "e1") :: Samples.walk) "e1");
    try (vm_compute; reflexivity).
  discriminate.
Defined.

(** ** Resolving *)

Lemma sorted_head {A : Type} (R : A -> A -> Prop) (x y : A) (l : list A) :
  StronglySorted R (x :: l) -> In y l -> R x y.
Proof.
  intros Hs Hy. inversion Hs as [|? ? _ Hall]; subst.
  rewrite List.Forall_forall in Hall. now apply Hall.
Qed.

Lemma sql_compare_refl (a : sqlval) : sql_compare a a = Eq.
Proof. now apply sql_compare_eq. Qed.

(** X9.  When the resolver of the protocol package resolves a URI,
    [resolveURI] returns its event.  When it fails and the URI parses, the
    answer is the newest stored event of the source and type the URI names
    (whatever else the URI says): no stored event of that source and type
    has a later timestamp.  When the store has none, the error thrown is
    the resolver's own. *)
Theorem resolveURI_falls_back
    (resolver_resolveURI : value -> result obj)
    (resolver_parseURI : value -> result (option string * option string))
    (t : table) (uri : value) :
  (forall event : obj,
     resolver_resolveURI uri = Ok event ->
     resolveURI resolver_resolveURI resolver_parseURI t uri = Ok event)
  /\ (forall (error : exn) (parsed : option string * option string),
        resolver_resolveURI uri = Err error ->
        resolver_parseURI uri = Ok parsed ->
        (forall event : obj,
           resolveURI resolver_resolveURI resolver_parseURI t uri = Ok event ->
           exists r : row,
             In r t /\ parse_fields (row_object r) = Ok event
             /\ source_matches (local_lookup parsed) r
             /\ type_matches (local_lookup parsed) r
             /\ (forall r' : row,
                   In r' t -> where_clause (local_lookup parsed) r' = true ->
                   sql_compare (c_timestamp r) (c_timestamp r') <> Lt))
        /\ ((forall r : row,
               In r t -> where_clause (local_lookup parsed) r = false) ->
            resolveURI resolver_resolveURI resolver_parseURI t uri = Err error)).
Proof.
  split.
  - intros event H. unfold resolveURI. now rewrite H.
  - intros error parsed Hres Hparse. unfold resolveURI.
    rewrite Hres, Hparse. unfold getEvents, select. simpl.
    set (l := order_by (Ctimestamp, true)
                (List.filter (where_clause (local_lookup parsed)) t)).
    assert (Hs : StronglySorted (in_order (Ctimestamp, true)) l)
      by apply order_by_sorted.
    split.
    + intros event.
      destruct l as [|r l'] eqn:El; simpl; [discriminate|].
      destruct (parse_fields (row_object r)) as [o|] eqn:P; [|discriminate].
      intros [= <-]. exists r.
      assert (Hin : In r l) by (rewrite El; now left).
      apply in_order_by, filter_In in Hin as [Hin Hw].
      split; [assumption|]. split; [assumption|].
      pose proof (proj1 (where_clause_spec _ _) Hw) as (H1 & H2 & _).
      split; [assumption|]. split; [assumption|].
      intros r' Hr' Hw'.
      assert (Hin' : In r' (r :: l')).
      { rewrite <- El. apply in_order_by, filter_In. auto. }
      destruct Hin' as [<-|Hin'].
      * now rewrite sql_compare_refl.
      * apply newest_first_spec. exact (sorted_head _ _ _ _ Hs Hin').
    + intros Hnone.
      assert (El : l = []).
      { destruct l as [|r l'] eqn:El; [reflexivity|].
        assert (Hin : In r l) by (rewrite El; now left).
        apply in_order_by, filter_In in Hin as [Hin Hw].
        rewrite (Hnone r Hin) in Hw. discriminate. }
      rewrite El. reflexivity.
Qed.

End QueryFacts.

(* ===================================================================== *)
(** * The event routes at work *)
(* ===================================================================== *)

Module RouteFacts.
Import Json Sqlite EventManager Events JsonFacts StoreFacts QueryFacts.

Lemma with_db_same (st : state) : with_db st (db st) = st.
Proof. now destruct st. Qed.






Lemma includes_not_found (id : string) :
  includes "not found" ("Event not found: " +:+ id) = true.
Proof. vm_compute. reflexivity. Qed.

Lemma find_none_absent {A : Type} (p : A -> bool) (l : list A) :
  existsb p l = false -> List.find p l = None.
Proof.
  induction l as [|x l IH]; simpl; [reflexivity|].
  intros H. apply orb_false_iff in H as [-> Hl]. now apply IH.
Qed.

(** Before the database is ready no route does anything: each answers 503
    and leaves the store as it is. *)
Lemma busy_before_initialized (next : handler) (st : state) :
  isInitialized st = false ->
  ensureInitialized next st
  = (Res 503 (Obj [("error", Str "Database is initializing, please try again")]),
     st).
Proof. intros H. unfold ensureInitialized. now rewrite H. Qed.

(** X11.  PUT [/:id] for an id that is not stored answers 404 with the
    message [Event not found: id] and leaves the store as it is, whatever
    the body. *)
Theorem put_event_unknown
    (validate : obj -> bool) (errorsText : obj -> string)
    (engine_message : exn -> string)
    (st : state) (now id : string) (updates : obj) :
  isInitialized st = true ->
  existsb (has_id (SText id)) (db st) = false ->
  put_event validate errorsText engine_message now id updates st
  = (ResError 404 (Error ("Event not found: " +:+ id)), st).
Proof.
  intros Hi Hex. unfold put_event, ensureInitialized. rewrite Hi.
  unfold updateEvent, getEvent. rewrite find_none_absent by assumption.
  unfold message. rewrite includes_not_found. now rewrite with_db_same.
Qed.

Lemma put_event_unknown_witness :
  put_event Samples.validate Samples.errorsText (fun _ => "")
    "2024-02-01T00:00:00.000Z" "nobody" [("title", Str "x")]
    {| isInitialized := true; db := Samples.two_events |}
  = (ResError 404 (Error "Event not found: nobody"),
     {| isInitialized := true; db := Samples.two_events |}).
Proof.
  apply (put_event_unknown Samples.validate Samples.errorsText (fun _ => "")
           {| isInitialized := true; db := Samples.two_events |}
           "2024-02-01T00:00:00.000Z" "nobody" [("title", Str "x")]);
    [reflexivity | vm_compute; reflexivity].
Defined.

(** X12.  Until [initialize()] has resolved, the routes GET [/sources],
    [/types], [/stats] and [/:id], DELETE [/:id], POST [/], PUT [/:id] and
    POST [/resolve] all answer 503 and neither read nor write the store. *)
Theorem routes_wait_for_database
    (validate : obj -> bool) (errorsText : obj -> string)
    (engine_message : exn -> string)
    (resolver_resolveURI : value -> result obj)
    (resolver_parseURI : value -> result (option string * option string))
    (st : state) :
  isInitialized st = false ->
  let busy :=
    (Res 503 (Obj [("error", Str "Database is initializing, please try again")]),
     st) in
  get_sources st = busy /\ get_types st = busy /\ get_stats st = busy
  /\ (forall id : string, get_event id st = busy)
  /\ (forall id : string, delete_event id st = busy)
  /\ (forall (clock uuid now1 now2 : string) (body : obj),
        post_event validate errorsText clock uuid now1 now2 body st = busy)
  /\ (forall (now id : string) (updates : obj),
        put_event validate errorsText engine_message now id updates st = busy)
  /\ (forall body : obj,
        post_resolve resolver_resolveURI resolver_parseURI body st = busy).
Proof.
  intros H busy. unfold busy.
  repeat split; intros; now apply busy_before_initialized.
Qed.

Lemma routes_wait_for_database_witness :
  delete_event "e1" {| isInitialized := false; db := Samples.two_events |}
  = (Res 503 (Obj [("error", Str "Database is initializing, please try again")]),
     {| isInitialized := false; db := Samples.two_events |}).
Proof.
  destruct (routes_wait_for_database Samples.validate Samples.errorsText
              (fun _ => "") (fun _ => Err SyntaxError) (fun _ => Err SyntaxError)
              {| isInitialized := false; db := Samples.two_events |} eq_refl)
    as (_ & _ & _ & _ & H & _).
  apply H.
Defined.


(** ** Creating over HTTP *)

Lemma values_wf_stamped (data : obj) (id created updated : value) :
  wf (Obj data) = true -> wf id = true -> wf created = true ->
  wf updated = true ->
  values_wf (stamped data id created updated) = true.
Proof.
  intros Hd Hi Hc Hu. unfold stamped.
  repeat (apply values_wf_set; [assumption|]).
  apply values_wf_assign; [reflexivity | now apply values_wf_of_wf].
Qed.

Lemma createEvent_cases
    (validate : obj -> bool) (errorsText : obj -> string)
    (t : table) (uuid now1 now2 : string) (data : obj) :
  wf (Obj data) = true ->
  let e := stamped data (or_else (get "id" data) (Str uuid))
             (or_else (get "created_at" data) (Str now1)) (Str now2) in
  (exists ev : obj,
     createEvent validate errorsText t uuid now1 now2 data
     = (Ok ev, t ++ [row_of (serialize e)])
     /\ validate data = true
     /\ (forall k : string,
           k <> "metadata" -> k <> "linked_uris" -> k <> "tags" ->
           k <> "location" -> get k ev = get k e))
  \/ (exists err : exn,
        createEvent validate errorsText t uuid now1 now2 data = (Err err, t)).
Proof.
  intros Hwf e. unfold createEvent.
  destruct (validate data); simpl negb; cbv iota; [|right; eauto].
  change (set "updated_at" (Str now2)
            (set "created_at" (or_else (get "created_at" data) (Str now1))
               (set "id" (or_else (get "id" data) (Str uuid)) (spread data))))
    with e.
  destruct (insert (row_of (serialize e)) t) as [t'|err] eqn:I; [|right; eauto].
  assert (Ht' : t' = t ++ [row_of (serialize e)]).
  { unfold insert in I.
    destruct (negb (not_null_ok (row_of (serialize e)))); [discriminate|].
    destruct (existsb (has_id (c_id (row_of (serialize e)))) t); [discriminate|].
    now injection I as <-. }
  subst t'. left.
  assert (We : values_wf e = true).
  { apply values_wf_stamped; try reflexivity; try assumption;
      apply or_else_wf; try reflexivity; intros v Hv; eapply wf_get; eauto. }
  destruct (serialize_compound e) as (Sm & Su & Sg & Sl).
  unfold JSON_parse_field. rewrite Sm, Su, Sg, Sl.
  rewrite !JSON_parse_stringify by (apply or_else_values_wf; [assumption | reflexivity]).
  assert (Hl : exists l,
             (if truthy_opt
                   (Some (match get "location" e with
                          | Some l => if truthy l then Str (stringify l) else Null
                          | None => Null
                          end))
              then JSON_parse (match get "location" e with
                               | Some l => if truthy l then Str (stringify l) else Null
                               | None => Null
                               end)
              else Ok Null) = Ok l).
  { destruct (get "location" e) as [l|] eqn:El; [|simpl; eauto].
    destruct (truthy l) eqn:Tl; [|simpl; eauto].
    simpl. rewrite stringify_nonempty. simpl.
    rewrite JSON_parse_stringify; [eauto|]. eapply values_wf_get; eauto. }
  destruct Hl as (l & ->).
  eexists. split; [reflexivity|]. split; [reflexivity|].
  intros k H1 H2 H3 H4. rewrite !get_set_other by assumption.
  now rewrite spread_distinct by apply distinct_stamped.
Qed.

Lemma wf_set (k : string) (v : value) (o : obj) :
  wf v = true -> wf (Obj o) = true -> wf (Obj (set k v o)) = true.
Proof.
  simpl. rewrite !andb_true_iff. intros Hv [Hd Hw]. split.
  - now apply distinct_set.
  - now apply (values_wf_set k v o).
Qed.

(** X13.  POST [/] is all or nothing: either it answers 201 with the
    created event and the store has exactly one row more, or it answers 400
    and the store is as it was.  A body without a (truthy) [timestamp] is
    given the time of the request: that is the timestamp of the row stored
    and of the event returned. *)
Theorem post_event_all_or_nothing
    (validate : obj -> bool) (errorsText : obj -> string)
    (clock uuid now1 now2 : string) (body : obj) (st : state) :
  isInitialized st = true -> wf (Obj body) = true ->
  (exists (event : obj) (r : row),
     post_event validate errorsText clock uuid now1 now2 body st
     = (Res 201 (Obj event), with_db st (db st ++ [r]))
     /\ get "id" event = Some (or_else (get "id" body) (Str uuid))
     /\ (truthy_opt (get "timestamp" body) = false ->
         c_timestamp r = SText clock
         /\ get "timestamp" event = Some (Str clock)))
  \/ (exists e : exn,
        post_event validate errorsText clock uuid now1 now2 body st
        = (ResError 400 e, st)).
Proof.
  intros Hi Hwf. unfold post_event, ensureInitialized. rewrite Hi.
  set (data := if negb (truthy_opt (get "timestamp" body))
               then set "timestamp" (Str clock) body else body).
  assert (Hd : wf (Obj data) = true).
  { unfold data. destruct (negb (truthy_opt (get "timestamp" body)));
      [now apply wf_set | assumption]. }
  assert (Hkeys : keys_distinct (map fst data) = true)
    by (simpl in Hd; apply andb_true_iff in Hd; tauto).
  destruct (createEvent_cases validate errorsText (db st) uuid now1 now2 data Hd)
    as [(ev & -> & _ & Hget)|(err & ->)].
  - left. eexists ev, _. split; [reflexivity|]. split.
    + rewrite Hget by discriminate. unfold stamped.
      rewrite !get_set_other by discriminate. rewrite get_set_same.
      f_equal. unfold data.
      destruct (negb (truthy_opt (get "timestamp" body))); [|reflexivity].
      now rewrite get_set_other by discriminate.
    + intros Hts. unfold data in *. rewrite Hts in *. simpl negb in *.
      cbv iota in *. split.
      * rewrite row_of_stamped by assumption. simpl.
        now rewrite get_set_same.
      * rewrite Hget by discriminate. rewrite get_stamped by (assumption || discriminate).
        apply get_set_same.
  - right. exists err. now rewrite with_db_same.
Qed.

Lemma post_event_all_or_nothing_witness :
  exists (event : obj) (r : row),
    post_event Samples.validate Samples.errorsText "2024-02-01T00:00:00.000Z"
      "e3" "2024-02-01T00:00:00.001Z" "2024-02-01T00:00:00.002Z"
      Samples.undated {| isInitialized := true; db := Samples.two_events |}
    = (Res 201 (Obj event),
       {| isInitialized := true; db := Samples.two_events ++ [r] |})
    /\ c_timestamp r = SText "2024-02-01T00:00:00.000Z".
Proof.
  destruct (post_event_all_or_nothing Samples.validate Samples.errorsText
              "2024-02-01T00:00:00.000Z" "e3" "2024-02-01T00:00:00.001Z"
              "2024-02-01T00:00:00.002Z" Samples.undated
              {| isInitialized := true; db := Samples.two_events |}
              eq_refl ltac:(vm_compute; reflexivity))
    as [(event & r & H & _ & Hts)|(e & H)].
  - exists event, r. split; [exact H | exact (proj1 (Hts eq_refl))].
  - vm_compute in H. discriminate H.
Defined.

(** ** The sources and types on offer *)

Lemma same_value_zero_eq (x y : option value) :
  match x with Some (Arr _) | Some (Obj _) => False | _ => True end ->
  (same_value_zero x y = true <-> x = y).
Proof.
  destruct x as [[|a|n|s|l|o]|], y as [[|b|m|t|l'|o']|]; simpl; intros Hx;
    try contradiction; try (split; [discriminate | discriminate]);
    try (split; reflexivity).
  - rewrite Bool.eqb_true_iff. split; congruence.
  - rewrite Z.eqb_eq. split; congruence.
  - rewrite String.eqb_eq. split; congruence.
Qed.

Lemma new_Set_spec (xs seen : list (option value)) :
  Forall (fun x => match x with Some (Arr _) | Some (Obj _) => False | _ => True end) xs ->
  List.NoDup seen ->
  let s := fold_left
             (fun seen x =>
                if existsb (same_value_zero x) seen then seen else seen ++ [x])
             xs seen in
  List.NoDup s /\ (forall y, In y s <-> In y seen \/ In y xs).
Proof.
  revert seen. induction xs as [|x xs IH]; intros seen Hp Hnd; simpl.
  - split; [assumption | intuition].
  - inversion Hp as [|? ? Hx Hxs]; subst.
    destruct (existsb (same_value_zero x) seen) eqn:E.
    + destruct (IH seen Hxs Hnd) as [H1 H2]. split; [assumption|].
      intros y. rewrite H2. split; [tauto|].
      intros [H|[<-|H]]; auto. left.
      apply existsb_exists in E as (z & Hz & Ez).
      apply same_value_zero_eq in Ez; [now subst z | assumption].
    + assert (Hnotin : ~ In x seen).
      { intros Hin. assert (Hex : existsb (same_value_zero x) seen = true).
        { apply existsb_exists. exists x. split; [assumption|].
          now apply same_value_zero_eq. }
        congruence. }
      assert (Hnd' : List.NoDup (seen ++ [x])).
      { apply List.NoDup_app; [assumption | constructor; [intros [] | constructor] |].
        intros y Hy [<-|[]]. contradiction. }
      destruct (IH (seen ++ [x]) Hxs Hnd') as [H1 H2]. split; [assumption|].
      intros y. rewrite H2, in_app_iff. simpl. tauto.
Qed.

Lemma parse_rows_column (c : column) (rs : list row) (events : list obj) :
  parse_rows rs = Ok events ->
  c <> Cmetadata -> c <> Clinked_uris -> c <> Ctags -> c <> Clocation ->
  map (get (column_name c)) events = map (fun r => Some (to_js (col c r))) rs.
Proof.
  intros H H1 H2 H3 H4. revert events H.
  induction rs as [|r rs IH]; simpl; intros events H.
  - now injection H as <-.
  - destruct (parse_fields (row_object r)) as [o|] eqn:P; [|discriminate].
    destruct (parse_rows rs) as [os|]; [|discriminate].
    injection H as <-. simpl. f_equal; [|now apply IH].
    now apply parse_fields_scalar.
Qed.

Lemma distinct_property_spec (c : column) (rs : list row) (events : list obj) :
  parse_rows rs = Ok events ->
  c <> Cmetadata -> c <> Clinked_uris -> c <> Ctags -> c <> Clocation ->
  List.NoDup (distinct_property (column_name c) events)
  /\ (forall v : value,
        In v (distinct_property (column_name c) events)
        <-> exists r, In r rs /\ v = to_js (col c r)).
Proof.
  intros H H1 H2 H3 H4. unfold distinct_property.
  rewrite (parse_rows_column c rs events H H1 H2 H3 H4).
  assert (Hp : Forall (fun x : option value =>
                         match x with
                         | Some (Arr _) | Some (Obj _) => False
                         | _ => True
                         end)
                 (map (fun r => Some (to_js (col c r))) rs)).
  { apply List.Forall_forall. intros x Hx.
    apply in_map_iff in Hx as (r & <- & _). now destruct (col c r). }
  destruct (new_Set_spec _ [] Hp ltac:(constructor)) as [Hnd Hin].
  fold (new_Set (map (fun r => Some (to_js (col c r))) rs)) in Hnd, Hin.
  assert (Hsome : forall y, In y (new_Set (map (fun r => Some (to_js (col c r))) rs)) ->
                    exists r, In r rs /\ y = Some (to_js (col c r))).
  { intros y Hy. apply Hin in Hy as [[]|Hy].
    apply in_map_iff in Hy as (r & <- & Hr). eauto. }
  split.
  - revert Hnd Hsome.
    generalize (new_Set (map (fun r => Some (to_js (col c r))) rs)).
    intros s Hnd Hsome. induction Hnd as [|y s Hnotin Hnd IH]; simpl;
      constructor.
    + intros Hy. apply in_map_iff in Hy as (z & Hz & Hzin).
      destruct (Hsome y ltac:(now left)) as (r & _ & ->).
      destruct (Hsome z ltac:(now right)) as (r' & _ & ->).
      simpl in Hz. apply Hnotin. now rewrite <- Hz.
    + apply IH. intros z Hz. apply Hsome. now right.
  - intros v. rewrite in_map_iff. split.
    + intros (y & <- & Hy). destruct (Hsome y Hy) as (r & Hr & ->). eauto.
    + intros (r & Hr & ->). exists (Some (to_js (col c r))).
      split; [reflexivity|]. apply Hin. right.
      apply in_map_iff. eauto.
Qed.

Lemma select_first_thousand (t : table) :
  (length t <= 1000)%nat ->
  forall r, In r t -> In r (select first_thousand t).
Proof.
  intros Hlen r Hr. unfold select. simpl.
  rewrite limit_offset_all.
  - apply in_order_by, filter_In. auto.
  - rewrite order_by_length.
    pose proof (List.filter_length_le (where_clause first_thousand) t). lia.
Qed.

(** X14.  GET [/sources] and GET [/types] list values of stored events and
    nothing else, each value once; when the store holds at most a thousand
    events every source (type) that occurs is listed.  (They read the
    thousand newest events only.) *)
Theorem sources_and_types_listed
    (validate : obj -> bool) (errorsText : obj -> string) (st : state) :
  isInitialized st = true -> written validate errorsText (db st) ->
  exists sources types : list value,
    get_sources st = (Res 200 (Obj [("sources", Arr sources)]), st)
    /\ get_types st = (Res 200 (Obj [("types", Arr types)]), st)
    /\ List.NoDup sources /\ List.NoDup types
    /\ (forall v : value,
          In v sources -> exists r : row, In r (db st) /\ v = to_js (c_source r))
    /\ (forall v : value,
          In v types -> exists r : row, In r (db st) /\ v = to_js (c_type r))
    /\ ((length (db st) <= 1000)%nat ->
        forall r : row,
          In r (db st) ->
          In (to_js (c_source r)) sources /\ In (to_js (c_type r)) types).
Proof.
  intros Hi Hw.
  destruct (written_invariant validate errorsText (db st) Hw) as (Hok & _).
  destruct (getEvents_rows_ok (db st) first_thousand Hok) as (events & He).
  unfold get_sources, get_types, ensureInitialized. rewrite Hi, He.
  unfold getEvents in He.
  destruct (distinct_property_spec Csource _ _ He) as [N1 I1]; try discriminate.
  destruct (distinct_property_spec Ctype _ _ He) as [N2 I2]; try discriminate.
  simpl column_name in *. simpl col in *.
  eexists _, _. split; [reflexivity|]. split; [reflexivity|].
  split; [exact N1|]. split; [exact N2|]. split; [|split].
  - intros v Hv. apply I1 in Hv as (r & Hr & ->).
    exists r. split; [exact (proj1 (select_in _ _ _ Hr)) | reflexivity].
  - intros v Hv. apply I2 in Hv as (r & Hr & ->).
    exists r. split; [exact (proj1 (select_in _ _ _ Hr)) | reflexivity].
  - intros Hlen r Hr. pose proof (select_first_thousand _ Hlen r Hr) as Hs.
    split; [apply I1 | apply I2]; eauto.
Qed.

Lemma sources_and_types_listed_witness :
  exists sources types : list value,
    get_sources {| isInitialized := true; db := Samples.two_events |}
    = (Res 200 (Obj [("sources", Arr sources)]),
       {| isInitialized := true; db := Samples.two_events |})
    /\ In (Str "phone") sources /\ In (Str "x.y") types.
Proof.
  destruct (sources_and_types_listed Samples.validate Samples.errorsText
              {| isInitialized := true; db := Samples.two_events |} eq_refl
              (written_create _ _ _ "e2" "2024-01-02T11:00:00.000Z"
                 "2024-01-02T11:00:00.001Z" Samples.walk
                 (written_create _ _ _ "e1" "2024-01-02T10:00:00.000Z"
                    "2024-01-02T10:00:00.001Z" Samples.gym
                    (written_empty _ _) ltac:(vm_compute; reflexivity))
                 ltac:(vm_compute; reflexivity)))
    as (sources & types & H1 & _ & _ & _ & _ & _ & H7).
  exists sources, types. split; [exact H1|].
  assert (Hlen : (length (db {| isInitialized := true; db := Samples.two_events |})
                  <= 1000)%nat) by (vm_compute; lia).
  split.
  - exact (proj1 (H7 Hlen Samples.walk_row ltac:(vm_compute; auto))).
  - destruct (H7 Hlen _ ltac:(simpl; left; reflexivity)) as [_ H]. exact H.
Defined.

End RouteFacts.

(* ===================================================================== *)
(** * More about the plugin registry *)
(* ===================================================================== *)

Module RegistryFacts.
Import Json Plugins JsonFacts PluginFacts.

(** ** The pass at startup *)

Lemma fmap_is_map {A B : Type} (f : A -> B) (l : list A) : f <$> l = map f l.
Proof. induction l as [|x l IH]; [reflexivity|]. cbn. now rewrite IH. Qed.

Lemma keys_NoDup (root : gmap string node) :
  List.NoDup (map fst (map_to_list root)).
Proof.
  rewrite <- fmap_is_map. apply NoDup_ListNoDup, NoDup_fst_map_to_list.
Qed.

Lemma initialize_one_spec
    (cron_validate : string -> bool) (st : state) (k : string) (n : node) :
  consistent st -> fs st !! k = Some n -> activeJobs st !! k = None ->
  consistent (initialize_one cron_validate st (k, n))
  /\ fs (initialize_one cron_validate st (k, n)) = fs st
  /\ (forall id, id <> k ->
        activeJobs (initialize_one cron_validate st (k, n)) !! id
        = activeJobs st !! id)
  /\ (is_Some (activeJobs (initialize_one cron_validate st (k, n)) !! k)
      <-> starts cron_validate (fs st) k = true).
Proof.
  intros Hc Hk Hnone. unfold initialize_one, starts. simpl. rewrite Hk.
  assert (Hno : is_Some (activeJobs st !! k) <-> false = true).
  { rewrite Hnone. split; [intros [x Hx]; discriminate | discriminate]. }
  destruct n as [|files]; [auto|].
  destruct (readConfig (fs st) k) as [e|config];
    [split; [now apply consistent_log | simpl; auto]|].
  destruct (truthy_opt (get "enabled" config)
            && truthy_opt (get "schedule" config)) eqn:E; [|auto].
  destruct (start_consistent cron_validate st k config Hc)
    as (Hc' & Hfs & Hother & Hyes & Hnot).
  assert (Hreg : registers cron_validate config
                 <-> match get "schedule" config with
                     | Some (Str e) => cron_validate e
                     | _ => false
                     end = true).
  { unfold registers, scheduled. apply andb_true_iff in E as [E1 E2].
    rewrite E1, E2. simpl. split.
    - intros (_ & e & -> & Hv). exact Hv.
    - intros H. split; [reflexivity|].
      destruct (get "schedule" config) as [[| | |e| |]|]; try discriminate.
      eauto. }
  assert (Hjob : is_Some (activeJobs (snd (startScheduledJob cron_validate k
                                             config st)) !! k)
                 <-> match get "schedule" config with
                     | Some (Str e) => cron_validate e
                     | _ => false
                     end = true).
  { rewrite <- Hreg. split.
    - intros Hs. destruct (start_cases cron_validate st k config)
        as [(Hr & _)|(Hn & _)]; [assumption|].
      rewrite (Hnot Hn) in Hs. destruct Hs as [x Hx]. discriminate.
    - intros Hr. exact (proj2 (Hyes Hr)). }
  destruct (startScheduledJob cron_validate k config st) as [[err|] st2];
    simpl in *; [|auto].
  split; [now apply consistent_log | simpl; auto].
Qed.

Lemma initialize_fold
    (cron_validate : string -> bool) (l : list (string * node)) (st : state) :
  consistent st -> List.NoDup (map fst l) ->
  (forall k n, In (k, n) l -> fs st !! k = Some n) ->
  (forall k, In k (map fst l) -> activeJobs st !! k = None) ->
  let st' := fold_left (initialize_one cron_validate) l st in
  consistent st' /\ fs st' = fs st
  /\ (forall id, In id (map fst l) ->
        (is_Some (activeJobs st' !! id) <-> starts cron_validate (fs st) id = true))
  /\ (forall id, ~ In id (map fst l) -> activeJobs st' !! id = activeJobs st !! id).
Proof.
  revert st. induction l as [|[k n] l IH]; intros st Hc Hnd Hfs Hnone; simpl.
  - split; [assumption|]. split; [reflexivity|].
    split; [intros id [] | auto].
  - simpl in Hnd. apply List.NoDup_cons_iff in Hnd as [Hnotin Hnd].
    destruct (initialize_one_spec cron_validate st k n Hc)
      as (Hc1 & Hfs1 & Hother1 & Hk1);
      [apply Hfs; now left | apply Hnone; now left |].
    destruct (IH (initialize_one cron_validate st (k, n)) Hc1 Hnd)
      as (Hc2 & Hfs2 & Hin2 & Hout2).
    + intros k' n' Hin. rewrite Hfs1. apply Hfs. now right.
    + intros k' Hin. rewrite Hother1.
      * apply Hnone. now right.
      * intros ->. contradiction.
    + split; [assumption|]. split; [congruence|]. split.
      * intros id [->|Hin].
        -- rewrite (Hout2 id Hnotin). exact Hk1.
        -- rewrite (Hin2 id Hin), Hfs1. reflexivity.
      * intros id Hid. rewrite Hout2 by tauto. apply Hother1.
        intros ->. apply Hid. now left.
Qed.

(** The triggers a start leaves: those of the other plugins as they were,
    and for a descriptor that is registered the new task alone. *)
Lemma start_triggers (cron_validate : string -> bool)
    (st : state) (id : string) (config : obj) :
  consistent st ->
  (forall id', id' <> id ->
     triggers id' (snd (startScheduledJob cron_validate id config st))
     = triggers id' st)
  /\ (registers cron_validate config ->
        exists e : string,
          get "schedule" config = Some (Str e)
          /\ triggers id (snd (startScheduledJob cron_validate id config st))
             = [(next_handle st,
                 {| task_plugin := id; task_schedule := e;
                    task_config := config |})]).
Proof.
  intros Hc.
  destruct (stop_triggers st id Hc) as (_ & Hsame & _).
  destruct (start_cases cron_validate st id config)
    as [(Hr & e & He & ->)|(Hn & ->)]; cbn [snd].
  - destruct (registered_after_stop st id e config Hc)
      as (H1 & _ & _ & _ & H5 & _).
    split; [exact H5|]. intros _. eauto.
  - split; [exact Hsame|]. intros Hr. contradiction.
Qed.

Lemma initialize_one_keeps
    (cron_validate : string -> bool) (st : state) (k : string) (n : node)
    (id : string) :
  consistent st -> k <> id ->
  consistent (initialize_one cron_validate st (k, n))
  /\ fs (initialize_one cron_validate st (k, n)) = fs st
  /\ triggers id (initialize_one cron_validate st (k, n)) = triggers id st.
Proof.
  intros Hc Hne. unfold initialize_one. simpl.
  destruct n as [|files]; [auto|].
  destruct (readConfig (fs st) k) as [e|config];
    [split; [now apply consistent_log | split; reflexivity]|].
  destruct (truthy_opt (get "enabled" config)
            && truthy_opt (get "schedule" config)); [|auto].
  destruct (start_consistent cron_validate st k config Hc) as (Hc' & Hfs & _).
  destruct (start_triggers cron_validate st k config Hc) as [Hother _].
  specialize (Hother id ltac:(congruence)).
  destruct (startScheduledJob cron_validate k config st) as [[err|] st2];
    simpl in *; [|auto].
  split; [now apply consistent_log | split; assumption].
Qed.

Lemma initialize_fold_keeps
    (cron_validate : string -> bool) (l : list (string * node)) (st : state)
    (id : string) :
  consistent st -> ~ In id (map fst l) ->
  consistent (fold_left (initialize_one cron_validate) l st)
  /\ fs (fold_left (initialize_one cron_validate) l st) = fs st
  /\ triggers id (fold_left (initialize_one cron_validate) l st)
     = triggers id st.
Proof.
  revert st. induction l as [|[k n] l IH]; intros st Hc Hid; simpl; [auto|].
  simpl in Hid.
  destruct (initialize_one_keeps cron_validate st k n id Hc)
    as (Hc1 & Hfs1 & Ht1); [tauto|].
  destruct (IH _ Hc1) as (Hc2 & Hfs2 & Ht2); [tauto|].
  split; [assumption|]. split; congruence.
Qed.

(** The task the pass at startup registers for a plugin. *)
Lemma startup_task
    (cron_validate : string -> bool) (root : gmap string node) (id : string)
    (config : obj) :
  readConfig root id = inr config -> registers cron_validate config ->
  exists (h : nat) (e : string),
    get "schedule" config = Some (Str e)
    /\ triggers id (initializeScheduledJobs cron_validate (initial root))
       = [(h, {| task_plugin := id; task_schedule := e;
                 task_config := config |})].
Proof.
  intros Hread Hr. unfold initializeScheduledJobs. simpl fs.
  assert (Hdir : exists files, root !! id = Some (Dir files)).
  { unfold readConfig in Hread.
    destruct (root !! id) as [[|files]|]; try discriminate. eauto. }
  destruct Hdir as [files Hdir].
  assert (Hin : In (id, Dir files) (map_to_list root))
    by (apply list_elem_of_In; now apply elem_of_map_to_list).
  destruct (in_split _ _ Hin) as (l1 & l2 & Hl).
  pose proof (keys_NoDup root) as Hnd. rewrite Hl in *.
  rewrite map_app in Hnd. simpl in Hnd.
  apply List.NoDup_remove in Hnd as [Hnd Hnot].
  assert (H1 : ~ In id (map fst l1))
    by (intros H; apply Hnot; apply in_or_app; now left).
  assert (H2 : ~ In id (map fst l2))
    by (intros H; apply Hnot; apply in_or_app; now right).
  rewrite fold_left_app. simpl.
  destruct (initialize_fold_keeps cron_validate l1 (initial root) id
              (consistent_initial root) H1) as (Hc1 & Hfs1 & Ht1).
  set (st1 := fold_left (initialize_one cron_validate) l1 (initial root)) in *.
  destruct Hr as (Hs & e & He & Hv).
  assert (Hstep : consistent (initialize_one cron_validate st1 (id, Dir files))
                  /\ triggers id (initialize_one cron_validate st1 (id, Dir files))
                     = [(next_handle st1,
                         {| task_plugin := id; task_schedule := e;
                            task_config := config |})]).
  { unfold initialize_one. simpl. rewrite Hfs1. simpl. rewrite Hread.
    unfold scheduled in Hs. apply andb_true_iff in Hs as [Hs1 Hs2].
    rewrite Hs1, Hs2. simpl.
    destruct (start_consistent cron_validate st1 id config Hc1) as (Hc' & _).
    destruct (start_triggers cron_validate st1 id config Hc1) as [_ Hreg].
    destruct Hreg as (e' & He' & Ht).
    { split; [unfold scheduled; now rewrite Hs1, Hs2 | eauto]. }
    rewrite He in He'. injection He' as <-.
    destruct (start_cases cron_validate st1 id config)
      as [(_ & e2 & _ & Heq)|(Hn & _)].
    - rewrite Heq in *. simpl in *. split; assumption.
    - exfalso. apply Hn. split; [unfold scheduled; now rewrite Hs1, Hs2 | eauto]. }
  destruct Hstep as [Hc2 Ht2].
  destruct (initialize_fold_keeps cron_validate l2 _ id Hc2 H2) as (_ & _ & Ht3).
  exists (next_handle st1), e. split; [assumption|]. now rewrite Ht3.
Qed.

(** X15.  After the pass at startup ([initializeScheduledJobs] on a server
    that has just started) the scheduler is consistent and the plugin root
    is as it was.  A plugin whose descriptor is read has one running
    trigger when the descriptor is enabled and has a schedule the cron
    library accepts, and that trigger is a task with the schedule and the
    descriptor that were read; it has none when it is not enabled, has no
    schedule, or has a schedule the library refuses; a name that is no
    directory of the plugin root, or a directory without a [plugin.json],
    has none.  This holds whatever the other descriptors are: one that
    cannot be read or a schedule that is refused stops neither the pass nor
    the other plugins. *)
Theorem startup_registers
    (cron_validate : string -> bool) (root : gmap string node) (id : string) :
  let st' := initializeScheduledJobs cron_validate (initial root) in
  consistent st'
  /\ fs st' = root
  /\ (forall config : obj,
        readConfig root id = inr config ->
        (registers cron_validate config ->
         length (triggers id st') = 1%nat
         /\ exists (h : nat) (e : string),
              get "schedule" config = Some (Str e)
              /\ triggers id st'
                 = [(h, {| task_plugin := id; task_schedule := e;
                           task_config := config |})]
              /\ activeJobs st' !! id = Some h)
        /\ (truthy_opt (get "enabled" config) = false
            \/ truthy_opt (get "schedule" config) = false
            \/ (exists e : string,
                  get "schedule" config = Some (Str e)
                  /\ cron_validate e = false) ->
            length (triggers id st') = 0%nat
            /\ activeJobs st' !! id = None))
  /\ (has_descriptor root id = false ->
      length (triggers id st') = 0%nat /\ activeJobs st' !! id = None).
Proof.
  intros st'. unfold st', initializeScheduledJobs. simpl fs.
  destruct (initialize_fold cron_validate (map_to_list root) (initial root))
    as (Hc & Hfs & Hin & Hout).
  - apply consistent_initial.
  - apply keys_NoDup.
  - intros k n Hk. simpl. apply elem_of_map_to_list. now apply list_elem_of_In.
  - intros k _. apply lookup_empty.
  - assert (Hcount :
        length (triggers id
                  (fold_left (initialize_one cron_validate) (map_to_list root)
                     (initial root)))
        = (if starts cron_validate root id then 1 else 0)%nat
        /\ (starts cron_validate root id = false ->
            activeJobs
              (fold_left (initialize_one cron_validate) (map_to_list root)
                 (initial root)) !! id = None)).
    { rewrite triggers_count by assumption.
      destruct (root !! id) as [n|] eqn:E.
      + assert (Hid : In id (map fst (map_to_list root))).
        { apply in_map_iff. exists (id, n). split; [reflexivity|].
          apply list_elem_of_In. now apply elem_of_map_to_list. }
        specialize (Hin id Hid). simpl in Hin.
        destruct (starts cron_validate root id).
        * destruct (proj2 Hin eq_refl) as [h ->]. split; [reflexivity|].
          discriminate.
        * destruct (activeJobs _ !! id) eqn:E'; [|split; reflexivity].
          assert (false = true) by (apply Hin; eauto). discriminate.
      + assert (Hid : ~ In id (map fst (map_to_list root))).
        { intros Hid. apply in_map_iff in Hid as ([k n] & Hk & Hkn).
          simpl in Hk. subst k.
          apply list_elem_of_In, elem_of_map_to_list in Hkn. congruence. }
        rewrite (Hout id Hid). simpl. rewrite lookup_empty.
        unfold starts. rewrite E. split; reflexivity. }
    destruct Hcount as [Hcount Hnone].
    split; [assumption|]. split; [assumption|]. split.
    + intros config Hread.
      assert (Hdir : exists files, root !! id = Some (Dir files)).
      { unfold readConfig in Hread.
        destruct (root !! id) as [[|files]|]; try discriminate. eauto. }
      destruct Hdir as [files Hdir].
      assert (Hs : starts cron_validate root id
                   = truthy_opt (get "enabled" config)
                     && truthy_opt (get "schedule" config)
                     && match get "schedule" config with
                        | Some (Str e) => cron_validate e
                        | _ => false
                        end)
        by (unfold starts; now rewrite Hdir, Hread).
      split.
      * intros Hr. split.
        -- destruct Hr as ([Hsch Hen]%andb_true_iff & e & He & Hv).
           rewrite Hcount, Hs, Hen, Hsch, He, Hv. reflexivity.
        -- destruct (startup_task cron_validate root id config Hread Hr)
             as (h & e & He & Ht).
           unfold initializeScheduledJobs in Ht. simpl fs in Ht.
           exists h, e. split; [assumption|]. split; [assumption|].
           apply (task_registered _ Hc h
                    {| task_plugin := id; task_schedule := e;
                       task_config := config |}).
           assert (Hin' : In (h, {| task_plugin := id; task_schedule := e;
                                    task_config := config |})
                            (triggers id
                               (fold_left (initialize_one cron_validate)
                                  (map_to_list root) (initial root))))
             by (rewrite Ht; now left).
           unfold triggers in Hin'. now apply filter_In in Hin' as [Hin' _].
      * intros Hno.
        assert (Hf : starts cron_validate root id = false).
        { rewrite Hs. destruct Hno as [-> | [-> | (e & -> & ->)]];
            rewrite ?andb_false_r; reflexivity. }
        split; [now rewrite Hcount, Hf | now apply Hnone].
    + intros Hmissing.
      assert (Hf : starts cron_validate root id = false).
      { apply no_descriptor_unread in Hmissing.
        unfold starts. rewrite Hmissing.
        now destruct (root !! id) as [[|files]|]. }
      split; [now rewrite Hcount, Hf | now apply Hnone].
Qed.

Lemma startup_registers_witness :
  length (triggers "sync"
            (initializeScheduledJobs Samples.cron_fields
               (initial Samples.enabled_root))) = 1%nat
  /\ length (triggers "draft"
               (initializeScheduledJobs Samples.cron_fields
                  (initial Samples.enabled_root))) = 0%nat.
Proof.
  split.
  - destruct (startup_registers Samples.cron_fields Samples.enabled_root "sync")
      as (_ & _ & H & _).
    apply (H (set "enabled" (Bool true) Samples.hourly)
             ltac:(vm_compute; reflexivity)).
    split; [reflexivity|]. exists "0 * * * *". split; reflexivity.
  - destruct (startup_registers Samples.cron_fields Samples.enabled_root "draft")
      as (_ & _ & _ & H).
    apply H. vm_compute. reflexivity.
Defined.


(** ** Enabling and disabling *)

(** X16.  POST [/:id/disable] on a plugin whose descriptor can be read
    answers 200; afterwards the descriptor on disk is the old one with
    [enabled] set to [false] (every other property as it was), the plugin
    has no running trigger and no entry in [activeJobs], and the other
    plugins keep their triggers and their files. *)
Theorem disable_stops_plugin (st : state) (id : string) (config0 : obj) :
  consistent st -> readConfig (fs st) id = inr config0 ->
  fst (disable id st)
  = Res 200 (Obj [("success", Bool true); ("plugin", Str id);
                  ("enabled", Bool false)])
  /\ readConfig (fs (snd (disable id st))) id
     = inr (set "enabled" (Bool false) config0)
  /\ (forall k : string,
        k <> "enabled" ->
        get k (set "enabled" (Bool false) config0) = get k config0)
  /\ length (triggers id (snd (disable id st))) = 0%nat
  /\ activeJobs (snd (disable id st)) !! id = None
  /\ consistent (snd (disable id st))
  /\ (forall id' : string,
        id' <> id ->
        length (triggers id' (snd (disable id st))) = length (triggers id' st)
        /\ fs (snd (disable id st)) !! id' = fs st !! id').
Proof.
  intros Hc Hread. unfold disable. rewrite Hread.
  destruct (write_after_read _ _ _ (set "enabled" (Bool false) config0) Hread)
    as (root & -> & Hread' & Hframe).
  cbn [fst snd].
  destruct (stop_consistent (with_fs st root) id (consistent_with_fs st root Hc))
    as (Hc2 & Hnone & Hfs & _ & Hother).
  split; [reflexivity|]. split; [now rewrite Hfs|].
  split; [intros k Hk; now apply get_set_other|].
  split; [rewrite triggers_count by assumption; now rewrite Hnone|].
  split; [assumption|]. split; [assumption|].
  intros id' Hne. split.
  - rewrite !triggers_count by assumption. now rewrite (Hother id' Hne).
  - rewrite Hfs. simpl. now apply Hframe.
Qed.

Lemma disable_stops_plugin_witness :
  length (triggers "sync" Samples.sync_enabled) = 1%nat
  /\ length (triggers "sync" (snd (disable "sync" Samples.sync_enabled))) = 0%nat
  /\ readConfig (fs (snd (disable "sync" Samples.sync_enabled))) "sync"
     = inr [("name", Str "sync"); ("schedule", Str "0 * * * *");
            ("enabled", Bool false)].
Proof.
  split; [vm_compute; reflexivity|].
  destruct (disable_stops_plugin Samples.sync_enabled "sync"
              [("name", Str "sync"); ("schedule", Str "0 * * * *");
               ("enabled", Bool true)]
              (enable_consistent Samples.cron_fields _ "sync"
                 (consistent_initial Samples.plugin_root))
              ltac:(vm_compute; reflexivity))
    as (_ & H2 & _ & H4 & _).
  split; [exact H4 | exact H2].
Defined.

(** X17.  POST [/:id/enable] writes the descriptor before it schedules:
    when the descriptor has a schedule the cron library refuses, the route
    answers 500, and yet the descriptor on disk now says [enabled: true];
    no trigger runs for the plugin.  When the descriptor has no schedule
    the route answers 200 and the scheduler is left as it was. *)
Theorem enable_edge_cases
    (cron_validate : string -> bool) (st : state) (id : string) (config0 : obj) :
  consistent st -> readConfig (fs st) id = inr config0 ->
  readConfig (fs (snd (enable cron_validate id st))) id
  = inr (set "enabled" (Bool true) config0)
  /\ (forall e : string,
        get "schedule" config0 = Some (Str e) -> e <> "" ->
        cron_validate e = false ->
        fst (enable cron_validate id st) = Res500 CronError
        /\ length (triggers id (snd (enable cron_validate id st))) = 0%nat)
  /\ (truthy_opt (get "schedule" config0) = false ->
      fst (enable cron_validate id st)
      = Res 200 (Obj [("success", Bool true); ("plugin", Str id);
                      ("enabled", Bool true)])
      /\ activeJobs (snd (enable cron_validate id st)) = activeJobs st
      /\ cron_tasks (snd (enable cron_validate id st)) = cron_tasks st).
Proof.
  intros Hc Hread. unfold enable. rewrite Hread.
  destruct (write_after_read _ _ _ (set "enabled" (Bool true) config0) Hread)
    as (root & -> & Hread' & _).
  set (config := set "enabled" (Bool true) config0) in *.
  assert (Hsched : get "schedule" config = get "schedule" config0)
    by (unfold config; now rewrite get_set_other by discriminate).
  assert (Hen : truthy_opt (get "enabled" config) = true)
    by (unfold config; now rewrite get_set_same).
  pose proof (consistent_with_fs st root Hc) as Hc1.
  destruct (start_consistent cron_validate (with_fs st root) id config Hc1)
    as (Hc2 & Hfs & _ & _ & Hnot).
  split; [|split].
  - destruct (scheduled config); [|exact Hread'].
    destruct (startScheduledJob cron_validate id config (with_fs st root))
      as [[err|] st2]; simpl in *; now rewrite Hfs.
  - intros e He Hne Hv.
    assert (Hs : scheduled config = true).
    { unfold scheduled. rewrite Hsched, He, Hen. simpl.
      apply String.eqb_neq in Hne. now rewrite Hne. }
    rewrite Hs.
    assert (Hn : ~ registers cron_validate config).
    { intros (_ & e' & He' & Hv'). rewrite Hsched, He in He'.
      injection He' as <-. congruence. }
    specialize (Hnot Hn).
    assert (Hfst : fst (startScheduledJob cron_validate id config (with_fs st root))
                   = Some CronError).
    { unfold startScheduledJob, cron_schedule. rewrite Hs, Hsched, He, Hv.
      reflexivity. }
    destruct (startScheduledJob cron_validate id config (with_fs st root))
      as [[err|] st2]; simpl in *; [|discriminate].
    injection Hfst as ->. split; [reflexivity|].
    rewrite triggers_count by assumption. now rewrite Hnot.
  - intros Hno.
    assert (Hs : scheduled config = false)
      by (unfold scheduled; now rewrite Hsched, Hno).
    rewrite Hs. auto.
Qed.

Lemma enable_edge_cases_witness :
  fst (enable Samples.cron_fields "sync" (initial Samples.whenever_root))
  = Res500 CronError
  /\ readConfig
       (fs (snd (enable Samples.cron_fields "sync"
                   (initial Samples.whenever_root))))
       "sync"
     = inr (set "enabled" (Bool true) Samples.whenever).
Proof.
  destruct (enable_edge_cases Samples.cron_fields
              (initial Samples.whenever_root) "sync" Samples.whenever
              (consistent_initial Samples.whenever_root)
              ltac:(vm_compute; reflexivity))
    as (H1 & H2 & _).
  split; [|exact H1].
  exact (proj1 (H2 "whenever" eq_refl ltac:(discriminate) eq_refl)).
Defined.

(** ** Running on request and on schedule *)

Lemma run_same_jobs (st : state) (id now : string) (c : child) :
  activeJobs (snd (run id now c st)) = activeJobs st
  /\ cron_tasks (snd (run id now c st)) = cron_tasks st
  /\ next_handle (snd (run id now c st)) = next_handle st.
Proof.
  destruct (runPlugin_same_jobs id now c st) as (H1 & H2 & H3).
  unfold run. destruct (fs st !! id) as [n|]; [|auto].
  destruct (readConfig (fs st) id) as [e|config]; [auto|].
  destruct (or_else (get "main" config) (Str "index.js")); auto.
  destruct (match n with
            | File => false
            | Dir files => bool_decide (is_Some (files !! s))
            end); [|auto].
  destruct (runPlugin id now c st) as [[v|m|] st']; auto.
Qed.


(** X19.  When a scheduled task fires, however the run ends, the task
    stays scheduled: the callback changes neither [activeJobs] nor the
    running tasks, and it writes one line to the console that says whether
    the run completed or failed. *)
Theorem fire_keeps_schedule (st : state) (id now : string) (c : child) :
  activeJobs (fire id now c st) = activeJobs st
  /\ cron_tasks (fire id now c st) = cron_tasks st
  /\ (forall id' : string, triggers id' (fire id now c st) = triggers id' st)
  /\ fs (fire id now c st) = fs (snd (runPlugin id now c st))
  /\ console (fire id now c st)
     = console (snd (runPlugin id now c st))
       ++ [match c with
           | Closed (Some 0) _ _ =>
               "Scheduled plugin " +:+ id +:+ " completed successfully"
           | _ => "Scheduled plugin " +:+ id +:+ " failed:"
           end].
Proof.
  destruct (runPlugin_same_jobs id now c st) as (H1 & H2 & _).
  assert (Ht : cron_tasks (fire id now c st) = cron_tasks st).
  { unfold fire. destruct (runPlugin id now c st) as [[v|m|] st']; exact H2. }
  split; [|split; [exact Ht|split; [|split]]].
  - unfold fire. destruct (runPlugin id now c st) as [[v|m|] st']; exact H1.
  - intros id'. unfold triggers. now rewrite Ht.
  - unfold fire. destruct (runPlugin id now c st) as [[v|m|] st']; reflexivity.
  - unfold fire. destruct c as [[[| |]|] stdout stderr|]; reflexivity.
Qed.


(** ** The log of a plugin *)

Lemma slice_last_length {A : Type} (n : nat) (l : list A) :
  (length (slice_last n l) <= n)%nat.
Proof. unfold slice_last. rewrite length_skipn. lia. Qed.

Lemma slice_last_suffix {A : Type} (n : nat) (l : list A) :
  l = firstn (length l - n) l ++ slice_last n l.
Proof. unfold slice_last. now rewrite firstn_skipn. Qed.

Lemma slice_last_all {A : Type} (n : nat) (l : list A) :
  (length l <= n)%nat -> slice_last n l = l.
Proof.
  intros H. unfold slice_last.
  replace (length l - n)%nat with 0%nat by lia. reflexivity.
Qed.

Lemma log_lines_spec (logs line : string) :
  In line (log_lines logs) <-> In line (split_lines logs) /\ blank line = false.
Proof.
  unfold log_lines. rewrite filter_In, negb_true_iff. reflexivity.
Qed.

(** X20.  GET [/:id/logs] always answers 200 and changes nothing.  Without
    a readable [plugin.log] (or without such a plugin at all) the log is
    the empty list.  Otherwise it is the end of the file's non-blank lines:
    at most 100 of them, in the order of the file, no blank line among
    them, and all of them when the file has no more than 100. *)
Theorem getLogs_window (st : state) (id : string) :
  exists lines : list string,
    getLogs id st
    = (Res 200 (Obj [("plugin", Str id); ("logs", Arr (map Str lines))]), st)
    /\ (length lines <= 100)%nat
    /\ Forall (fun line => blank line = false) lines
    /\ (readFile (fs st) id "plugin.log" = None -> lines = [])
    /\ (forall logs : string,
          readFile (fs st) id "plugin.log" = Some logs ->
          (exists older : list string, log_lines logs = older ++ lines)
          /\ ((length (log_lines logs) <= 100)%nat -> lines = log_lines logs)
          /\ (forall line : string,
                In line lines ->
                In line (split_lines logs) /\ blank line = false)).
Proof.
  unfold getLogs.
  destruct (readFile (fs st) id "plugin.log") as [logs|].
  - exists (slice_last 100 (log_lines logs)).
    split; [reflexivity|]. split; [apply slice_last_length|].
    assert (Hsub : forall line, In line (slice_last 100 (log_lines logs)) ->
                     In line (log_lines logs)).
    { intros line Hl. rewrite (slice_last_suffix 100 (log_lines logs)).
      apply in_or_app. now right. }
    split; [|split; [discriminate|]].
    + apply List.Forall_forall. intros line Hl.
      exact (proj2 (proj1 (log_lines_spec logs line) (Hsub line Hl))).
    + intros logs' [= <-]. split; [|split].
      * eexists. apply slice_last_suffix.
      * apply slice_last_all.
      * intros line Hl. apply log_lines_spec. now apply Hsub.
  - exists []. split; [reflexivity|]. split; [simpl; lia|].
    split; [constructor|]. split; [reflexivity | discriminate].
Qed.

(** ** Listing *)

Lemma omap_keys_NoDup {A B : Type} (f : A * B -> option A) (l : list (A * B)) :
  (forall x y, f x = Some y -> y = fst x) ->
  List.NoDup (map fst l) -> List.NoDup (omap f l).
Proof.
  intros Hf. induction l as [|x l IH]; simpl; intros Hnd; [constructor|].
  apply List.NoDup_cons_iff in Hnd as [Hnotin Hnd].
  destruct (f x) as [y|] eqn:E; [|now apply IH].
  constructor; [|now apply IH].
  intros Hin. apply Hnotin. apply list_elem_of_In, list_elem_of_omap in Hin
    as (z & Hz & Ez).
  rewrite <- (Hf x y E), (Hf z y Ez). apply in_map. now apply list_elem_of_In.
Qed.

Lemma directories_spec (root : gmap string node) (id : string) :
  In id (directories root) <-> exists files, root !! id = Some (Dir files).
Proof.
  unfold directories. rewrite <- list_elem_of_In, list_elem_of_omap. split.
  - intros ([k n] & Hin & Hk). simpl in Hk.
    destruct n as [|files]; [discriminate|]. injection Hk as ->.
    exists files. now apply elem_of_map_to_list.
  - intros (files & H). exists (id, Dir files).
    split; [now apply elem_of_map_to_list | reflexivity].
Qed.

Lemma list_entry_ids (root : gmap string node) (l : list (string * node)) :
  map (get "id") (omap (list_entry root) l)
  = map (fun id => Some (Str id))
      (omap (fun entry : string * node =>
               match snd entry with
               | Dir _ => Some (fst entry)
               | File => None
               end) l).
Proof.
  induction l as [|[k n] l IH]; [reflexivity|].
  cbn. unfold list_entry at 1. simpl.
  destruct n as [|files]; [exact IH|].
  cbn. rewrite IH. f_equal.
  destruct (readConfig root k); reflexivity.
Qed.

(** X21.  GET [/] answers 200 with exactly one entry for each directory of
    the plugin root, in the order of the directory listing, whatever the
    descriptors hold: a plain file gets no entry, a directory whose
    descriptor is read gets the entry that describes it, and a directory
    without a [plugin.json] gets the entry that reports
    [Invalid configuration], with one line on the console, instead of
    failing the listing.  The listing changes neither the disk nor the
    scheduler. *)
Theorem listPlugins_every_directory (st : state) :
  exists entries : list obj,
    fst (listPlugins st) = Res 200 (Obj [("plugins", Arr (map Obj entries))])
    /\ map (get "id") entries
       = map (fun id => Some (Str id)) (directories (fs st))
    /\ List.NoDup (directories (fs st))
    /\ (forall id : string,
          In id (directories (fs st))
          <-> exists files, fs st !! id = Some (Dir files))
    /\ (forall (id : string) (files : gmap string file) (config : obj),
          fs st !! id = Some (Dir files) -> readConfig (fs st) id = inr config ->
          In (describe id config) entries)
    /\ (forall (id : string) (files : gmap string file),
          fs st !! id = Some (Dir files) -> files !! "plugin.json" = None ->
          In (degraded id) entries
          /\ In ("Error reading plugin config for " +:+ id +:+ ":")
                (console (snd (listPlugins st))))
    /\ fs (snd (listPlugins st)) = fs st
    /\ activeJobs (snd (listPlugins st)) = activeJobs st
    /\ cron_tasks (snd (listPlugins st)) = cron_tasks st.
Proof.
  exists (omap (list_entry (fs st)) (map_to_list (fs st))).
  split; [reflexivity|]. split; [|split; [|split; [|split; [|split]]]].
  - apply list_entry_ids.
  - unfold directories. apply omap_keys_NoDup; [|apply keys_NoDup].
    intros [k n] y. simpl. destruct n; [discriminate | now intros [= <-]].
  - apply directories_spec.
  - intros id files config Hdir Hread.
    apply list_elem_of_In, list_elem_of_omap. exists (id, Dir files). split.
    + now apply elem_of_map_to_list.
    + unfold list_entry. simpl. now rewrite Hread.
  - intros id files Hdir Hnone.
    assert (Hread : readConfig (fs st) id = inl FsError)
      by (unfold readConfig; now rewrite Hdir, Hnone).
    split.
    + apply list_elem_of_In, list_elem_of_omap. exists (id, Dir files). split.
      * now apply elem_of_map_to_list.
      * unfold list_entry. simpl. now rewrite Hread.
    + simpl. apply in_or_app. right.
      apply list_elem_of_In, list_elem_of_omap. exists (id, Dir files). split.
      * now apply elem_of_map_to_list.
      * unfold list_error. simpl. now rewrite Hread.
  - repeat split.
Qed.

Lemma listPlugins_every_directory_witness :
  exists entries : list obj,
    fst (listPlugins (initial Samples.draft_root))
    = Res 200 (Obj [("plugins", Arr (map Obj entries))])
    /\ In (describe "sync" Samples.hourly) entries
    /\ In (degraded "draft") entries.
Proof.
  destruct (listPlugins_every_directory (initial Samples.draft_root))
    as (entries & H1 & _ & _ & _ & H5 & H6 & _).
  exists entries. split; [exact H1|]. split.
  - exact (H5 "sync" Samples.sync_files Samples.hourly
             ltac:(vm_compute; reflexivity) ltac:(vm_compute; reflexivity)).
  - exact (proj1 (H6 "draft" Samples.no_files
                    ltac:(vm_compute; reflexivity) ltac:(reflexivity))).
Defined.

(** ** Installing *)




(** ** The scheduler over the life of the server *)

(** X23.  Whatever requests the server has served and whatever tasks have
    fired since it started, the scheduler's book-keeping is sound: no plugin
    has more than one running trigger, a plugin has a running trigger
    exactly when [activeJobs] has an entry for it, and a manual run or a
    look at the logs keeps it so. *)
Theorem reachable_scheduler_sound
    (cron_validate : string -> bool) (root : gmap string node) (st : state) :
  reachable cron_validate root st ->
  consistent st
  /\ (forall id : string, (length (triggers id st) <= 1)%nat)
  /\ (forall id : string,
        is_Some (activeJobs st !! id) <-> length (triggers id st) = 1%nat)
  /\ (forall (id now : string) (c : child), consistent (snd (run id now c st)))
  /\ (forall id : string, snd (getLogs id st) = st).
Proof.
  intros H. pose proof (reachable_consistent cron_validate root st H) as Hc.
  split; [assumption|]. split; [|split; [|split]].
  - intros id. rewrite triggers_count by assumption.
    destruct (activeJobs st !! id); lia.
  - intros id. rewrite triggers_count by assumption.
    destruct (activeJobs st !! id); split; try discriminate; eauto.
    intros [x Hx]. discriminate.
  - intros id now c.
    destruct (run_same_jobs st id now c) as (Ha & Ht & Hn).
    now apply (consistent_same_jobs st).
  - reflexivity.
Qed.

Lemma reachable_scheduler_sound_witness :
  (length (triggers "sync" Samples.sync_unscheduled) <= 1)%nat
  /\ (is_Some (activeJobs Samples.sync_unscheduled !! "sync")
      <-> length (triggers "sync" Samples.sync_unscheduled) = 1%nat).
Proof.
  destruct (reachable_scheduler_sound Samples.cron_fields Samples.plugin_root
              Samples.sync_unscheduled
              (reachable_step _ _ _ _
                 (reachable_step _ _ _ _
                    (reachable_initial Samples.cron_fields Samples.plugin_root)
                    (step_enable Samples.cron_fields "sync"
                       (initial Samples.plugin_root)))
                 (step_updateConfig Samples.cron_fields "sync"
                    [("schedule", Str "")] Samples.sync_enabled)))
    as (_ & H2 & H3 & _).
  split; [apply H2 | apply H3].
Defined.

(** ** Updating a descriptor *)

Lemma stop_fs (id : string) (st : state) : fs (stopScheduledJob id st) = fs st.
Proof. unfold stopScheduledJob. now destruct (activeJobs st !! id). Qed.

Lemma start_fs
    (cron_validate : string -> bool) (id : string) (config : obj) (st : state) :
  fs (snd (startScheduledJob cron_validate id config st)) = fs st.
Proof.
  unfold startScheduledJob, cron_schedule.
  destruct (scheduled config); [|apply stop_fs].
  destruct (get "schedule" config) as [[| | |e| |]|]; try apply stop_fs.
  destruct (cron_validate e); [|apply stop_fs]. simpl. apply stop_fs.
Qed.

(** X24.  PUT [/:id/config] lays the request body over the descriptor.
    For a body without the key [__proto__] (which [Object.assign] does not
    copy: it sets the prototype instead), the descriptor read from disk
    afterwards has every property of the body with the body's value and
    every other property as it was, and the files of the other plugins are
    untouched.  The descriptor is written before any scheduling, so it is
    on disk even when the route then answers 500 because the cron library
    refuses the schedule; when the route answers 200 the body it sends has
    the properties of the descriptor it wrote.  The properties are compared
    one by one; nothing is said of the order the keys are listed in. *)
Theorem updateConfig_merges
    (cron_validate : string -> bool) (st : state) (id : string)
    (updates config0 : obj) :
  readConfig (fs st) id = inr config0 ->
  keys_distinct (map fst updates) = true ->
  get "__proto__" updates = None ->
  exists written : obj,
    readConfig (fs (snd (updateConfig cron_validate id updates st))) id
    = inr written
    /\ (forall (k : string) (v : value),
          get k updates = Some v -> get k written = Some v)
    /\ (forall k : string,
          get k updates = None -> get k written = get k config0)
    /\ (forall id' : string,
          id' <> id ->
          fs (snd (updateConfig cron_validate id updates st)) !! id'
          = fs st !! id')
    /\ ((exists shown : obj,
           fst (updateConfig cron_validate id updates st)
           = Res 200 (Obj [("success", Bool true); ("plugin", Str id);
                           ("config", Obj shown)])
           /\ forall k : string, get k shown = get k written)
        \/ (exists e : thrown,
              fst (updateConfig cron_validate id updates st) = Res500 e
              /\ scheduled written = true)).
Proof.
  intros Hread Hd _. exists (assign config0 updates).
  destruct (write_after_read _ _ _ (assign config0 updates) Hread)
    as (root & Hw & Hread' & Hframe).
  assert (Hfs : fs (snd (updateConfig cron_validate id updates st)) = root).
  { unfold updateConfig. rewrite Hread, Hw.
    destruct (scheduled (assign config0 updates)).
    - pose proof (start_fs cron_validate id (assign config0 updates)
                    (stopScheduledJob id (with_fs st root))) as Hs.
      rewrite stop_fs in Hs.
      destruct (startScheduledJob cron_validate id (assign config0 updates)
                  (stopScheduledJob id (with_fs st root))) as [[e|] st2];
        exact Hs.
    - destruct (negb (truthy_opt (get "enabled" (assign config0 updates))));
        [apply stop_fs | reflexivity]. }
  split; [now rewrite Hfs|].
  split; [intros k v Hk; now apply get_assign_present|].
  split; [intros k Hk; now apply get_assign_absent|].
  split; [intros id' Hne; rewrite Hfs; now apply Hframe|].
  unfold updateConfig. rewrite Hread, Hw.
  destruct (scheduled (assign config0 updates)).
  - destruct (startScheduledJob cron_validate id (assign config0 updates)
                (stopScheduledJob id (with_fs st root))) as [[e|] st2];
      [right; eauto | left; eexists; split; reflexivity].
  - left.
    destruct (negb (truthy_opt (get "enabled" (assign config0 updates))));
      eexists; split; reflexivity.
Qed.

Lemma updateConfig_merges_witness :
  exists written : obj,
    readConfig (fs Samples.sync_unscheduled) "sync" = inr written
    /\ get "schedule" written = Some (Str "")
    /\ get "name" written = Some (Str "sync").
Proof.
  destruct (updateConfig_merges Samples.cron_fields Samples.sync_enabled "sync"
              [("schedule", Str "")]
              [("name", Str "sync"); ("schedule", Str "0 * * * *");
               ("enabled", Bool true)]
              ltac:(vm_compute; reflexivity) ltac:(reflexivity)
              ltac:(reflexivity))
    as (written & H1 & H2 & H3 & _).
  exists written. split; [exact H1|]. split.
  - exact (H2 "schedule" (Str "") eq_refl).
  - rewrite (H3 "name" eq_refl). reflexivity.
Defined.

End RegistryFacts.

(* ===================================================================== *)
(** * Updating and reading back *)
(* ===================================================================== *)

Module UpdateFacts.
Import Json Sqlite EventManager JsonFacts StoreFacts QueryFacts.





End UpdateFacts.

(* ===================================================================== *)
(** * The text of a descriptor *)
(* ===================================================================== *)

Module DescriptorFacts.
Import Json Plugins JsonFacts.

#[local] Arguments quote : simpl never.

Lemma ws_cases (c : ascii) :
  is_ws c = true ->
  c = " "%char \/ c = "009"%char \/ c = "010"%char \/ c = "013"%char.
Proof.
  unfold is_ws. rewrite !orb_true_iff, !Ascii.eqb_eq. tauto.
Qed.

Lemma parse_value_ws_char (f : nat) (c : ascii) (r : string) :
  is_ws c = true -> parse_value f (String c r) = parse_value f r.
Proof.
  intros H. destruct f; [reflexivity|].
  destruct (ws_cases c H) as [-> | [-> | [-> | ->]]]; reflexivity.
Qed.

Lemma parse_elems_ws_char (f : nat) (c : ascii) (r : string) :
  is_ws c = true -> parse_elems f (String c r) = parse_elems f r.
Proof.
  intros H. destruct f; [reflexivity|].
  destruct (ws_cases c H) as [-> | [-> | [-> | ->]]]; reflexivity.
Qed.

Lemma parse_member_ws_char (f : nat) (c : ascii) (r : string) :
  is_ws c = true -> parse_member f (String c r) = parse_member f r.
Proof.
  intros H. destruct f; [reflexivity|].
  destruct (ws_cases c H) as [-> | [-> | [-> | ->]]]; reflexivity.
Qed.

Lemma parse_members_ws_char (f : nat) (c : ascii) (r : string) :
  is_ws c = true -> parse_members f (String c r) = parse_members f r.
Proof.
  intros H. destruct f; [reflexivity|].
  destruct (ws_cases c H) as [-> | [-> | [-> | ->]]]; reflexivity.
Qed.

(** A line break and an indentation in front of a text are skipped. *)
Lemma parse_value_line (f : nat) (indent s : string) :
  indentation indent = true ->
  parse_value f (String "010" (indent +:+ s)) = parse_value f s.
Proof.
  intros H. rewrite parse_value_ws_char by reflexivity.
  induction indent as [|c indent IH]; [reflexivity|].
  simpl in H. apply andb_true_iff in H as [Hc Hi].
  apply Ascii.eqb_eq in Hc. subst c. simpl String.append.
  rewrite parse_value_ws_char by reflexivity. now apply IH.
Qed.

Lemma parse_elems_line (f : nat) (indent s : string) :
  indentation indent = true ->
  parse_elems f (String "010" (indent +:+ s)) = parse_elems f s.
Proof.
  intros H. rewrite parse_elems_ws_char by reflexivity.
  induction indent as [|c indent IH]; [reflexivity|].
  simpl in H. apply andb_true_iff in H as [Hc Hi].
  apply Ascii.eqb_eq in Hc. subst c. simpl String.append.
  rewrite parse_elems_ws_char by reflexivity. now apply IH.
Qed.

Lemma parse_member_line (f : nat) (indent s : string) :
  indentation indent = true ->
  parse_member f (String "010" (indent +:+ s)) = parse_member f s.
Proof.
  intros H. rewrite parse_member_ws_char by reflexivity.
  induction indent as [|c indent IH]; [reflexivity|].
  simpl in H. apply andb_true_iff in H as [Hc Hi].
  apply Ascii.eqb_eq in Hc. subst c. simpl String.append.
  rewrite parse_member_ws_char by reflexivity. now apply IH.
Qed.

Lemma parse_members_line (f : nat) (indent s : string) :
  indentation indent = true ->
  parse_members f (String "010" (indent +:+ s)) = parse_members f s.
Proof.
  intros H. rewrite parse_members_ws_char by reflexivity.
  induction indent as [|c indent IH]; [reflexivity|].
  simpl in H. apply andb_true_iff in H as [Hc Hi].
  apply Ascii.eqb_eq in Hc. subst c. simpl String.append.
  rewrite parse_members_ws_char by reflexivity. now apply IH.
Qed.

Lemma skip_ws_line (indent s : string) :
  indentation indent = true ->
  skip_ws (String "010" (indent +:+ s)) = skip_ws s.
Proof.
  intros H. simpl skip_ws.
  induction indent as [|c indent IH]; [reflexivity|].
  simpl in H. apply andb_true_iff in H as [Hc Hi].
  apply Ascii.eqb_eq in Hc. subst c. simpl. now apply IH.
Qed.

Lemma indentation_deeper (indent : string) :
  indentation indent = true -> indentation (indent +:+ "  ") = true.
Proof.
  induction indent as [|c indent IH]; [reflexivity|].
  simpl. rewrite !andb_true_iff. intros [Hc Hi]. auto.
Qed.

Lemma stringify_indented_arr (indent : string) (x : value) (l : list value) :
  stringify_indented indent (Arr (x :: l))
  = String "["
      (String "010"
         ((indent +:+ "  ") +:+
          stringify_indented (indent +:+ "  ") x +:+
          join_lines (stringify_indented (indent +:+ "  ")) (indent +:+ "  ") l +:+
          String "010" (indent +:+ "]"))).
Proof. reflexivity. Qed.

Lemma stringify_indented_obj (indent : string) (kv : string * value)
    (o : list (string * value)) :
  stringify_indented indent (Obj (kv :: o))
  = String "{"
      (String "010"
         ((indent +:+ "  ") +:+
          (quote (fst kv) +:+ ": " +:+
           stringify_indented (indent +:+ "  ") (snd kv)) +:+
          join_lines
            (fun kv' => quote (fst kv') +:+ ": " +:+
                        stringify_indented (indent +:+ "  ") (snd kv'))
            (indent +:+ "  ") o +:+
          String "010" (indent +:+ "}"))).
Proof. reflexivity. Qed.

Lemma join_lines_cons {A : Type} (f : A -> string) (indent : string) (y : A)
    (l : list A) :
  join_lines f indent (y :: l)
  = String "," (String "010" (indent +:+ f y +:+ join_lines f indent l)).
Proof. reflexivity. Qed.

Lemma stringify_indented_starts (indent : string) (v : value) (r : string) :
  starts_value (stringify_indented indent v +:+ r) = true.
Proof.
  destruct v as [|[]|n|s|[|x l]|[|kv o]]; try reflexivity.
  apply (stringify_starts (Num n)).
Qed.

Lemma parse_value_arr_open (f : nat) (R : string) :
  starts_value (skip_ws R) = true ->
  parse_value (S f) (String "[" R) =
  match parse_value f R with
  | Some (v, r1) =>
      match parse_elems f r1 with
      | Some (vs, r2) => Some (Arr (v :: vs), r2)
      | None => None
      end
  | None => None
  end.
Proof.
  intros H.
  change (parse_value (S f) (String "[" R))
    with (match skip_ws R with
          | String c' r' =>
              if Ascii.eqb c' "]" then Some (Arr [], r')
              else
                match parse_value f R with
                | Some (v, r1) =>
                    match parse_elems f r1 with
                    | Some (vs, r2) => Some (Arr (v :: vs), r2)
                    | None => None
                    end
                | None => None
                end
          | EmptyString => None
          end).
  destruct (skip_ws R) as [|c r]; [discriminate|].
  simpl in H. destruct (Ascii.eqb c "]"); [|reflexivity].
  rewrite andb_false_r in H. discriminate.
Qed.

Lemma parse_value_obj_open (f : nat) (R : string) :
  starts_value (skip_ws R) = true ->
  parse_value (S f) (String "{" R) =
  match parse_member f R with
  | Some (kv, r1) =>
      match parse_members f r1 with
      | Some (ms, r2) => Some (Obj (of_members (kv :: ms)), r2)
      | None => None
      end
  | None => None
  end.
Proof.
  intros H.
  change (parse_value (S f) (String "{" R))
    with (match skip_ws R with
          | String c' r' =>
              if Ascii.eqb c' "}" then Some (Obj [], r')
              else
                match parse_member f R with
                | Some (kv, r1) =>
                    match parse_members f r1 with
                    | Some (ms, r2) => Some (Obj (of_members (kv :: ms)), r2)
                    | None => None
                    end
                | None => None
                end
          | EmptyString => None
          end).
  destruct (skip_ws R) as [|c r]; [discriminate|].
  simpl in H. destruct (Ascii.eqb c "}"); [|reflexivity].
  rewrite andb_false_r in H. discriminate.
Qed.


Lemma skip_ws_value (indent : string) (v : value) (r : string) :
  skip_ws (stringify_indented indent v +:+ r) = stringify_indented indent v +:+ r
  /\ starts_value (stringify_indented indent v +:+ r) = true.
Proof.
  pose proof (stringify_indented_starts indent v r) as H.
  split; [|assumption].
  destruct (stringify_indented indent v +:+ r) as [|c s]; [discriminate|].
  simpl in H. simpl. destruct (is_ws c); [discriminate | reflexivity].
Qed.

Lemma num_follow_lines {A : Type} (f : A -> string) (indent : string)
    (l : list A) (rest : string) :
  num_follow (join_lines f indent l +:+ String "010" rest) = true.
Proof. destruct l; reflexivity. Qed.

Lemma parse_elems_indented (l : list value) :
  Forall reads_back l -> forallb wf l = true ->
  forall (inner indent : string) (fuel : nat) (rest : string),
    indentation inner = true -> indentation indent = true ->
    (String.length (join_lines (stringify_indented inner) inner l)
     + String.length indent + 2 <= fuel)%nat ->
    parse_elems fuel
      (join_lines (stringify_indented inner) inner l
       +:+ String "010" (indent +:+ String "]" rest))
    = Some (l, rest).
Proof.
  induction 1 as [|y l Hy Hl IH];
    intros Hwf inner indent fuel rest Hin Hind Hfuel.
  - simpl join_lines. simpl String.append.
    rewrite parse_elems_line by assumption.
    destruct fuel; [lia | reflexivity].
  - simpl in Hwf. apply andb_true_iff in Hwf as [Hwy Hwl].
    rewrite join_lines_cons in *.
    change (String.length (String "," (String "010" ?X)))
      with (S (S (String.length X))) in Hfuel.
    rewrite !length_append in Hfuel.
    destruct fuel as [|f]; [lia|].
    change (String "," (String "010" ?X) +:+ ?Y)
      with (String "," (String "010" (X +:+ Y))).
    rewrite !append_assoc.
    change (parse_elems (S f) (String "," ?X))
      with (match parse_value f X with
            | Some (v, r1) =>
                match parse_elems f r1 with
                | Some (vs, r2) => Some (v :: vs, r2)
                | None => None
                end
            | None => None
            end).
    rewrite parse_value_line by assumption.
    rewrite (Hy Hwy) by (try assumption; try lia; apply num_follow_lines).
    rewrite IH by (try assumption; lia). reflexivity.
Qed.

Lemma parse_member_indented (k : string) (x : value) :
  reads_back x -> wf x = true ->
  forall (inner : string) (fuel : nat) (rest : string),
    indentation inner = true ->
    (String.length (stringify_indented inner x) + 1 <= fuel)%nat ->
    num_follow rest = true ->
    parse_member fuel
      (quote k +:+ ": " +:+ stringify_indented inner x +:+ rest)
    = Some ((k, x), rest).
Proof.
  intros Hx Hwf inner fuel rest Hin Hfuel Hrest.
  destruct fuel as [|f]; [lia|].
  unfold quote. simpl String.append. rewrite append_assoc. simpl String.append.
  change (parse_member (S f) (String dquote ?Y))
    with (match parse_string Y with
          | Some (k, r1) =>
              match skip_ws r1 with
              | String c' r2 =>
                  if Ascii.eqb c' ":" then
                    match parse_value f r2 with
                    | Some (v, r3) => Some ((k, v), r3)
                    | None => None
                    end
                  else None
              | EmptyString => None
              end
          | None => None
          end).
  rewrite parse_string_roundtrip. simpl skip_ws. cbv iota.
  change (Ascii.eqb ":" ":") with true. cbv iota.
  rewrite parse_value_ws_char by reflexivity.
  rewrite (Hx Hwf) by (try assumption; lia). reflexivity.
Qed.

Lemma parse_members_indented (o : list (string * value)) :
  Forall (fun kv => reads_back (snd kv)) o ->
  forallb (fun kv => wf (snd kv)) o = true ->
  forall (inner indent : string) (fuel : nat) (rest : string),
    indentation inner = true -> indentation indent = true ->
    (String.length
       (join_lines
          (fun kv => quote (fst kv) +:+ ": " +:+
                     stringify_indented inner (snd kv)) inner o)
     + String.length indent + 2 <= fuel)%nat ->
    parse_members fuel
      (join_lines
         (fun kv => quote (fst kv) +:+ ": " +:+
                    stringify_indented inner (snd kv)) inner o
       +:+ String "010" (indent +:+ String "}" rest))
    = Some (o, rest).
Proof.
  induction 1 as [|[k y] o Hy Ho IH];
    intros Hwf inner indent fuel rest Hin Hind Hfuel.
  - simpl join_lines. simpl String.append.
    rewrite parse_members_line by assumption.
    destruct fuel; [lia | reflexivity].
  - simpl in Hwf. apply andb_true_iff in Hwf as [Hwy Hwo].
    rewrite join_lines_cons in *.
    change (String.length (String "," (String "010" ?X)))
      with (S (S (String.length X))) in Hfuel.
    rewrite !length_append in Hfuel.
    change (fst (k, y)) with k in *. change (snd (k, y)) with y in *.
    destruct fuel as [|f]; [lia|].
    change (String "," (String "010" ?X) +:+ ?Y)
      with (String "," (String "010" (X +:+ Y))).
    rewrite !append_assoc.
    change (parse_members (S f) (String "," ?X))
      with (match parse_member f X with
            | Some (kv, r1) =>
                match parse_members f r1 with
                | Some (ms, r2) => Some (kv :: ms, r2)
                | None => None
                end
            | None => None
            end).
    rewrite parse_member_line by assumption.
    rewrite (parse_member_indented k y Hy Hwy)
      by (try assumption; try lia; apply num_follow_lines).
    rewrite IH by (try assumption; lia). reflexivity.
Qed.

Lemma parse_value_indented (v : value) : reads_back v.
Proof.
  induction v as [|b|n|s|l IH|o IH] using value_induction;
    intros Hwf indent fuel rest Hind Hfuel Hrest;
    try exact (parse_value_roundtrip _ Hwf fuel rest Hfuel Hrest).
  - destruct l as [|x l].
    + destruct fuel; [simpl in Hfuel; lia | reflexivity].
    + rewrite stringify_indented_arr in *.
      pose proof (indentation_deeper indent Hind) as Hin.
      set (inner := indent +:+ "  ") in *.
      change (String.length (String "[" (String "010" ?X)))
        with (S (S (String.length X))) in Hfuel.
      rewrite !length_append in Hfuel.
      change (String.length (String "010" ?X)) with (S (String.length X)) in Hfuel.
      rewrite length_append in Hfuel. simpl (String.length "]") in Hfuel.
      destruct fuel as [|f]; [lia|].
      change (String "[" (String "010" ?X) +:+ rest)
        with (String "[" (String "010" (X +:+ rest))).
      rewrite !append_assoc.
      change (String "010" ?X +:+ rest) with (String "010" (X +:+ rest)).
      rewrite append_assoc. change ("]" +:+ rest) with (String "]" rest).
      rewrite parse_value_arr_open
        by (rewrite skip_ws_line by assumption;
            rewrite (proj1 (skip_ws_value _ _ _));
            apply stringify_indented_starts).
      rewrite parse_value_line by assumption.
      simpl in Hwf. apply andb_true_iff in Hwf as [Hwx Hwl].
      inversion IH as [|? ? Hx Hl]; subst.
      rewrite (Hx Hwx) by (try assumption; try lia; apply num_follow_lines).
      rewrite parse_elems_indented by (try assumption; lia). reflexivity.
  - destruct o as [|[k x] o].
    + destruct fuel; [simpl in Hfuel; lia | reflexivity].
    + rewrite stringify_indented_obj in *.
      pose proof (indentation_deeper indent Hind) as Hin.
      set (inner := indent +:+ "  ") in *.
      change (fst (k, x)) with k in *. change (snd (k, x)) with x in *.
      change (String.length (String "{" (String "010" ?X)))
        with (S (S (String.length X))) in Hfuel.
      rewrite !length_append in Hfuel.
      change (String.length (String "010" ?X)) with (S (String.length X)) in Hfuel.
      rewrite length_append in Hfuel. simpl (String.length "}") in Hfuel.
      destruct fuel as [|f]; [lia|].
      change (String "{" (String "010" ?X) +:+ rest)
        with (String "{" (String "010" (X +:+ rest))).
      rewrite !append_assoc.
      change (String "010" ?X +:+ rest) with (String "010" (X +:+ rest)).
      rewrite append_assoc. change ("}" +:+ rest) with (String "}" rest).
      rewrite parse_value_obj_open
        by (rewrite skip_ws_line by assumption; reflexivity).
      rewrite parse_member_line by assumption.
      assert (Hw := Hwf). simpl in Hw.
      apply andb_true_iff in Hw as [Hkeys Hw].
      apply andb_true_iff in Hw as [Hwx Hwo].
      inversion IH as [|? ? Hx Ho]; subst. simpl in Hx.
      rewrite (parse_member_indented k x Hx Hwx)
        by (try assumption; try lia; apply num_follow_lines).
      rewrite parse_members_indented by (try assumption; lia).
      rewrite of_members_distinct; [reflexivity|].
      simpl. exact Hkeys.
Qed.


Lemma parse_stringify_indented (v : value) :
  wf v = true -> parse (stringify_indented "" v) = Some v.
Proof.
  intros Hwf. unfold parse.
  pose proof (parse_value_indented v Hwf ""
                (S (String.length (stringify_indented "" v))) ""
                eq_refl ltac:(lia) eq_refl) as H.
  rewrite append_nil_r in H. rewrite H. reflexivity.
Qed.

(** X26.  A descriptor the server writes reads back: the text
    [JSON.stringify(config, null, 2)] puts in [plugin.json] is parsed by
    [JSON.parse] to the same object (for a descriptor without a repeated
    key), so what a route reads after [enable], [disable], a configuration
    update, an install or a run is the object that was written. *)
Theorem descriptor_reads_back
    (root : gmap string node) (id : string) (config : obj) :
  wf (Obj config) = true ->
  parse (stringify_indented "" (Obj config)) = Some (Obj config)
  /\ (forall root' : gmap string node,
        writeConfig root id config = Some root' ->
        readFile root' id "plugin.json"
        = Some (stringify_indented "" (Obj config))
        /\ readConfig root' id = inr config).
Proof.
  intros Hwf. split; [now apply parse_stringify_indented|].
  intros root'. unfold writeConfig, writeFile, readFile, readConfig.
  destruct (root !! id) as [[|files]|]; try discriminate.
  intros [= <-]. rewrite !lookup_insert_eq. simpl.
  rewrite ?lookup_insert_eq. auto.
Qed.

Lemma descriptor_reads_back_witness :
  parse (stringify_indented "" (Obj Samples.hourly)) = Some (Obj Samples.hourly)
  /\ readFile (fs Samples.sync_enabled) "sync" "plugin.json"
     = Some (stringify_indented ""
               (Obj (set "enabled" (Bool true) Samples.hourly))).
Proof.
  split.
  - exact (proj1 (descriptor_reads_back Samples.plugin_root "sync"
                    Samples.hourly eq_refl)).
  - exact (proj1 (proj2 (descriptor_reads_back Samples.plugin_root "sync"
                           (set "enabled" (Bool true) Samples.hourly) eq_refl)
                    (fs Samples.sync_enabled) ltac:(vm_compute; reflexivity))).
Defined.

End DescriptorFacts.
